(** * A shallow embedding of the SAS interpreter (iamafool/sass)

    The development follows the C++ sources:
    - [Lexer::scanString]            (string-literal scanning),
    - [Interpreter] in sass/Interpreter.cpp (expression evaluation, DATA step,
      MERGE, DO loops, arrays, PROC MEANS, program execution).

    C++ [double] is modelled by [spec_float] at binary64 precision, strings by
    [string], [std::unordered_map<std::string, T>] by [gmap string T], and the
    columns of a row by an association list kept in key order. *)

From Stdlib Require Import ZArith String Ascii List Lia Bool.
From Stdlib Require Import SpecFloat DecimalString.
From Stdlib Require DecimalN DecimalPos.
From stdpp Require Import gmap strings.
Import ListNotations.

Local Open Scope Z_scope.

(** stdpp blocks the unfolding of [String.append]; the proofs below compute
    with it. *)
#[local] Arguments String.append !s1 s2.

(* ===================================================================== *)
(** * Part I: definitions                                                 *)
(* ===================================================================== *)

(** ** C++ [double] as IEEE 754 binary64 *)

Module Double.

Definition double := spec_float.

Definition prec : Z := 53.
Definition emax : Z := 1024.

Definition nan : double := S754_nan.
Definition zero : double := S754_zero false.

(** Conversion of an integer, as in [static_cast<double>(n)]. *)
Definition of_Z (z : Z) : double := binary_normalize prec emax z 0 false.

Definition one : double := Eval vm_compute in of_Z 1.

Definition add : double -> double -> double := SFadd prec emax.
Definition sub : double -> double -> double := SFsub prec emax.
Definition mul : double -> double -> double := SFmul prec emax.
Definition div : double -> double -> double := SFdiv prec emax.
Definition sqrt : double -> double := SFsqrt prec emax.
Definition abs : double -> double := SFabs.
Definition opp : double -> double := SFopp.

(** The C++ comparison operators on [double]. *)
Definition eqb : double -> double -> bool := SFeqb.
Definition neb (x y : double) : bool := negb (SFeqb x y).
Definition ltb : double -> double -> bool := SFltb.
Definition leb : double -> double -> bool := SFleb.
Definition gtb (x y : double) : bool := SFltb y x.
Definition geb (x y : double) : bool := SFleb y x.

Definition is_nan (x : double) : bool :=
  match x with S754_nan => true | _ => false end.

End Double.

Import Double.

(** ** Tokens (Token.h) *)

Inductive TokenType :=
| IDENTIFIER | NUMBER | STRING
| KEYWORD_DATA | KEYWORD_SET | KEYWORD_IF | KEYWORD_THEN | KEYWORD_ELSE
| KEYWORD_ELSE_IF | KEYWORD_OUTPUT | KEYWORD_RUN | KEYWORD_OPTIONS
| KEYWORD_LIBNAME | KEYWORD_TITLE | KEYWORD_PROC | KEYWORD_DROP
| KEYWORD_KEEP | KEYWORD_RETAIN | KEYWORD_ARRAY | KEYWORD_DO
| KEYWORD_ENDDO | KEYWORD_TO | KEYWORD_BY | KEYWORD_VAR | KEYWORD_MERGE
| KEYWORD_DOLOOP | KEYWORD_WHILE | KEYWORD_UNTIL | KEYWORD_END
| KEYWORD_SORT | KEYWORD_OUT | KEYWORD_WHERE | KEYWORD_NODUPKEY
| KEYWORD_DUPLICATES | KEYWORD_MAX | KEYWORD_MEAN | KEYWORD_MEANS
| KEYWORD_MEDIAN | KEYWORD_MIN | KEYWORD_N | KEYWORD_NOMISSING
| KEYWORD_STD | KEYWORD_TABLES | KEYWORD_CHISQ | KEYWORD_NOCUM
| KEYWORD_NOPRINT | KEYWORD_ORDER | KEYWORD_FREQ | KEYWORD_PRINT
| KEYWORD_OBS | KEYWORD_NOOBS | KEYWORD_LABEL
| EQUAL | SEMICOLON | LPAREN | RPAREN | LBRACE | RBRACE | LBRACKET
| RBRACKET | COMMA | QUOTE | DOT | GREATER | LESS | GREATER_EQUAL
| LESS_EQUAL | EQUAL_EQUAL | NOT_EQUAL | NOT | AND | OR | STAR | PLUS
| MINUS | MUL | DIV | EOF_TOKEN | SLASH | UNKNOWN.

Record Token := mkToken {
  tok_type : TokenType;
  tok_text : string;
  tok_line : nat;
  tok_col  : nat
}.

(** ** The lexer: [Lexer::scanString] *)

Module Lexer.

(** The lexer object: the source text, the read position and the
    line/column counters. *)
Record Lexer := mkLexer {
  input : string;
  pos   : nat;
  line  : nat;
  col   : nat
}.

(** [Lexer::peekChar] and [Lexer::getChar] are declared in Lexer.h, which is
    not among the sources.  They are modelled after their uses in
    [scanString]: [peekChar] reads [input[pos]] without moving, [getChar]
    reads it and advances ("We already advanced pos by 1, col by 1").  Both
    are only called with [pos < input.size()]; outside the text they read
    the NUL character. *)
Definition peekChar (lx : Lexer) : ascii :=
  match String.get lx.(pos) lx.(input) with
  | Some c => c
  | None => Ascii.zero
  end.

Definition getChar (lx : Lexer) : ascii * Lexer :=
  (peekChar lx,
   {| input := lx.(input); pos := S lx.(pos);
      line := lx.(line); col := S lx.(col) |}).

Definition add_col (n : nat) (lx : Lexer) : Lexer :=
  {| input := lx.(input); pos := lx.(pos);
     line := lx.(line); col := (n + lx.(col))%nat |}.

(** Result of a scan: a token and the lexer after it, or the message of the
    [std::runtime_error] that was thrown. *)
Inductive ScanResult :=
| Scanned (t : Token) (lx : Lexer)
| LexError (msg : string).

(** [value.push_back(c)] *)
Definition push_back (s : string) (c : ascii) : string :=
  s +:+ String c EmptyString.

(** The [while (true)] loop of [scanString].  Every trip either stops or
    consumes at least one character, so [fuel] bounds the number of trips by
    the number of characters left; [None] is the model running out of it. *)
Fixpoint scanString_loop (fuel : nat) (quoteChar : ascii) (tline tcol : nat)
         (lx : Lexer) (value : string) : option ScanResult :=
  match fuel with
  | O => None
  | S fuel' =>
    if (String.length lx.(input) <=? lx.(pos))%nat then
      Some (LexError "Unterminated string literal")
    else
      let c := peekChar lx in
      if Ascii.eqb c quoteChar then
        if ((S lx.(pos) <? String.length lx.(input))%nat
            && match String.get (S lx.(pos)) lx.(input) with
               | Some c' => Ascii.eqb c' quoteChar
               | None => false
               end)%bool
        then
          let lx1 := snd (getChar lx) in
          let lx2 := snd (getChar lx1) in
          scanString_loop fuel' quoteChar tline tcol (add_col 2 lx2)
                          (push_back value quoteChar)
        else
          let lx1 := snd (getChar lx) in
          Some (Scanned {| tok_type := STRING; tok_text := value;
                           tok_line := tline; tok_col := tcol |}
                        (add_col 1 lx1))
      else
        let lx1 := snd (getChar lx) in
        scanString_loop fuel' quoteChar tline tcol (add_col 1 lx1)
                        (push_back value c)
  end.

(** [Token Lexer::scanString()] *)
Definition scanString (lx : Lexer) : option ScanResult :=
  let tline := lx.(line) in
  let tcol := lx.(col) in
  let '(quoteChar, lx0) := getChar lx in
  scanString_loop (S (String.length lx.(input) - lx.(pos))) quoteChar
                  tline tcol lx0 EmptyString.

(** The source text of a literal body: every character of the content is
    written as is, except the delimiter, which is written twice. *)
Fixpoint escape (q : ascii) (s : string) : string :=
  match s with
  | EmptyString => EmptyString
  | String c s' =>
    if Ascii.eqb c q then String q (String q (escape q s'))
    else String c (escape q s')
  end.

End Lexer.

(** ** Values, rows and datasets *)

(** [using Value = std::variant<double, std::string>]; the numeric missing
    value of the interpreter is the NaN produced by [std::nan("")]. *)
Inductive Value :=
| VNum (d : double)
| VStr (s : string).

(** [Row::columns].  Dataset.h is not among the sources; the container is
    modelled as a map iterated in key order ([std::map]): an association list
    kept sorted, whose head is [columns.begin()]. *)
Definition Row := list (string * Value).

Fixpoint row_find (k : string) (r : Row) : option Value :=
  match r with
  | [] => None
  | (k', v') :: r' => if String.eqb k k' then Some v' else row_find k r'
  end.

(** [columns[k] = v] *)
Fixpoint row_set (k : string) (v : Value) (r : Row) : Row :=
  match r with
  | [] => [(k, v)]
  | (k', v') :: r' =>
    match String.compare k k' with
    | Eq => (k, v) :: r'
    | Lt => (k, v) :: r
    | Gt => (k', v') :: row_set k v r'
    end
  end.

(** [columns.erase(k)] *)
Fixpoint row_erase (k : string) (r : Row) : Row :=
  match r with
  | [] => []
  | (k', v') :: r' =>
    if String.eqb k k' then r' else (k', v') :: row_erase k r'
  end.

Definition row_keys (r : Row) : list string := map fst r.

(** [std::find(v.begin(), v.end(), x) != v.end()] *)
Definition mem (x : string) (l : list string) : bool :=
  existsb (String.eqb x) l.

Record DataSet := mkDataSet {
  ds_name : string;
  ds_rows : list Row;
  ds_columnOrder : list string
}.

(** Modelled from the spec: [DataSet::addRow] (Dataset.h is absent) appends
    the row; "a dataset's column order is the order of first-observed
    variables", so the columns of the row not seen before are appended to
    [columnOrder]. *)
Definition addRow (r : Row) (ds : DataSet) : DataSet :=
  {| ds_name := ds.(ds_name);
     ds_rows := ds.(ds_rows) ++ [r];
     ds_columnOrder :=
       fold_left (fun order k => if mem k order then order else order ++ [k])
                 (row_keys r) ds.(ds_columnOrder) |}.

Definition set_rows (rs : list Row) (ds : DataSet) : DataSet :=
  {| ds_name := ds.(ds_name); ds_rows := rs;
     ds_columnOrder := ds.(ds_columnOrder) |}.

Definition set_name (n : string) (ds : DataSet) : DataSet :=
  {| ds_name := n; ds_rows := ds.(ds_rows);
     ds_columnOrder := ds.(ds_columnOrder) |}.

(** ** Conversions of [double] *)

Definition INT_MIN : Z := - 2 ^ 31.
Definition INT_MAX : Z := 2 ^ 31 - 1.

(** [static_cast<int>(size_t)]: the value modulo 2^32, read as signed. *)
Definition int_of_size (n : nat) : Z :=
  let z := Z.of_nat n mod 2 ^ 32 in
  if z <? 2 ^ 31 then z else z - 2 ^ 32.

(** The integer part of a [double], rounded toward zero; [None] on NaN and
    infinities. *)
Definition trunc (d : double) : option Z :=
  match d with
  | S754_zero _ => Some 0
  | S754_finite s m e =>
    let a := match e with
             | Zneg p => Z.pos m / 2 ^ Z.pos p
             | _ => Z.pos m * 2 ^ e
             end in
    Some (if s then - a else a)
  | _ => None
  end.

(** [static_cast<int>(d)]: truncation; undefined behaviour ([None]) when the
    truncated value is not representable in [int]. *)
Definition double_to_int (d : double) : option Z :=
  match trunc d with
  | Some z => if (INT_MIN <=? z) && (z <=? INT_MAX) then Some z else None
  | None => None
  end.

(** [std::floor], [std::ceil], [std::round] (halves away from zero). *)
Definition round_with (pick : bool -> Z -> Z -> Z -> Z) (d : double) : double :=
  match d with
  | S754_finite s m (Zneg p) =>
    let q := Z.pos m / 2 ^ Z.pos p in
    let r := Z.pos m mod 2 ^ Z.pos p in
    let a := pick s q r (2 ^ Z.pos p) in
    if a =? 0 then S754_zero s
    else binary_normalize prec emax (if s then - a else a) 0 false
  | _ => d
  end.

Definition floor : double -> double :=
  round_with (fun s q r _ => if s && negb (r =? 0) then q + 1 else q).
Definition ceil : double -> double :=
  round_with (fun s q r _ => if negb s && negb (r =? 0) then q + 1 else q).
Definition round : double -> double :=
  round_with (fun _ q r den => if den <=? 2 * r then q + 1 else q).

Definition digits (n : Z) : string :=
  NilZero.string_of_uint (N.to_uint (Z.to_N n)).

Fixpoint zeros (n : nat) : string :=
  match n with O => EmptyString | S n' => String "0" (zeros n') end.

(** [std::to_string(double)], i.e. [printf("%f")]: six decimals, the exact
    value rounded to nearest, ties to even.  The model of [double] has one
    NaN, without a sign bit: its text here is "nan", where [printf] writes
    "-nan" for a NaN whose sign bit is set.  The theorems that depend on the
    text of a number exclude NaN. *)
Definition to_string_double (d : double) : string :=
  match d with
  | S754_nan => "nan"
  | S754_infinity s => if s then "-inf" else "inf"
  | S754_zero s => if s then "-0.000000" else "0.000000"
  | S754_finite s m e =>
    let n :=
      match e with
      | Zneg p =>
        let num := Z.pos m * 10 ^ 6 in
        let den := 2 ^ Z.pos p in
        let q := num / den in
        let r := num mod den in
        match 2 * r ?= den with
        | Lt => q
        | Gt => q + 1
        | Eq => if Z.even q then q else q + 1
        end
      | _ => Z.pos m * 2 ^ e * 10 ^ 6
      end in
    let frac := digits (n mod 10 ^ 6) in
    (if s then "-" else "") +:+ digits (n / 10 ^ 6) +:+ "."
      +:+ zeros (6 - String.length frac) +:+ frac
  end.

(** [std::to_string(int)] *)
Definition to_string_int (z : Z) : string :=
  if z <? 0 then "-" +:+ digits (- z) else digits z.

(** ** [std::stod]

    The conversion of the C++ standard library ([strtod] in the "C" locale):
    leading white space is skipped, an optional sign is read, then the longest
    prefix that is a decimal or hexadecimal floating constant, "inf",
    "infinity" or "nan" (any case).  The result is [None] when the function
    throws: [std::invalid_argument] if no conversion can be performed,
    [std::out_of_range] if [strtod] reports a range error ([ERANGE]): the
    value overflows, or it underflows and the result is not exact. *)

Module Stod.

Definition code (c : ascii) : Z := Z.of_nat (nat_of_ascii c).

Definition isspace (c : ascii) : bool :=
  (code c =? 32) || ((9 <=? code c) && (code c <=? 13)).

Definition tolower (c : ascii) : ascii :=
  if (65 <=? code c) && (code c <=? 90)
  then ascii_of_nat (nat_of_ascii c + 32) else c.

Definition toupper (c : ascii) : ascii :=
  if (97 <=? code c) && (code c <=? 122)
  then ascii_of_nat (nat_of_ascii c - 32) else c.

Definition digit_val (c : ascii) : option Z :=
  if (48 <=? code c) && (code c <=? 57) then Some (code c - 48) else None.

Definition hex_val (c : ascii) : option Z :=
  match digit_val c with
  | Some d => Some d
  | None =>
    let l := code (tolower c) in
    if (97 <=? l) && (l <=? 102) then Some (l - 87) else None
  end.

Fixpoint skip_space (s : string) : string :=
  match s with
  | String c s' => if isspace c then skip_space s' else s
  | EmptyString => s
  end.

(** Reads digits in base [base]: the value accumulated, the number of
    digits read and the rest of the text. *)
Fixpoint read_digits (val : ascii -> option Z) (base : Z)
         (acc : Z) (n : Z) (s : string) : Z * Z * string :=
  match s with
  | String c s' =>
    match val c with
    | Some d => read_digits val base (acc * base + d) (n + 1) s'
    | None => (acc, n, s)
    end
  | EmptyString => (acc, n, s)
  end.

(** Integer part, optional point and fraction: the digits as one integer,
    the number of digits, the number of those after the point, the rest. *)
Definition read_mantissa (val : ascii -> option Z) (base : Z) (s : string)
  : Z * Z * Z * string :=
  let '(m1, n1, r1) := read_digits val base 0 0 s in
  match r1 with
  | String "." r1' =>
    let '(m2, n2, r2) := read_digits val base m1 0 r1' in
    if n1 + n2 =? 0 then (m1, 0, 0, r1) else (m2, n1 + n2, n2, r2)
  | _ => (m1, n1, 0, r1)
  end.

(** An exponent part introduced by [marker]; 0 when there is none. *)
Definition read_exponent (marker : ascii) (s : string) : Z :=
  match s with
  | String c s' =>
    if Ascii.eqb (tolower c) marker then
      let '(neg, s'') :=
        match s' with
        | String "-" t => (true, t)
        | String "+" t => (false, t)
        | _ => (false, s')
        end in
      let '(e, n, _) := read_digits digit_val 10 0 0 s'' in
      if n =? 0 then 0 else if neg then - e else e
    else 0
  | EmptyString => 0
  end.

Fixpoint starts_with_ci (p s : string) : bool :=
  match p, s with
  | EmptyString, _ => true
  | String a p', String b s' => Ascii.eqb a (tolower b) && starts_with_ci p' s'
  | String _ _, EmptyString => false
  end.

(** The value [m * 10 ^ e], correctly rounded. *)
Definition decimal_value (neg : bool) (m e : Z) : double :=
  match m with
  | Z0 => S754_zero neg
  | Zpos p =>
    match e with
    | Zneg k =>
      let '(q, e', l) := SFdiv_core_binary prec emax (Z.pos p) 0 (10 ^ Z.pos k) 0 in
      binary_round_aux prec emax neg q e' l
    | _ => binary_normalize prec emax
             (if neg then - (m * 10 ^ e) else m * 10 ^ e) 0 false
    end
  | Zneg _ => S754_nan
  end.

(** The value [m * 2 ^ e], correctly rounded. *)
Definition binary_value (neg : bool) (m e : Z) : double :=
  match m with
  | Z0 => S754_zero neg
  | _ => binary_normalize prec emax (if neg then - m else m) e false
  end.

(** The exact value [m * base ^ e] as a fraction. *)
Definition scaled (m base e : Z) : Z * Z :=
  match e with
  | Zneg k => (m, base ^ Z.pos k)
  | _ => (m * base ^ e, 1)
  end.

(** The value [num / den] is tiny: rounded to 53 bits with an unbounded
    exponent it is below the least normal number 2^-1022, that is, it is
    below 2^-1022 - 2^-1076. *)
Definition tiny (num den : Z) : bool :=
  num * 2 ^ 1076 <? (2 ^ 54 - 1) * den.

(** The [double] is the value [num / den]. *)
Definition exact (d : double) (num den : Z) : bool :=
  match d with
  | S754_zero _ => num =? 0
  | S754_finite _ m (Zneg p) => Z.pos m * den =? num * 2 ^ Z.pos p
  | S754_finite _ m e => Z.pos m * 2 ^ e * den =? num
  | _ => false
  end.

(** Range errors, for the magnitude [num / den] and its rounding [d]:
    [strtod] sets [ERANGE] when the result overflows, and when the value is
    not zero, is tiny and the result is not exact. *)
Definition in_range (value : Z * Z) (d : double) : option double :=
  let '(num, den) := value in
  match d with
  | S754_infinity _ => None
  | _ =>
    if (0 <? num) && tiny num den && negb (exact d num den) then None
    else Some d
  end.

Definition stod (str : string) : option double :=
  let s := skip_space str in
  let '(neg, s) :=
    match s with
    | String "-" t => (true, t)
    | String "+" t => (false, t)
    | _ => (false, s)
    end in
  if starts_with_ci "inf" s then Some (S754_infinity neg)
  else if starts_with_ci "nan" s then Some S754_nan
  else
    let decimal :=
      let '(m, n, nfrac, r) := read_mantissa digit_val 10 s in
      if n =? 0 then None
      else
        let e := read_exponent "e" r - nfrac in
        in_range (scaled m 10 e) (decimal_value neg m e) in
    if starts_with_ci "0x" s then
      let '(m, n, nfrac, r) :=
        read_mantissa hex_val 16 (String.substring 2 (String.length s) s) in
      if n =? 0 then decimal
      else
        let e := read_exponent "p" r - 4 * nfrac in
        in_range (scaled m 2 e) (binary_value neg m e)
    else decimal.

End Stod.

(** ** [Interpreter::toNumber] and [Interpreter::toString] *)

(** The [catch (...)] around [std::stod] turns every failure into [0.0]. *)
Definition toNumber (v : Value) : double :=
  match v with
  | VNum d => d
  | VStr s =>
    match Stod.stod s with
    | Some d => d
    | None => zero
    end
  end.

(** [s.find_last_not_of('0')]: the text up to and including the last
    character that is not '0' (empty when there is none). *)
Fixpoint trim_zeros (s : string) : string :=
  match s with
  | EmptyString => EmptyString
  | String c s' =>
    match trim_zeros s' with
    | EmptyString =>
      if Ascii.eqb c "0" then EmptyString else String c EmptyString
    | t => String c t
    end
  end.

(** [if (s.back() == '.') s.pop_back()] *)
Fixpoint drop_final_point (s : string) : string :=
  match s with
  | EmptyString => EmptyString
  | String c EmptyString => if Ascii.eqb c "." then EmptyString else s
  | String c s' => String c (drop_final_point s')
  end.

Definition toString (v : Value) : string :=
  match v with
  | VNum d => drop_final_point (trim_zeros (to_string_double d))
  | VStr s => s
  end.

(** ** The syntax tree

    AST.h is not among the sources; the node classes and their fields are the
    ones Interpreter.cpp reaches through [dynamic_cast].  [ProcSortNode]
    derives from [ProcNode] ([executeProc] casts down to it); the other
    classes are taken to be unrelated. *)
#[local] Unset Elimination Schemes.
Inductive ASTNode :=
(* expressions *)
| NumberNode (value : double)
| StringNode (value : string)
| VariableNode (varName : string)
| FunctionCallNode (functionName : string) (arguments : list ASTNode)
| ArrayElementNode (arrayName : string) (index : ASTNode)
| BinaryOpNode (op : string) (left right : ASTNode)
(* top-level statements *)
| DataStepNode (outputDataSet inputDataSet : string) (statements : list ASTNode)
| OptionsNode (options : list (string * string))
| LibnameNode (libref path : string)
| TitleNode (title : string)
| ProcNode (procName datasetName : string)
| ProcSortNode (inputDataSet outputDataSet : string)
               (byVariables : list string) (whereCondition : option ASTNode)
               (nodupkey duplicates : bool)
(* statements of a DATA step *)
| AssignmentNode (varName : string) (expression : ASTNode)
| IfThenNode (condition : ASTNode) (thenStatements : list ASTNode)
| IfElseIfNode (condition : ASTNode) (thenStatements : list ASTNode)
               (elseIfBranches : list (ASTNode * list ASTNode))
               (elseStatements : list ASTNode)
| BlockNode (statements : list ASTNode)
| OutputNode
| DropNode (variables : list string)
| KeepNode (variables : list string)
| RetainNode (variables : list string)
| ArrayNode (arrayName : string) (size : Z) (variables : list string)
| DoNode (loopVar : string) (startExpr endExpr : ASTNode)
         (incrementExpr : option ASTNode) (statements : list ASTNode)
| DoLoopNode (condition : option ASTNode) (isWhile : bool) (body : ASTNode)
| EndNode
| MergeStatementNode (datasets : list string)
| ByStatementNode (variables : list string).
#[local] Set Elimination Schemes.

(** The argument of [executeProcMeans]; [execute] never dispatches to it. *)
Record ProcMeansNode := mkProcMeans {
  pm_datasetName : string;
  pm_varNames : list string
}.

(** ** Log and listing sinks

    A call [logger.info(fmt, args...)] of spdlog is recorded as it is made:
    level, format string and arguments.  The sinks hold the records most
    recent first. *)
Inductive Level := info | warn | error.

Inductive LogArg :=
| AStr (s : string)
| ANum (d : double)
| AInt (z : Z).

Record LogRecord := mkLog {
  lvl : Level;
  fmt : string;
  args : list LogArg
}.

(** ** The interpreter state *)

(** [DataEnvironment].  DataEnvironment.h is not among the sources; the
    fields are the ones Interpreter.cpp uses.  Datasets are held by
    [shared_ptr] and reached through the catalog [dataSets]: a pointer to a
    dataset is modelled by its key, so that two pointers to one dataset see
    the same rows.  [currentDataSet] is the key behind
    [getCurrentDataSet()]. *)
Record DataEnvironment := mkEnv {
  dataSets : gmap string DataSet;
  currentRow : Row;
  variables : gmap string Value;
  options : gmap string string;
  librefs : gmap string string;
  title : string;
  currentDataSet : string
}.

(** The members of [Interpreter]. *)
Record Interpreter := mkInterp {
  env : DataEnvironment;
  arrays : gmap string (list string);
  byVariables : list string;
  retainVars : list string;
  loopStack : list (ASTNode * nat);
  logLogger : list LogRecord;
  lstLogger : list LogRecord
}.

Definition with_env (f : DataEnvironment -> DataEnvironment) (st : Interpreter) :=
  mkInterp (f st.(env)) st.(arrays) st.(byVariables) st.(retainVars)
           st.(loopStack) st.(logLogger) st.(lstLogger).
Definition with_arrays (f : gmap string (list string) -> gmap string (list string))
           (st : Interpreter) :=
  mkInterp st.(env) (f st.(arrays)) st.(byVariables) st.(retainVars)
           st.(loopStack) st.(logLogger) st.(lstLogger).
Definition with_byVariables (l : list string) (st : Interpreter) :=
  mkInterp st.(env) st.(arrays) l st.(retainVars)
           st.(loopStack) st.(logLogger) st.(lstLogger).
Definition with_retainVars (f : list string -> list string) (st : Interpreter) :=
  mkInterp st.(env) st.(arrays) st.(byVariables) (f st.(retainVars))
           st.(loopStack) st.(logLogger) st.(lstLogger).
Definition with_loopStack (f : list (ASTNode * nat) -> list (ASTNode * nat))
           (st : Interpreter) :=
  mkInterp st.(env) st.(arrays) st.(byVariables) st.(retainVars)
           (f st.(loopStack)) st.(logLogger) st.(lstLogger).

(** [logLogger.<level>(fmt, args...)] and [lstLogger.info(fmt, args...)] *)
Definition log (l : Level) (f : string) (a : list LogArg) (st : Interpreter) :=
  mkInterp st.(env) st.(arrays) st.(byVariables) st.(retainVars)
           st.(loopStack) (mkLog l f a :: st.(logLogger)) st.(lstLogger).
Definition lst (f : string) (a : list LogArg) (st : Interpreter) :=
  mkInterp st.(env) st.(arrays) st.(byVariables) st.(retainVars)
           st.(loopStack) st.(logLogger) (mkLog info f a :: st.(lstLogger)).

Definition with_dataSets (f : gmap string DataSet -> gmap string DataSet)
           (e : DataEnvironment) :=
  mkEnv (f e.(dataSets)) e.(currentRow) e.(variables) e.(options) e.(librefs)
        e.(title) e.(currentDataSet).
Definition with_currentRow (f : Row -> Row) (e : DataEnvironment) :=
  mkEnv e.(dataSets) (f e.(currentRow)) e.(variables) e.(options) e.(librefs)
        e.(title) e.(currentDataSet).
Definition with_variables (f : gmap string Value -> gmap string Value)
           (e : DataEnvironment) :=
  mkEnv e.(dataSets) e.(currentRow) (f e.(variables)) e.(options) e.(librefs)
        e.(title) e.(currentDataSet).

(** [env.setOption], [env.setLibref], [env.setTitle]: the setters of the
    fields of the same names. *)
Definition setOption (k v : string) (e : DataEnvironment) :=
  mkEnv e.(dataSets) e.(currentRow) e.(variables) (<[k := v]> e.(options))
        e.(librefs) e.(title) e.(currentDataSet).
Definition setLibref (l path : string) (e : DataEnvironment) :=
  mkEnv e.(dataSets) e.(currentRow) e.(variables) e.(options)
        (<[l := path]> e.(librefs)) e.(title) e.(currentDataSet).
Definition setTitle (t : string) (e : DataEnvironment) :=
  mkEnv e.(dataSets) e.(currentRow) e.(variables) e.(options) e.(librefs)
        t e.(currentDataSet).

(** [DataEnvironment::setVariable] is not among the sources.  The notes that
    accompany the interpreter describe the assignment [a = 10;] as
    [env.currentRow.columns["a"] = 10.0;], and that is the model. *)
Definition setVariable (k : string) (v : Value) (e : DataEnvironment) :=
  with_currentRow (row_set k v) e.

(** [DataEnvironment::resolveLibref] and [getOrCreateDataset], as given with
    the DATA-step notes: a missing libref defaults to WORK, and a dataset that
    does not exist yet is created empty under its full name.  The result is
    the key of the dataset and the environment holding it. *)
Definition resolveLibref (libref datasetName : string) : string :=
  if String.eqb libref "" then "WORK." +:+ datasetName
  else libref +:+ "." +:+ datasetName.

Definition getOrCreateDataset (libref datasetName : string)
           (e : DataEnvironment) : string * DataEnvironment :=
  let fullName := resolveLibref libref datasetName in
  match e.(dataSets) !! fullName with
  | Some _ => (fullName, e)
  | None => (fullName, with_dataSets (<[fullName := mkDataSet fullName [] []]>) e)
  end.

(** Update of the dataset behind a pointer. *)
Definition update_dataset (key : string) (f : DataSet -> DataSet)
           (e : DataEnvironment) : DataEnvironment :=
  with_dataSets (fun m => match m !! key with
                          | Some ds => <[key := f ds]> m
                          | None => m
                          end) e.

Definition rows_of (key : string) (e : DataEnvironment) : list Row :=
  match e.(dataSets) !! key with
  | Some ds => ds.(ds_rows)
  | None => []
  end.

(** The environment [e'] is [e] with, possibly, datasets created empty: every
    dataset of [e] is in [e'] as it was, a dataset of [e'] that [e] does not
    have has no rows, and nothing else differs. *)
Definition created_only (e e' : DataEnvironment) : Prop :=
  (forall key ds, e.(dataSets) !! key = Some ds -> e'.(dataSets) !! key = Some ds) /\
  (forall key ds, e'.(dataSets) !! key = Some ds -> e.(dataSets) !! key = None ->
                  ds.(ds_rows) = []) /\
  e'.(currentRow) = e.(currentRow) /\
  e'.(variables) = e.(variables) /\
  e'.(currentDataSet) = e.(currentDataSet).

(** ** Outcomes of execution *)

(** The exceptions the interpreter can raise: [std::runtime_error], thrown by
    the interpreter itself, and [std::bad_variant_access], thrown by
    [std::get<std::string>] on a numeric value. *)
Inductive Exception :=
| runtime_error (what : string)
| bad_variant_access.

(** An execution returns normally, throws, has undefined behaviour (an
    out-of-range [static_cast<int>], an index outside a vector), or is still
    running when the model's fuel is used up. *)
Inductive Outcome (A : Type) :=
| Normal (a : A) (st : Interpreter)
| Throw (e : Exception) (st : Interpreter)
| Undefined
| OutOfFuel (st : Interpreter).

Arguments Normal {A} a st.
Arguments Throw {A} e st.
Arguments Undefined {A}.
Arguments OutOfFuel {A} st.

(** Computations of the interpreter: functions of its state. *)
Definition M (A : Type) : Type := Interpreter -> Outcome A.

Definition ret {A : Type} (a : A) : M A := fun st => Normal a st.
Definition throw {A : Type} (e : Exception) : M A := fun st => Throw e st.
Definition undefined {A : Type} : M A := fun _ => Undefined.

Definition bind {A B : Type} (c : M A) (k : A -> M B) : M B :=
  fun st =>
    match c st with
    | Normal a st' => k a st'
    | Throw e st' => Throw e st'
    | Undefined => Undefined
    | OutOfFuel st' => OutOfFuel st'
    end.

Notation "'let*' x ':=' c 'in' k" :=
  (bind c (fun x => k))
  (at level 10, x pattern, c at level 100, k at level 200, only parsing).

(** A state change, and a read of the state. *)
Definition modify (f : Interpreter -> Interpreter) : M unit :=
  fun st => Normal tt (f st).
Definition gets {A : Type} (f : Interpreter -> A) : M A :=
  fun st => Normal (f st) st.
Definition out_of_fuel {A : Type} : M A := fun st => OutOfFuel st.

(** [for (const auto& x : l) f(x);] *)
Fixpoint forM_ {A : Type} (l : list A) (f : A -> M unit) : M unit :=
  match l with
  | [] => ret tt
  | x :: l' => let* _ := f x in forM_ l' f
  end.

(** [logLogger.<level>(...)] and [lstLogger.info(...)] as computations. *)
Definition logM (l : Level) (f : string) (a : list LogArg) : M unit :=
  modify (log l f a).
Definition lstM (f : string) (a : list LogArg) : M unit :=
  modify (lst f a).

(** Reads and updates of the environment. *)
Definition getsEnv {A : Type} (f : DataEnvironment -> A) : M A :=
  gets (fun st => f st.(env)).
Definition modifyEnv (f : DataEnvironment -> DataEnvironment) : M unit :=
  modify (with_env f).

(** [env.getOrCreateDataset(libref, name)] as a computation: the key of the
    dataset. *)
Definition getOrCreateDatasetM (libref datasetName : string) : M string :=
  fun st =>
    let '(key, e) := getOrCreateDataset libref datasetName st.(env) in
    Normal key (with_env (fun _ => e) st).

Definition tab : string := String (ascii_of_nat 9) EmptyString.

(** ** Sorting and merging *)

(** Modelled from the spec: [Sorter::sortDataset] (Sorter.h is absent) is an
    "in-place dataset sort by BY variables", "stable, ascending".  Rows are
    compared on the BY variables in turn, numbers by [<], strings in
    dictionary order; values that cannot be compared leave the order alone. *)
Definition value_lt (a b : option Value) : bool :=
  match a, b with
  | Some (VNum x), Some (VNum y) => ltb x y
  | Some (VStr x), Some (VStr y) => String.ltb x y
  | _, _ => false
  end.

Fixpoint row_lt (byVars : list string) (r1 r2 : Row) : bool :=
  match byVars with
  | [] => false
  | v :: byVars' =>
    let a := row_find v r1 in
    let b := row_find v r2 in
    if value_lt a b then true
    else if value_lt b a then false
    else row_lt byVars' r1 r2
  end.

Fixpoint insert_row (byVars : list string) (r : Row) (sorted : list Row)
  : list Row :=
  match sorted with
  | [] => [r]
  | r' :: t =>
    if row_lt byVars r r' then r :: sorted else r' :: insert_row byVars r t
  end.

Definition sortRows (byVars : list string) (rows : list Row) : list Row :=
  fold_left (fun acc r => insert_row byVars r acc) rows [].

Definition sortDataset (key : string) (byVars : list string) : M unit :=
  modifyEnv (update_dataset key (fun ds => set_rows (sortRows byVars ds.(ds_rows)) ds)).

(** The BY values of a row, as [executeMerge] reads them: 0.0 for a column
    that is missing or holds a string. *)
Definition byValues (byVars : list string) (row : Row) : list double :=
  map (fun var => match row_find var row with
                  | Some (VNum d) => d
                  | _ => zero
                  end) byVars.

(** One column of a matched row goes into the merged row: BY variables are
    overwritten, a new variable is added, and a variable already present is
    stored under the name of the first column of its row, "_" and its own
    name. *)
Definition mergeColumn (byVars : list string) (prefix : string)
           (mergedRow : Row) (col : string * Value) : Row :=
  let '(k, v) := col in
  if mem k byVars then row_set k v mergedRow
  else
    match row_find k mergedRow with
    | None => row_set k v mergedRow
    | Some _ => row_set (prefix +:+ "_" +:+ k) v mergedRow
    end.

Definition mergeRow (byVars : list string) (mergedRow : Row) (row : Row) : Row :=
  match row with
  | [] => mergedRow
  | (first, _) :: _ => fold_left (mergeColumn byVars first) row mergedRow
  end.

(** "Merge the matched rows into a single row" *)
Definition mergeMatchedRows (byVars : list string) (matchedRows : list Row)
  : Row :=
  fold_left (mergeRow byVars) matchedRows [].

(** A variable is not one of the names under which the columns of a row are
    stored on a conflict. *)
Definition rename_free (v : string) (row : Row) : Prop :=
  match row with
  | [] => True
  | (first, _) :: _ =>
    forall k, In k (row_keys row) -> v <> first +:+ "_" +:+ k
  end.

(** [ds->rows[i]], if [i < ds->rows.size()] *)
Definition row_of (key : string) (i : nat) : M (option Row) :=
  getsEnv (fun e => rows_of key e !! i).

(** [ds->rows.push_back(row)] *)
Definition push_row (key : string) (row : Row) : M unit :=
  modifyEnv (update_dataset key (fun ds => set_rows (ds.(ds_rows) ++ [row]) ds)).

(** The dataset behind a pointer; dereferencing a pointer to no dataset is
    undefined. *)
Definition deref (key : string) : M DataSet :=
  let* found := getsEnv (fun e => e.(dataSets) !! key) in
  match found with
  | Some ds => ret ds
  | None => undefined
  end.

(** The consistency check on the current BY values.  A dataset that has no
    current row has an empty vector of values, and indexing it is undefined. *)
Definition checkByValues (byVars : list string)
           (currentBYValues : list (option (list double))) : M unit :=
  match currentBYValues with
  | [] => ret tt
  | first :: others =>
    forM_ (imap (fun j var => (j, var)) byVars) (fun '(j, var) =>
      match first ≫= (.!! j) with
      | None => undefined
      | Some referenceVal =>
        forM_ others (fun cur =>
          match cur ≫= (.!! j) with
          | None => undefined
          | Some x =>
            if neb x referenceVal then
              throw (runtime_error
                       ("Data type mismatch for BY variable '" +:+ var
                        +:+ "' across datasets."))
            else ret tt
          end)
      end)
  end.

(** "Determine the minimum BY values across datasets" *)
Definition minByValues (currentBYValues : list (list double)) : list double :=
  match currentBYValues with
  | [] => []
  | first :: others =>
    fold_left (fun minBY cur =>
                 zip_with (fun m x => if ltb x m then x else m) minBY cur)
              others first
  end.

(** [while (it < ds->rows.size()) { out->rows.push_back(ds->rows[it]); it++; }] *)
Fixpoint drainRows (fuel : nat) (key : string) (it : nat) (out : string)
  : M unit :=
  match fuel with
  | O => out_of_fuel
  | S fuel' =>
    let* r := row_of key it in
    match r with
    | None => ret tt
    | Some row => let* _ := push_row out row in drainRows fuel' key (S it) out
    end
  end.

(** The [while (continueMerging)] loop of [executeMerge]. *)
Fixpoint mergeLoop (fuel : nat) (byVars : list string)
         (mergeDatasets : list string) (iterators : list nat) (out : string)
  : M unit :=
  match fuel with
  | O => out_of_fuel
  | S fuel' =>
    let* current :=
      getsEnv (fun e => zip_with (fun key it => rows_of key e !! it)
                                 mergeDatasets iterators) in
    let currentBYValues := map (fmap (byValues byVars)) current in
    if forallb (fun r => match r with None => true | Some _ => false end) current
    then ret tt
    else
      let* _ := checkByValues byVars currentBYValues in
      let minBYValues :=
        minByValues (map (default []) currentBYValues) in
      let matches (cur : option Row) : bool :=
        match cur with
        | Some row =>
          forallb (fun '(x, m) => negb (neb x m))
                  (zip (byValues byVars row) minBYValues)
        | None => false
        end in
      let matchedRows := omap (fun cur => if matches cur then cur else None)
                              current in
      let iterators :=
        zip_with (fun it cur => if matches cur then S it else it)
                 iterators current in
      let* allDatasetsHaveRows :=
        getsEnv (fun e =>
          forallb (fun '(key, it) => (it <? length (rows_of key e))%nat)
                  (zip mergeDatasets iterators)) in
      if negb allDatasetsHaveRows then
        forM_ (zip mergeDatasets iterators) (fun '(key, it) =>
          drainRows fuel' key it out)
      else
        let* _ := push_row out (mergeMatchedRows byVars matchedRows) in
        mergeLoop fuel' byVars mergeDatasets iterators out
  end.

(** "Ensure all datasets exist": the pointers to the datasets to merge. *)
Fixpoint resolveDatasets (names : list string) : M (list string) :=
  match names with
  | [] => ret []
  | dsName :: names' =>
    let* key := getOrCreateDatasetM dsName dsName in
    let* keys := resolveDatasets names' in
    ret (key :: keys)
  end.

(** [Interpreter::executeMerge] *)
Definition executeMerge (fuel : nat) (datasets : list string) : M unit :=
  let* _ := logM info "Executing MERGE statement with datasets:" [] in
  let* _ := forM_ datasets (fun ds => logM info " - {}" [AStr ds]) in
  let* mergeDatasets := resolveDatasets datasets in
  let* byVars := gets byVariables in
  match byVars with
  | [] =>
    throw (runtime_error "MERGE statement requires a preceding BY statement.")
  | _ =>
    let* _ :=
      forM_ mergeDatasets (fun key =>
        let* _ := sortDataset key byVars in
        let* ds := deref key in
        logM info "Dataset '{}' sorted by BY variables." [AStr ds.(ds_name)]) in
    let iterators := map (fun _ => O) mergeDatasets in
    let* out := getsEnv currentDataSet in
    let* _ := deref out in
    let* _ := modifyEnv (update_dataset out (set_rows [])) in
    let* _ := mergeLoop fuel byVars mergeDatasets iterators out in
    let* ds := deref out in
    logM info
      "MERGE statement executed successfully. Output dataset '{}' has {} observations."
      [AStr ds.(ds_name); AInt (Z.of_nat (length ds.(ds_rows)))]
  end.

(** ** Listings *)

(** The text between the elements of a line: [if (i < size - 1) s += sep]. *)
Fixpoint join (sep : string) (l : list string) : string :=
  match l with
  | [] => ""
  | [x] => x
  | x :: l' => x +:+ sep +:+ join sep l'
  end.

(** "Print column headers" and "Print rows", as [executeDataStep] and PROC
    PRINT do. *)
Definition printDataset (ds : DataSet) : M unit :=
  let* _ := lstM "{}" [AStr (join tab ds.(ds_columnOrder))] in
  forM_ (imap (fun i row => (i, row)) ds.(ds_rows)) (fun '(i, row) =>
    let cells :=
      map (fun col => match row_find col row with
                      | Some v => toString v
                      | None => "."
                      end) ds.(ds_columnOrder) in
    lstM "{}" [AStr (to_string_int (Z.of_nat (S i)) +:+ tab +:+ join tab cells)]).

(** [name.find('.')] and the two [substr] around it. *)
Fixpoint split_dot (s : string) : option (string * string) :=
  match s with
  | EmptyString => None
  | String c s' =>
    if Ascii.eqb c "." then Some (EmptyString, s')
    else match split_dot s' with
         | Some (l, r) => Some (String c l, r)
         | None => None
         end
  end.

(** The key of a row for NODUPKEY and DUPLICATES. *)
Definition dupKey (byVars : list string) (row : Row) : string :=
  fold_left (fun key var =>
               match row_find var row with
               | Some (VNum d) => key +:+ to_string_double d +:+ "_"
               | Some (VStr t) => key +:+ t +:+ "_"
               | None => key +:+ "NA_"
               end) byVars "".

(** The maps [sums] and [counts] of [executeProcMeans]: their initialisation
    for the variables of the VAR list, and the update for a variable and for
    a row. *)
Definition meansInit (varNames : list string)
  : gmap string double * gmap string Z :=
  fold_left (fun '(sums, counts) var =>
               (<[var := zero]> sums, <[var := 0]> counts))
            varNames (∅, ∅).

Definition meansVar (row : Row) (acc : gmap string double * gmap string Z)
           (var : string) : gmap string double * gmap string Z :=
  let '(sums, counts) := acc in
  match row_find var row with
  | Some (VNum d) =>
    (<[var := add (default zero (sums !! var)) d]> sums,
     <[var := default 0 (counts !! var) + 1]> counts)
  | _ => (sums, counts)
  end.

Definition meansRow (varNames : list string)
           (acc : gmap string double * gmap string Z) (row : Row)
  : gmap string double * gmap string Z :=
  fold_left (meansVar row) varNames acc.

(** The numeric values of a variable in the rows of a dataset, in row
    order, and the line PROC MEANS writes for the variable: its name and the
    mean of those values (their sum, added up in row order, over their
    number), or "." when there is none. *)
Definition numericValues (var : string) (rows : list Row) : list double :=
  omap (fun row => match row_find var row with
                   | Some (VNum d) => Some d
                   | _ => None
                   end) rows.

Definition meanLine (rows : list Row) (var : string) : LogRecord :=
  match numericValues var rows with
  | [] => mkLog info ("{}" +:+ tab +:+ ".") [AStr var]
  | vals =>
    mkLog info ("{}" +:+ tab +:+ "{:.2f}")
          [AStr var;
           ANum (div (fold_left add vals zero) (of_Z (Z.of_nat (length vals))))]
  end.

(** [MAX_ITERATIONS] of [executeDoLoop] *)
Definition MAX_ITERATIONS : nat := 1000.

(** ** What the interpreter takes from its platform

    The functions of <cmath> that are not determined by IEEE 754, the clock
    behind [today()], and the CSV files read by LIBNAME. *)
Class Platform := {
  c_log : double -> double;
  c_log10 : double -> double;
  c_exp : double -> double;
  c_pow : double -> double -> double;
  (** [localtime(time(nullptr))]: year, month, day *)
  c_localtime : Z * Z * Z;
  (** [DataEnvironment::loadDatasetFromCSV]: the rows and columns read from
      the file at a path, or the message of the [std::runtime_error] *)
  c_read_csv : string -> (list Row * list string) + string
}.

(** ** Expressions: [Interpreter::evaluate] *)

Definition b2d (b : bool) : double := if b then one else zero.

(** The operator dispatch of the [BinaryOpNode] case. *)
Definition evalBinary (op : string) (l r : double) : M Value :=
  if String.eqb op "+" then ret (VNum (add l r))
  else if String.eqb op "-" then ret (VNum (sub l r))
  else if String.eqb op "*" then ret (VNum (mul l r))
  else if String.eqb op "/" then
    ret (VNum (if neb r zero then div l r else nan))
  else if String.eqb op ">" then ret (VNum (b2d (gtb l r)))
  else if String.eqb op "<" then ret (VNum (b2d (ltb l r)))
  else if String.eqb op ">=" then ret (VNum (b2d (geb l r)))
  else if String.eqb op "<=" then ret (VNum (b2d (leb l r)))
  else if String.eqb op "==" then ret (VNum (b2d (eqb l r)))
  else if String.eqb op "!=" then ret (VNum (b2d (neb l r)))
  else if String.eqb op "and" then
    ret (VNum (b2d (neb l zero && neb r zero)))
  else if String.eqb op "or" then
    ret (VNum (b2d (neb l zero || neb r zero)))
  else throw (runtime_error ("Unsupported binary operator: " +:+ op)).

(** [Interpreter::getArrayElement]; [index] is an [int]. *)
Definition getArrayElement (arrayName : string) (index : Z) : M Value :=
  fun st =>
  match st.(arrays) !! arrayName with
  | None => Throw (runtime_error ("Undefined array: " +:+ arrayName)) st
  | Some vars =>
    if (index <? 1) || (int_of_size (length vars) <? index) then
      Throw (runtime_error
               ("Array index out of bounds for array: " +:+ arrayName)) st
    else
      match vars !! Z.to_nat (index - 1) with
      | None => Undefined
      | Some varName =>
        match row_find varName st.(env).(currentRow) with
        | Some v => Normal v st
        | None => Normal (VNum zero) st
        end
      end
  end.

(** [Interpreter::setArrayElement] *)
Definition setArrayElement (arrayName : string) (index : Z) (value : Value)
  : M unit :=
  fun st =>
  match st.(arrays) !! arrayName with
  | None => Throw (runtime_error ("Undefined array: " +:+ arrayName)) st
  | Some vars =>
    if (index <? 1) || (int_of_size (length vars) <? index) then
      Throw (runtime_error
               ("Array index out of bounds for array: " +:+ arrayName)) st
    else
      match vars !! Z.to_nat (index - 1) with
      | None => Undefined
      | Some varName =>
        Normal tt (with_env (with_currentRow (row_set varName value)) st)
      end
  end.

(** [std::get<std::string>(v)] *)
Definition get_string (v : Value) : M string :=
  match v with
  | VStr s => ret s
  | VNum _ => throw bad_variant_access
  end.

(** [static_cast<int>(d)] *)
Definition cast_int (d : double) : M Z :=
  match double_to_int d with
  | Some z => ret z
  | None => undefined
  end.

(** An [int] result; signed overflow is undefined. *)
Definition int_result (z : Z) : M Z :=
  if (INT_MIN <=? z) && (z <=? INT_MAX) then ret z else undefined.

(** Conversion to [int] of a [size_t] value given modulo 2^64. *)
Definition int_wrap (z : Z) : Z := (z + 2 ^ 31) mod 2 ^ 32 - 2 ^ 31.

Definition is_blank (c : ascii) : bool :=
  let n := Stod.code c in (n =? 32) || (n =? 9) || (n =? 13) || (n =? 10).

(** [str.substr(0, str.find_last_not_of(" \t\r\n") + 1)], empty when the
    text is all blanks. *)
Fixpoint strip_right (s : string) : string :=
  match s with
  | EmptyString => EmptyString
  | String c s' =>
    match strip_right s' with
    | EmptyString => if is_blank c then EmptyString else String c EmptyString
    | t => String c t
    end
  end.

(** [str.substr(str.find_first_not_of(" \t\r\n"))] *)
Fixpoint strip_left (s : string) : string :=
  match s with
  | EmptyString => EmptyString
  | String c s' => if is_blank c then strip_left s' else s
  end.

Fixpoint map_string (f : ascii -> ascii) (s : string) : string :=
  match s with
  | EmptyString => EmptyString
  | String c s' => String (f c) (map_string f s')
  end.

Section Evaluate.

Context `{Platform}.

(** [Interpreter::evaluateFunctionCall]; [ev] is [evaluate]. *)
Definition evaluateFunctionCall (ev : ASTNode -> M Value)
           (functionName : string) (arguments : list ASTNode) : M Value :=
  let func := map_string Stod.tolower functionName in
  let arity_error msg : M Value := throw (runtime_error msg) in
  let num (a : ASTNode) : M double := let* v := ev a in ret (toNumber v) in
  let str (a : ASTNode) : M string := let* v := ev a in get_string v in
  if String.eqb func "substr" then
    match arguments with
    | a0 :: a1 :: rest =>
      match rest with
      | [] | [_] =>
        let* s := str a0 in
        let* pos := num a1 in
        let* p := cast_int pos in
        let* position := int_result (p - 1) in
        let* length :=
          match rest with
          | [a2] => let* l := num a2 in cast_int l
          | _ => ret (int_wrap (Z.of_nat (String.length s) - position))
          end in
        let len := int_of_size (String.length s) in
        if (position <? 0) || (len <=? position) then ret (VStr "")
        else
          let* sum := int_result (position + length) in
          let length :=
            if len <? sum
            then int_wrap (Z.of_nat (String.length s) - position)
            else length in
          ret (VStr (String.substring
                       (Z.to_nat position)
                       (if length <? 0 then String.length s
                        else Z.to_nat length) s))
      | _ => arity_error "substr function expects 2 or 3 arguments."
      end
    | _ => arity_error "substr function expects 2 or 3 arguments."
    end
  else if String.eqb func "trim" then
    match arguments with
    | [a0] => let* s := str a0 in ret (VStr (strip_right s))
    | _ => arity_error "trim function expects 1 argument."
    end
  else if String.eqb func "left" then
    match arguments with
    | [a0] => let* s := str a0 in ret (VStr (strip_left s))
    | _ => arity_error "left function expects 1 argument."
    end
  else if String.eqb func "right" then
    match arguments with
    | [a0] => let* s := str a0 in ret (VStr (strip_right s))
    | _ => arity_error "right function expects 1 argument."
    end
  else if String.eqb func "upcase" then
    match arguments with
    | [a0] => let* s := str a0 in ret (VStr (map_string Stod.toupper s))
    | _ => arity_error "upcase function expects 1 argument."
    end
  else if String.eqb func "lowcase" then
    match arguments with
    | [a0] => let* s := str a0 in ret (VStr (map_string Stod.tolower s))
    | _ => arity_error "lowcase function expects 1 argument."
    end
  else if String.eqb func "sqrt" then
    match arguments with
    | a0 :: _ =>
      let* argNum := num a0 in
      if ltb argNum zero then
        let* _ := modify (log warn "sqrt() received a negative value. Returning NaN." []) in
        ret (VNum nan)
      else ret (VNum (sqrt argNum))
    | [] => undefined
    end
  else if String.eqb func "abs" then
    match arguments with
    | [a0] => let* x := num a0 in ret (VNum (abs x))
    | _ => arity_error "abs function expects 1 argument."
    end
  else if String.eqb func "log" then
    match arguments with
    | a0 :: _ =>
      let* argNum := num a0 in
      if leb argNum zero then
        let* _ := modify (log warn "log() received a non-positive value. Returning NaN." []) in
        ret (VNum nan)
      else ret (VNum (c_log argNum))
    | [] => undefined
    end
  else if String.eqb func "ceil" then
    match arguments with
    | [a0] => let* x := num a0 in ret (VNum (ceil x))
    | _ => arity_error "ceil function expects 1 argument."
    end
  else if String.eqb func "floor" then
    match arguments with
    | [a0] => let* x := num a0 in ret (VNum (floor x))
    | _ => arity_error "floor function expects 1 argument."
    end
  else if String.eqb func "round" then
    match arguments with
    | a0 :: rest =>
      match rest with
      | [] | [_] =>
        let* x := num a0 in
        let* decimal :=
          match rest with
          | [a1] => let* d := num a1 in cast_int d
          | _ => ret 0
          end in
        let factor := c_pow (of_Z 10) (of_Z decimal) in
        ret (VNum (div (round (mul x factor)) factor))
      | _ => arity_error "round function expects 1 or 2 arguments."
      end
    | [] => arity_error "round function expects 1 or 2 arguments."
    end
  else if String.eqb func "exp" then
    match arguments with
    | [a0] => let* x := num a0 in ret (VNum (c_exp x))
    | _ => arity_error "exp function expects 1 argument."
    end
  else if String.eqb func "log10" then
    match arguments with
    | [a0] =>
      let* x := num a0 in
      if leb x zero then
        throw (runtime_error "log10 function argument must be positive.")
      else ret (VNum (c_log10 x))
    | _ => arity_error "log10 function expects 1 argument."
    end
  else if String.eqb func "today" then
    match arguments with
    | [] =>
      let '(year, month, day) := c_localtime in
      let* date_int := int_result (year * 10000 + month * 100 + day) in
      ret (VNum (of_Z date_int))
    | _ => arity_error "today function expects no arguments."
    end
  else if String.eqb func "datepart" then
    match arguments with
    | [a0] => let* datetime := num a0 in ret (VNum datetime)
    | _ => arity_error "datepart function expects 1 argument."
    end
  else if String.eqb func "timepart" then
    match arguments with
    | [a0] => let* datetime := num a0 in ret (VNum datetime)
    | _ => arity_error "timepart function expects 1 argument."
    end
  else if String.eqb func "intck" then
    match arguments with
    | [a0; a1; a2] =>
      let* interval := str a0 in
      let* start := num a1 in
      let* end_ := num a2 in
      if String.eqb interval "day" then
        let* days := cast_int (sub end_ start) in
        ret (VNum (of_Z days))
      else
        throw (runtime_error
                 ("Unsupported interval in intck function: " +:+ interval))
    | _ => arity_error "intck function expects 3 arguments."
    end
  else if String.eqb func "intnx" then
    match arguments with
    | a0 :: a1 :: a2 :: rest =>
      match rest with
      | [] | [_] =>
        let* interval := str a0 in
        let* start := num a1 in
        let* increment := num a2 in
        let* alignment :=
          match rest with
          | [a3] => str a3
          | _ => ret "beginning"
          end in
        if String.eqb interval "day" then ret (VNum (add start increment))
        else
          throw (runtime_error
                   ("Unsupported interval in intnx function: " +:+ interval))
      | _ => arity_error "intnx function expects 3 or 4 arguments."
      end
    | _ => arity_error "intnx function expects 3 or 4 arguments."
    end
  else throw (runtime_error ("Unsupported function: " +:+ func)).

(** [Interpreter::evaluate].  Statement nodes are not expressions. *)
Fixpoint evaluate (node : ASTNode) {struct node} : M Value :=
  match node with
  | NumberNode value => ret (VNum value)
  | StringNode value => ret (VStr value)
  | VariableNode varName =>
    let* found := gets (fun st => st.(env).(variables) !! varName) in
    match found with
    | Some v => ret v
    | None =>
      let* _ := modify (log warn "Variable '{}' not found. Using missing value."
                            [AStr varName]) in
      ret (VNum nan)
    end
  | FunctionCallNode functionName arguments =>
    evaluateFunctionCall evaluate functionName arguments
  | ArrayElementNode arrayName index =>
    let* v := evaluate index in
    let* i := cast_int (toNumber v) in
    getArrayElement arrayName i
  | BinaryOpNode op lhs rhs =>
    let* leftVal := evaluate lhs in
    let* rightVal := evaluate rhs in
    evalBinary op (toNumber leftVal) (toNumber rightVal)
  | _ =>
    throw (runtime_error "Unsupported expression type during evaluation.")
  end.

(** *** Statements of a DATA step *)

(** [Interpreter::executeAssignment] *)
Definition executeAssignment (varName : string) (expression : ASTNode)
  : M unit :=
  let* val := evaluate expression in
  let* _ := modifyEnv (setVariable varName val) in
  logM info "Assigned {} = {}" [AStr varName; AStr (toString val)].

(** [Interpreter::executeOutput]: the statement only writes to the log; the
    row is added by [executeDataStep]. *)
Definition executeOutput : M unit :=
  logM info
    "OUTPUT statement executed. Current row will be added to the output dataset."
    [].

(** [Interpreter::executeIfThen] *)
Definition executeIfThen (condition : ASTNode) (thenStatements : list ASTNode)
  : M unit :=
  let* cond := evaluate condition in
  let d := toNumber cond in
  let* _ := logM info "Evaluating IF condition: {}" [ANum d] in
  if neb d zero then
    forM_ thenStatements (fun stmt =>
      match stmt with
      | AssignmentNode v e => executeAssignment v e
      | OutputNode => executeOutput
      | _ => throw (runtime_error "Unsupported statement in IF-THEN block.")
      end)
  else ret tt.

(** [Interpreter::executeDrop] *)
Definition executeDrop (variables : list string) : M unit :=
  forM_ variables (fun var =>
    let* _ := modifyEnv (with_currentRow (row_erase var)) in
    logM info "Dropped variable '{}'." [AStr var]).

(** [Interpreter::executeKeep] *)
Definition executeKeep (variables : list string) : M unit :=
  let* currentVars := getsEnv (fun e => row_keys e.(currentRow)) in
  forM_ currentVars (fun var =>
    if mem var variables then ret tt
    else
      let* _ := modifyEnv (with_currentRow (row_erase var)) in
      logM info "Kept variable '{}'; other variables dropped." [AStr var]).

(** [Interpreter::executeRetain]: the names go to the member [retainVars]
    of the interpreter. *)
Definition executeRetain (variables : list string) : M unit :=
  forM_ variables (fun var =>
    let* _ := modify (with_retainVars (fun l => l ++ [var])) in
    logM info "Retained variable '{}'." [AStr var]).

(** [Interpreter::executeArray] *)
Definition executeArray (arrayName : string) (size : Z)
           (variables : list string) : M unit :=
  let* _ := logM info "Executing ARRAY declaration: {}" [AStr arrayName] in
  if negb (size =? int_of_size (length variables)) then
    throw (runtime_error "Array size does not match the number of variables.")
  else
    let* _ := modify (with_arrays (<[arrayName := variables]>)) in
    logM info "Array '{}' with size {} and variables: {}"
         [AStr arrayName; AInt size;
          AStr (fold_left (fun vars var => vars +:+ var +:+ " ") variables "")].

(** [env.currentRow.columns[k]]: a missing key is inserted with a
    value-initialised [Value], the number 0. *)
Definition row_at (k : string) : M Value :=
  let* found := getsEnv (fun e => row_find k e.(currentRow)) in
  match found with
  | Some v => ret v
  | None =>
    let* _ := modifyEnv (with_currentRow (row_set k (VNum zero))) in
    ret (VNum zero)
  end.

(** [while (cond) trip;], at most [n] trips. *)
Fixpoint while_ (n : nat) (cond : M bool) (trip : M unit) : M unit :=
  match n with
  | O => out_of_fuel
  | S n' =>
    let* c := cond in
    if c then let* _ := trip in while_ n' cond trip else ret tt
  end.

(** The statements of the body of an iterative DO loop; [nested] is
    [executeDo] for a loop inside the loop. *)
Definition doBody
           (nested : string -> ASTNode -> ASTNode -> option ASTNode ->
                     list ASTNode -> M unit)
           (statements : list ASTNode) : M unit :=
  forM_ statements (fun stmt =>
    match stmt with
    | AssignmentNode v e => executeAssignment v e
    | IfThenNode c t => executeIfThen c t
    | OutputNode => executeOutput
    | DropNode vars => executeDrop vars
    | KeepNode vars => executeKeep vars
    | RetainNode vars => executeRetain vars
    | ArrayNode a n vars => executeArray a n vars
    | DoNode v s e i b => nested v s e i b
    | _ => throw (runtime_error "Unsupported statement in DO loop.")
    end).

(** "Increment loop variable" *)
Definition doIncrement (loopVar : string) (increment : double) : M unit :=
  let* cur := row_at loopVar in
  let currentVal := add (toNumber cur) increment in
  modifyEnv (with_currentRow (row_set loopVar (VNum currentVal))).

(** The test of the loop: the loop variable holds a number that has not
    passed [end_]. *)
Definition doTest (loopVar : string) (end_ : double)
           (test : double -> double -> bool) : M bool :=
  let* cur := row_at loopVar in
  match cur with
  | VNum d => ret (test d end_)
  | VStr _ => ret false
  end.

(** [Interpreter::executeDo]: the iterative DO loop.  [fuel] bounds the
    trips of each [while] and the nesting of loops. *)
Fixpoint executeDo (fuel : nat) (loopVar : string)
         (startExpr endExpr : ASTNode) (incrementExpr : option ASTNode)
         (statements : list ASTNode) {struct fuel} : M unit :=
  match fuel with
  | O => out_of_fuel
  | S fuel' =>
    let* startVal := evaluate startExpr in
    let* endVal := evaluate endExpr in
    let start := toNumber startVal in
    let end_ := toNumber endVal in
    let* increment :=
      match incrementExpr with
      | Some e => let* incVal := evaluate e in ret (toNumber incVal)
      | None => ret one
      end in
    let* _ := logM info "Starting DO loop: {} = {} to {} by {}"
                   [AStr loopVar; ANum start; ANum end_; ANum increment] in
    let* _ := modifyEnv (with_currentRow (row_set loopVar (VNum start))) in
    let trip : M unit :=
      let* _ := doBody (executeDo fuel') statements in
      doIncrement loopVar increment in
    let* _ :=
      if gtb increment zero then while_ fuel' (doTest loopVar end_ leb) trip
      else if ltb increment zero then
        while_ fuel' (doTest loopVar end_ geb) trip
      else throw (runtime_error "DO loop increment cannot be zero.") in
    let* cur := row_at loopVar in
    logM info "Completed DO loop: {} reached {}"
         [AStr loopVar;
          AStr (match cur with VNum _ => toString cur | VStr _ => "unknown" end)]
  end.

(** *** The DATA step *)

(** The flags of one iteration of the DATA step. *)
Record StepFlags := mkFlags {
  shouldOutput : bool;
  hasDrop : bool;
  hasKeep : bool;
  hasRetain : bool
}.

(** "Execute each statement in the DATA step" *)
Definition executeStepStatement (fuel : nat) (stmt : ASTNode) (f : StepFlags)
  : M StepFlags :=
  match stmt with
  | AssignmentNode v e => let* _ := executeAssignment v e in ret f
  | IfThenNode c t => let* _ := executeIfThen c t in ret f
  | OutputNode =>
    let* _ := executeOutput in
    ret (mkFlags true f.(hasDrop) f.(hasKeep) f.(hasRetain))
  | DropNode vars =>
    let* _ := executeDrop vars in
    ret (mkFlags f.(shouldOutput) true f.(hasKeep) f.(hasRetain))
  | KeepNode vars =>
    let* _ := executeKeep vars in
    ret (mkFlags f.(shouldOutput) f.(hasDrop) true f.(hasRetain))
  | RetainNode vars =>
    let* _ := executeRetain vars in
    ret (mkFlags f.(shouldOutput) f.(hasDrop) f.(hasKeep) true)
  | ArrayNode a n vars => let* _ := executeArray a n vars in ret f
  | DoNode v s e i b => let* _ := executeDo fuel v s e i b in ret f
  | _ => throw (runtime_error "Unsupported statement in DATA step.")
  end.

Fixpoint executeStepStatements (fuel : nat) (stmts : list ASTNode)
         (f : StepFlags) : M StepFlags :=
  match stmts with
  | [] => ret f
  | stmt :: stmts' =>
    let* f' := executeStepStatement fuel stmt f in
    executeStepStatements fuel stmts' f'
  end.

(** "Keep only the variables specified in KEEP" *)
Definition keepOnly (keepVars : list string) : M unit :=
  modifyEnv (with_currentRow
               (List.filter (fun col : string * Value => mem (fst col) keepVars))).

(** One iteration of "Execute each row in the input dataset".  [dropVars],
    [keepVars] and [retainVars] are the local vectors of [executeDataStep]:
    they are cleared at the start of the iteration and nothing fills them
    ([executeRetain] writes to the member of the same name). *)
Definition executeRow (fuel : nat) (inKey outKey outputDataSet : string)
           (statements : list ASTNode) (row : Row) (hasRetainBefore : bool)
  : M bool :=
  let dropVars : list string := [] in
  let keepVars : list string := [] in
  let retainVars : list string := [] in
  let* _ := modifyEnv (with_currentRow (fun _ => row)) in
  let* _ :=
    if hasRetainBefore then
      forM_ retainVars (fun var =>
        let* old := getsEnv (fun e => e.(variables) !! var) in
        match old with
        | Some v => modifyEnv (with_currentRow (row_set var v))
        | None => ret tt
        end)
    else ret tt in
  let* f := executeStepStatements fuel statements
              (mkFlags false false false false) in
  let* _ :=
    if f.(hasDrop) && f.(hasKeep) then keepOnly keepVars
    else if f.(hasKeep) then keepOnly keepVars
    else if f.(hasDrop) then
      forM_ dropVars (fun var => modifyEnv (with_currentRow (row_erase var)))
    else ret tt in
  let* _ :=
    if f.(hasRetain) then
      forM_ retainVars (fun var =>
        let* cur := getsEnv (fun e => row_find var e.(currentRow)) in
        match cur with
        | Some v => modifyEnv (with_variables (<[var := v]>))
        | None =>
          let* old := getsEnv (fun e => e.(variables) !! var) in
          match old with
          | Some v => modifyEnv (with_currentRow (row_set var v))
          | None => ret tt
          end
        end)
    else ret tt in
  let* _ :=
    if f.(shouldOutput) then
      (* adding a row to the dataset whose rows are being iterated
         invalidates the iterators of the loop *)
      if String.eqb inKey outKey then undefined
      else
        let* cur := getsEnv currentRow in
        let* _ := modifyEnv (update_dataset outKey (addRow cur)) in
        logM info "Row outputted to '{}'." [AStr outputDataSet]
    else ret tt in
  ret f.(hasRetain).

Fixpoint executeRows (fuel : nat) (inKey outKey outputDataSet : string)
         (statements : list ASTNode) (rows : list Row) (hasRetain : bool)
  : M unit :=
  match rows with
  | [] => ret tt
  | row :: rows' =>
    let* hasRetain' :=
      executeRow fuel inKey outKey outputDataSet statements row hasRetain in
    executeRows fuel inKey outKey outputDataSet statements rows' hasRetain'
  end.

(** The first MERGE statement of the step, if any. *)
Fixpoint findMerge (stmts : list ASTNode) : option (list string) :=
  match stmts with
  | [] => None
  | MergeStatementNode datasets :: _ => Some datasets
  | _ :: stmts' => findMerge stmts'
  end.

(** [Interpreter::executeDataStep] *)
Definition executeDataStep (fuel : nat) (outputDataSet inputDataSet : string)
           (statements : list ASTNode) : M unit :=
  let* _ := logM info "Executing DATA step: data {}; set {};"
                 [AStr outputDataSet; AStr inputDataSet] in
  let '(outputLibref, outputDataset) :=
    match split_dot outputDataSet with
    | Some (l, d) => (l, d)
    | None => ("", outputDataSet)
    end in
  let '(inputLibref, inputDataset) :=
    match split_dot inputDataSet with
    | Some (l, d) => (l, d)
    | None => ("", inputDataSet)
    end in
  let* inKey := getOrCreateDatasetM inputLibref inputDataset in
  let* outKey := getOrCreateDatasetM outputLibref outputDataset in
  let* _ := modifyEnv (update_dataset outKey (set_name outputDataSet)) in
  let* input := deref inKey in
  let* _ := logM info "Input dataset '{}' has {} observations."
                 [AStr inputDataSet; AInt (Z.of_nat (length input.(ds_rows)))] in
  let* _ := logM info "Output dataset '{}' will store results."
                 [AStr outputDataSet] in
  let* _ :=
    match findMerge statements with
    | Some datasets => executeMerge fuel datasets
    | None => ret tt
    end in
  let* input := deref inKey in
  let* _ := executeRows fuel inKey outKey outputDataSet statements
                        input.(ds_rows) false in
  let* output := deref outKey in
  let* _ := logM info
              "DATA step '{}' executed successfully. Output dataset has {} observations."
              [AStr outputDataSet; AInt (Z.of_nat (length output.(ds_rows)))] in
  let* _ := lstM "SAS Results (Dataset: {}):" [AStr outputDataSet] in
  let* t := getsEnv title in
  let* _ := if String.eqb t "" then ret tt else lstM "Title: {}" [AStr t] in
  printDataset output.

(** *** Global statements and procedures *)

(** [Interpreter::executeOptions] *)
Definition executeOptions (opts : list (string * string)) : M unit :=
  forM_ opts (fun '(k, v) =>
    let* _ := modifyEnv (setOption k v) in
    logM info "Set option {} = {}" [AStr k; AStr v]).

(** [Interpreter::executeLibname].  Modelled from the spec:
    [loadDatasetFromCSV] (DataEnvironment.h is absent) stores the dataset
    read from the file under the libref. *)
Definition executeLibname (libref path : string) : M unit :=
  let* _ := modifyEnv (setLibref libref path) in
  let* _ := logM info "Libname assigned: {} = '{}'" [AStr libref; AStr path] in
  let csvPath := path +:+ "\" +:+ "in.csv" in
  match c_read_csv csvPath with
  | inl (rows, cols) =>
    let key := resolveLibref libref "in" in
    let* _ := modifyEnv (with_dataSets (<[key := mkDataSet key rows cols]>)) in
    logM info "Loaded dataset '{}' from '{}'"
         [AStr (libref +:+ ".in"); AStr csvPath]
  | inr what => logM error "Failed to load dataset: {}" [AStr what]
  end.

(** [Interpreter::executeTitle] *)
Definition executeTitle (t : string) : M unit :=
  let* _ := modifyEnv (setTitle t) in
  let* _ := logM info "Title set to: '{}'" [AStr t] in
  lstM "Title: {}" [AStr t].

(** [Interpreter::executeProcSort] *)
Definition executeProcSort (inputDataSet outputDataSet : string)
           (byVars : list string) (whereCondition : option ASTNode)
           (nodupkey duplicates : bool) : M unit :=
  let* _ := logM info "Executing PROC SORT" [] in
  let* inputDS := getOrCreateDatasetM inputDataSet inputDataSet in
  let* filteredDS :=
    match whereCondition with
    | Some cond =>
      let* tempDS := getOrCreateDatasetM "TEMP_SORT_FILTERED" "TEMP_SORT_FILTERED" in
      let* _ := modifyEnv (update_dataset tempDS (set_rows [])) in
      let* input := deref inputDS in
      let* _ :=
        forM_ input.(ds_rows) (fun row =>
          let* _ := modifyEnv (with_currentRow (fun _ => row)) in
          let* condValue := evaluate cond in
          let conditionTrue :=
            match condValue with
            | VNum d => neb d zero
            | VStr t => negb (String.eqb t "")
            end in
          if conditionTrue then push_row tempDS row else ret tt) in
      let* temp := deref tempDS in
      let* _ := logM info
                  "Applied WHERE condition. {} observations remain after filtering."
                  [AInt (Z.of_nat (length temp.(ds_rows)))] in
      ret tempDS
    | None => ret inputDS
    end in
  let* _ := sortDataset filteredDS byVars in
  let* filtered := deref filteredDS in
  let* _ := logM info "Sorted dataset '{}' by variables: {}"
                 [AStr filtered.(ds_name);
                  AStr (fold_left (fun a b => if String.eqb a "" then b
                                              else a +:+ ", " +:+ b)
                                  byVars "")] in
  let* sortedDS :=
    if nodupkey then
      let* tempDS := getOrCreateDatasetM "TEMP_SORT_NODUPKEY" "TEMP_SORT_NODUPKEY" in
      let* _ := modifyEnv (update_dataset tempDS (set_rows [])) in
      let* sorted := deref filteredDS in
      let* _ :=
        fold_left (fun acc row =>
                     let* seenKeys := acc in
                     let key := dupKey byVars row in
                     if mem key seenKeys then
                       let* _ := logM info
                                   "Duplicate key '{}' found. Skipping duplicate observation."
                                   [AStr key] in
                       ret seenKeys
                     else
                       let* _ := push_row tempDS row in
                       ret (key :: seenKeys))
                  sorted.(ds_rows) (ret []) in
      let* temp := deref tempDS in
      let* _ := logM info
                  "Applied NODUPKEY option. {} observations remain after removing duplicates."
                  [AInt (Z.of_nat (length temp.(ds_rows)))] in
      ret tempDS
    else ret filteredDS in
  let* _ :=
    if duplicates then
      let* sorted := deref sortedDS in
      let* _ :=
        fold_left (fun acc row =>
                     let* seenKeys := acc in
                     let key := dupKey byVars row in
                     if mem key seenKeys then
                       let* _ := logM info "Duplicate key '{}' found."
                                      [AStr key] in
                       ret seenKeys
                     else ret (key :: seenKeys))
                  sorted.(ds_rows) (ret []) in
      ret tt
    else ret tt in
  let outputDSName :=
    if String.eqb outputDataSet "" then inputDataSet else outputDataSet in
  let* outputDS := getOrCreateDatasetM outputDSName outputDSName in
  let* sorted := deref sortedDS in
  let* _ :=
    if negb (String.eqb outputDSName sorted.(ds_name)) then
      let* _ := modifyEnv (update_dataset outputDS (set_rows sorted.(ds_rows))) in
      logM info "Sorted data copied to output dataset '{}'." [AStr outputDSName]
    else
      let* _ := modifyEnv (update_dataset inputDS (set_rows sorted.(ds_rows))) in
      let* input := deref inputDS in
      logM info "Input dataset '{}' overwritten with sorted data."
           [AStr input.(ds_name)] in
  let* output := deref outputDS in
  logM info
    "PROC SORT executed successfully. Output dataset '{}' has {} observations."
    [AStr outputDSName; AInt (Z.of_nat (length output.(ds_rows)))].

(** [Interpreter::executeProc], for a [ProcNode] that is not a
    [ProcSortNode] *)
Definition executeProc (procName datasetName : string) : M unit :=
  if String.eqb procName "print" then
    let* _ := logM info "Executing PROC PRINT on dataset '{}'."
                   [AStr datasetName] in
    let* key := getOrCreateDatasetM "" datasetName in
    let* dataset := deref key in
    let* _ := lstM "PROC PRINT Results for Dataset '{}':"
                   [AStr dataset.(ds_name)] in
    let* t := getsEnv title in
    let* _ := if String.eqb t "" then ret tt else lstM "Title: {}" [AStr t] in
    printDataset dataset
  else if String.eqb procName "means" then
    throw (runtime_error "PROC MEANS should be handled as ProcMeansNode")
  else logM error "Unsupported PROC: {}" [AStr procName].

(** [Interpreter::executeProcMeans] *)
Definition executeProcMeans (node : ProcMeansNode) : M unit :=
  let* _ := logM info "Executing PROC MEANS on dataset '{}'."
                 [AStr node.(pm_datasetName)] in
  let* key := getOrCreateDatasetM "" node.(pm_datasetName) in
  let* dataset := deref key in
  let* _ := lstM "PROC MEANS Results for Dataset '{}':"
                 [AStr dataset.(ds_name)] in
  let* t := getsEnv title in
  let* _ := if String.eqb t "" then ret tt else lstM "Title: {}" [AStr t] in
  let '(sums, counts) :=
    fold_left (meansRow node.(pm_varNames)) dataset.(ds_rows)
              (meansInit node.(pm_varNames)) in
  let* _ := lstM ("Variable" +:+ tab +:+ "Mean") [] in
  forM_ node.(pm_varNames) (fun var =>
    let count := default 0 (counts !! var) in
    if 0 <? count then
      let mean := div (default zero (sums !! var)) (of_Z count) in
      lstM ("{}" +:+ tab +:+ "{:.2f}") [AStr var; ANum mean]
    else lstM ("{}" +:+ tab +:+ ".") [AStr var]).

(** [Interpreter::executeBy] *)
Definition executeBy (vars : list string) : M unit :=
  let* _ := logM info "Executing BY statement with variables:" [] in
  let* _ := forM_ vars (fun var => logM info " - {}" [AStr var]) in
  modify (with_byVariables vars).

(** [Interpreter::executeEnd] *)
Definition executeEnd : M unit :=
  let* stack := gets loopStack in
  match stack with
  | [] =>
    throw (runtime_error
             "END statement encountered without a corresponding DO loop.")
  | _ :: _ =>
    let* _ := modify (with_loopStack (drop 1)) in
    logM info "Exiting DO loop via END statement" []
  end.

(** *** Statements that execute statements *)

(** [Interpreter::executeBlock]; [exec] is [execute]. *)
Definition executeBlock (exec : ASTNode -> M unit) (stmts : list ASTNode)
  : M unit :=
  forM_ stmts exec.

(** The statements of a branch of [executeIfElse]. *)
Definition executeBranch (exec : ASTNode -> M unit) (stmts : list ASTNode)
  : M unit :=
  forM_ stmts (fun stmt =>
    match stmt with
    | BlockNode b => executeBlock exec b
    | _ => exec stmt
    end).

Fixpoint executeElseIf (exec : ASTNode -> M unit)
         (branches : list (ASTNode * list ASTNode))
         (elseStatements : list ASTNode) : M unit :=
  match branches with
  | (cond, stmts) :: branches' =>
    let* elseIfCond := evaluate cond in
    let elseIfD := toNumber elseIfCond in
    let* _ := logM info "Evaluating ELSE IF condition: {}" [ANum elseIfD] in
    if neb elseIfD zero then
      let* _ := logM info
                  "ELSE IF condition is TRUE. Executing ELSE IF statements." [] in
      executeBranch exec stmts
    else executeElseIf exec branches' elseStatements
  | [] =>
    match elseStatements with
    | [] => logM info "All conditions FALSE. No ELSE statements to execute." []
    | _ =>
      let* _ := logM info "All conditions FALSE. Executing ELSE statements." [] in
      executeBranch exec elseStatements
    end
  end.

(** [Interpreter::executeIfElse] *)
Definition executeIfElse (exec : ASTNode -> M unit) (condition : ASTNode)
           (thenStatements : list ASTNode)
           (elseIfBranches : list (ASTNode * list ASTNode))
           (elseStatements : list ASTNode) : M unit :=
  let* cond := evaluate condition in
  let d := toNumber cond in
  let* _ := logM info "Evaluating IF condition: {}" [ANum d] in
  if neb d zero then
    let* _ := logM info "Condition is TRUE. Executing THEN statements." [] in
    executeBranch exec thenStatements
  else executeElseIf exec elseIfBranches elseStatements.

(** The truth of a loop condition: a non-zero number. *)
Definition loopCondition (v : Value) : bool :=
  match v with
  | VNum d => neb d zero
  | VStr _ => false
  end.

(** The [while (!loopStack.empty())] loop of [executeDoLoop]; nothing in it
    changes the iteration count of a loop context. *)
Fixpoint doLoopWhile (exec : ASTNode -> M unit) (fuel : nat) : M unit :=
  match fuel with
  | O => out_of_fuel
  | S fuel' =>
    let* stack := gets loopStack in
    match stack with
    | [] => ret tt
    | (currentLoop, iterationCount) :: _ =>
      if (MAX_ITERATIONS <=? iterationCount)%nat then
        let* _ := logM error
                    "Potential infinite loop detected in DO loop. Exiting loop."
                    [] in
        modify (with_loopStack (drop 1))
      else
        match currentLoop with
        | DoLoopNode condition isWhile body =>
          let* conditionMet :=
            match condition with
            | Some c =>
              let* condValue := evaluate c in
              ret (if isWhile then loopCondition condValue
                   else negb (loopCondition condValue))
            | None => ret true
            end in
          if conditionMet then
            let* _ := exec body in
            doLoopWhile exec fuel'
          else
            let* _ := modify (with_loopStack (drop 1)) in
            logM info "Exiting DO loop" []
        | _ => undefined
        end
    end
  end.

(** [Interpreter::executeDoLoop] *)
Definition executeDoLoop (exec : ASTNode -> M unit) (fuel : nat)
           (node : ASTNode) : M unit :=
  let* _ := logM info "Entering DO loop" [] in
  let* _ := modify (with_loopStack (cons (node, O))) in
  doLoopWhile exec fuel.

(** [Interpreter::execute] *)
Fixpoint execute (fuel : nat) (node : ASTNode) {struct fuel} : M unit :=
  match fuel with
  | O => out_of_fuel
  | S fuel' =>
    match node with
    | DataStepNode o i stmts => executeDataStep fuel' o i stmts
    | OptionsNode opts => executeOptions opts
    | LibnameNode l p => executeLibname l p
    | TitleNode t => executeTitle t
    | ProcSortNode i o b w n d => executeProcSort i o b w n d
    | ProcNode name ds => executeProc name ds
    | IfElseIfNode c t e el => executeIfElse (execute fuel') c t e el
    | ArrayNode a n vars => executeArray a n vars
    | MergeStatementNode datasets => executeMerge fuel' datasets
    | ByStatementNode vars => executeBy vars
    | DoLoopNode _ _ _ => executeDoLoop (execute fuel') fuel' node
    | EndNode => executeEnd
    | _ =>
      throw (runtime_error "Unknown AST node encountered during execution.")
    end
  end.

(** [try { execute(stmt); } catch (const std::runtime_error &e) { ... }] *)
Definition tryExecute (fuel : nat) (stmt : ASTNode) : M unit :=
  fun st =>
    match execute fuel stmt st with
    | Throw (runtime_error what) st' =>
      logM error "Execution error: {}" [AStr what] st'
    | r => r
    end.

(** [Interpreter::executeProgram] *)
Definition executeProgram (fuel : nat) (program : list ASTNode) : M unit :=
  forM_ program (tryExecute fuel).

End Evaluate.

(** ** A platform and an initial state for running programs

    No CSV file can be read, the clock shows 2 November 2026, and the four
    transcendental functions return NaN: the programs run below call none of
    them. *)
Definition bare_platform : Platform := {|
  c_log := fun _ => nan;
  c_log10 := fun _ => nan;
  c_exp := fun _ => nan;
  c_pow := fun _ _ => nan;
  c_localtime := (2026, 11, 2);
  c_read_csv := fun path => inr ("Cannot open file: " +:+ path)
|}.

Definition empty_env : DataEnvironment :=
  mkEnv ∅ [] ∅ ∅ ∅ "" "".

Definition initial : Interpreter :=
  mkInterp empty_env ∅ [] [] [] [] [].

(** The interpreter with the given datasets in its catalog. *)
Definition with_catalog (l : list DataSet) (e : DataEnvironment) : DataEnvironment :=
  with_dataSets
    (fun m => fold_left (fun m ds => <[ds.(ds_name) := ds]> m) l m) e.

(** ** Auxiliary notions for the statements of the theorems *)

(** The records written to the log, or to the listing, by a sequence of
    calls, most recent first. *)
Definition add_logs (recs : list LogRecord) (st : Interpreter) : Interpreter :=
  mkInterp st.(env) st.(arrays) st.(byVariables) st.(retainVars)
           st.(loopStack) (recs ++ st.(logLogger)) st.(lstLogger).

Definition add_lsts (recs : list LogRecord) (st : Interpreter) : Interpreter :=
  mkInterp st.(env) st.(arrays) st.(byVariables) st.(retainVars)
           st.(loopStack) st.(logLogger) (recs ++ st.(lstLogger)).

(** The sum and the count that PROC MEANS holds for a variable, and their
    update by a row. *)
Definition acc_of (acc : gmap string double * gmap string Z) (var : string)
  : option double * option Z := (acc.1 !! var, acc.2 !! var).

Definition upd (row : Row) (var : string) (o : option double * option Z)
  : option double * option Z :=
  match row_find var row with
  | Some (VNum d) => (Some (add (default zero o.1) d), Some (default 0 o.2 + 1))
  | _ => o
  end.

(** A computation that leaves the catalog of datasets as it is, however it
    ends. *)
Definition keeps {A : Type} (c : M A) : Prop :=
  forall st,
    match c st with
    | Normal _ st' | Throw _ st' | OutOfFuel st' =>
      st'.(env).(dataSets) = st.(env).(dataSets)
    | Undefined => True
    end.

(** A computation on the flags of an iteration that leaves the OUTPUT flag
    and the catalog as they are. *)
Definition keeps_flag (f : StepFlags) (c : M StepFlags) : Prop :=
  forall st,
    match c st with
    | Normal f' st' =>
      shouldOutput f' = shouldOutput f /\
      st'.(env).(dataSets) = st.(env).(dataSets)
    | Throw _ st' | OutOfFuel st' => st'.(env).(dataSets) = st.(env).(dataSets)
    | Undefined => True
    end.

(** A computation that leaves the rows of every dataset as they are when it
    returns normally (it may create empty datasets and rename datasets). *)
Definition keeps_rows {A : Type} (c : M A) : Prop :=
  forall st a st',
    c st = Normal a st' ->
    forall key, rows_of key st'.(env) = rows_of key st.(env).

(** ** Sample data *)

Definition num (z : Z) : Value := VNum (of_Z z).

Definition ds_in : DataSet :=
  mkDataSet "WORK.in" [[("x", num 1)]; [("x", num 2)]; [("x", num 3)]] ["x"].

Definition ds1 : DataSet :=
  mkDataSet "ds1.ds1"
    [[("id", num 1); ("v", num 10)]; [("id", num 2); ("v", num 11)]] ["id"; "v"].
Definition ds2 : DataSet :=
  mkDataSet "ds2.ds2"
    [[("id", num 1); ("v", num 20)]; [("id", num 2); ("v", num 21)]] ["id"; "v"].
Definition ds_out : DataSet :=
  mkDataSet "WORK.out" [[("old", num 7)]] ["old"].

(** A state with the array arr over the variables a, b, c. *)
Definition st_array : Interpreter :=
  with_env (with_currentRow (fun _ => [("a", num 10); ("b", num 20)]))
           (with_arrays (<["arr" := ["a"; "b"; "c"]]>) initial).

(** A state with the datasets in, ds1, ds2 and out; out is the current
    dataset. *)
Definition st_merge (byVars : list string) : Interpreter :=
  with_byVariables byVars
    (with_env (fun e => mkEnv (dataSets (with_catalog [ds_in; ds1; ds2; ds_out] e))
                              [] ∅ ∅ ∅ "" "WORK.out")
              initial).

(** The loop [do i = 1152921504606846976 to 2305843009213693952; output;
    end;], from 2^60 to 2^61: in [double], adding 1 to 2^60 gives 2^60
    again. *)
Definition big : double := Eval vm_compute in of_Z (2 ^ 60).
Definition bigger : double := Eval vm_compute in of_Z (2 ^ 61).

Definition output_record : LogRecord :=
  mkLog info
    "OUTPUT statement executed. Current row will be added to the output dataset."
    [].
Definition starting_record : LogRecord :=
  mkLog info "Starting DO loop: {} = {} to {} by {}"
        [AStr "i"; ANum big; ANum bigger; ANum one].

(** The state of the interpreter inside that loop, with a given log. *)
Definition st_loop (lg : list LogRecord) : Interpreter :=
  mkInterp (mkEnv ∅ [("i", VNum big)] ∅ ∅ ∅ "" "") ∅ [] [] [] lg [].


(** ** Further notions for the statements of the theorems *)

(** What a scan started at [lx] may return: a STRING token that carries the
    line and column of the start, with the lexer left further on in the same
    text, or the error of an unterminated literal. *)
Definition scanned_within (lx : Lexer.Lexer) (tline tcol : nat)
           (r : Lexer.ScanResult) : Prop :=
  match r with
  | Lexer.Scanned t lx' =>
    tok_type t = STRING /\ tok_line t = tline /\ tok_col t = tcol /\
    (Lexer.pos lx < Lexer.pos lx' <= String.length (Lexer.input lx))%nat /\
    Lexer.input lx' = Lexer.input lx /\ Lexer.line lx' = Lexer.line lx
  | Lexer.LexError msg => msg = "Unterminated string literal"
  end.

(** The operators [evaluate] knows for a [BinaryOpNode], and those among
    them that yield a truth value. *)
Definition binary_operators : list string :=
  ["+"; "-"; "*"; "/"; ">"; "<"; ">="; "<="; "=="; "!="; "and"; "or"].

Definition truth_operators : list string :=
  [">"; "<"; ">="; "<="; "=="; "!="; "and"; "or"].

(** The functions that take the text of their first argument with
    [std::get<std::string>]. *)
Definition string_functions : list string :=
  ["substr"; "trim"; "left"; "right"; "upcase"; "lowcase"].

(** The state [st'] is [st] with records added to the log. *)
Definition logs_only (st st' : Interpreter) : Prop :=
  exists recs, st' = add_logs recs st.

(** A computation that keeps its state in the relation [R], however it
    ends. *)
Definition stays (R : Interpreter -> Interpreter -> Prop) {A : Type} (c : M A)
  : Prop :=
  forall st,
    match c st with
    | Normal _ st' | Throw _ st' | OutOfFuel st' => R st st'
    | Undefined => True
    end.

(** Texts made of blanks only, and the first and last character of a
    text. *)
Fixpoint all_blank (s : string) : bool :=
  match s with
  | EmptyString => true
  | String c s' => is_blank c && all_blank s'
  end.

Definition first_char (s : string) : option ascii :=
  match s with
  | EmptyString => None
  | String c _ => Some c
  end.

Fixpoint last_char (s : string) : option ascii :=
  match s with
  | EmptyString => None
  | String c EmptyString => Some c
  | String _ s' => last_char s'
  end.

(** The key under which [executeDataStep] looks a dataset name up: the name
    is split at its first point into libref and dataset. *)
Definition dataset_key (name : string) : string :=
  match split_dot name with
  | Some (l, d) => resolveLibref l d
  | None => resolveLibref "" name
  end.

(** The BY value of a row for one variable, as [executeMerge] reads it. *)
Definition byValue (var : string) (row : Row) : double :=
  match row_find var row with
  | Some (VNum d) => d
  | _ => zero
  end.

(** The rows the NODUPKEY pass of [executeProcSort] keeps: the first row of
    each key, given the keys seen so far. *)
Fixpoint keep_first (byVars : list string) (seen : list string)
         (rows : list Row) : list Row :=
  match rows with
  | [] => []
  | row :: rows' =>
    if mem (dupKey byVars row) seen then keep_first byVars seen rows'
    else row :: keep_first byVars (dupKey byVars row :: seen) rows'
  end.

(** ** The program data vector (sasdoc.h, sasdoc.cpp) *)

Module Pdv.

(** [using Cell = std::variant<flyweight_string, double>] *)
Inductive Cell :=
| CStr (s : string)
| CNum (d : double).

(** [struct PdvVar] *)
Record PdvVar := mkPdvVar {
  name : string;
  isNumeric : bool;
  length : Z;
  label : string;
  format : string;
  informat : string;
  decimals : Z;
  retained : bool
}.

Definition set_retained (flag : bool) (v : PdvVar) : PdvVar :=
  mkPdvVar v.(name) v.(isNumeric) v.(length) v.(label) v.(format)
           v.(informat) v.(decimals) flag.

(** [class PDV]: the variables and, in the same order, their current
    values. *)
Record PDV := mkPDV {
  pdvVars : list PdvVar;
  pdvValues : list Cell
}.

(** The missing value a variable is given: [double(-INFINITY)] or
    [flyweight_string("")]. *)
Definition missing (isNum : bool) : Cell :=
  if isNum then CNum (S754_infinity true) else CStr "".

(** [boost::iequals]: equal lengths, and characters equal once put in upper
    case. *)
Fixpoint iequals (a b : string) : bool :=
  match a, b with
  | EmptyString, EmptyString => true
  | String x a', String y b' =>
    Ascii.eqb (Stod.toupper x) (Stod.toupper y) && iequals a' b'
  | _, _ => false
  end.

(** The loop of [PDV::findVarIndex] from index [i] on; the result is
    [(int)i]. *)
Fixpoint findVarIndex_from (i : nat) (vars : list PdvVar) (n : string) : Z :=
  match vars with
  | [] => -1
  | v :: vars' =>
    if iequals v.(name) n then int_of_size i
    else findVarIndex_from (S i) vars' n
  end.

(** [PDV::findVarIndex] *)
Definition findVarIndex (p : PDV) (n : string) : Z :=
  findVarIndex_from 0 p.(pdvVars) n.

(** [PDV::addVariable] *)
Definition addVariable (varDef : PdvVar) (p : PDV) : PDV :=
  if 0 <=? findVarIndex p varDef.(name) then p
  else mkPDV (p.(pdvVars) ++ [varDef])
             (p.(pdvValues) ++ [missing varDef.(isNumeric)]).

(** [varIndex >= 0 && varIndex < (int)pdvValues.size()] *)
Definition inRange (varIndex : Z) (p : PDV) : bool :=
  (0 <=? varIndex) && (varIndex <? int_of_size (List.length p.(pdvValues))).

(** [PDV::setValue] *)
Definition setValue (varIndex : Z) (val : Cell) (p : PDV) : PDV :=
  if inRange varIndex p
  then mkPDV p.(pdvVars) (<[Z.to_nat varIndex := val]> p.(pdvValues))
  else p.

(** [PDV::getValue] *)
Definition getValue (varIndex : Z) (p : PDV) : Cell :=
  if inRange varIndex p
  then default (missing true) (p.(pdvValues) !! Z.to_nat varIndex)
  else missing true.

(** The loop of [PDV::resetNonRetained]: [pdvValues[i]] is written for every
    variable that is not retained; writing past the end of [pdvValues] is
    undefined ([None]). *)
Fixpoint resetValues (vars : list PdvVar) (vals : list Cell)
  : option (list Cell) :=
  match vars with
  | [] => Some vals
  | v :: vars' =>
    match vals with
    | [] => if v.(retained) then resetValues vars' [] else None
    | c :: vals' =>
      option_map (cons (if v.(retained) then c else missing v.(isNumeric)))
                 (resetValues vars' vals')
    end
  end.

(** [PDV::resetNonRetained] *)
Definition resetNonRetained (p : PDV) : option PDV :=
  option_map (mkPDV p.(pdvVars)) (resetValues p.(pdvVars) p.(pdvValues)).

(** [PDV::setRetainFlag] *)
Definition setRetainFlag (varName : string) (retainedFlag : bool) (p : PDV)
  : PDV :=
  let idx := findVarIndex p varName in
  if 0 <=? idx
  then mkPDV (alter (set_retained retainedFlag) (Z.to_nat idx) p.(pdvVars))
             p.(pdvValues)
  else p.

(** "The order in pdvVars must match the order in pdvValues": the two
    vectors have the same size. *)
Definition aligned (p : PDV) : Prop :=
  List.length p.(pdvVars) = List.length p.(pdvValues).

Definition empty : PDV := mkPDV [] [].

End Pdv.

(** ** Further notions: conversions, the step boundary, loops, MERGE,
    sorting *)

(** Texts of white space only, as [std::isspace] sees it. *)
Fixpoint all_space (s : string) : bool :=
  match s with
  | EmptyString => true
  | String c s' => Stod.isspace c && all_space s'
  end.

(** A character that can continue a decimal integer into a longer number: a
    digit, the point, the exponent marker, or the x of a hexadecimal
    constant. *)
Definition continues_number (c : ascii) : bool :=
  match Stod.digit_val c with
  | Some _ => true
  | None =>
    Ascii.eqb c "." || Ascii.eqb (Stod.tolower c) "e"
    || Ascii.eqb (Stod.tolower c) "x"
  end.

(** A text that cannot continue a decimal integer written before it. *)
Definition stops_number (rest : string) : bool :=
  match rest with
  | EmptyString => true
  | String c _ => negb (continues_number c)
  end.

(** A character with which no number starts: not white space, a sign, a
    digit, the point, or the first letter of "inf" or "nan". *)
Definition opens_number (c : ascii) : bool :=
  Stod.isspace c || Ascii.eqb c "+" || Ascii.eqb c "-" || Ascii.eqb c "."
  || Ascii.eqb (Stod.tolower c) "i" || Ascii.eqb (Stod.tolower c) "n"
  || match Stod.digit_val c with Some _ => true | None => false end.

(** What [toNumber] makes of a conversion result: a value out of the range
    of [double] makes [std::stod] throw, and gives [0.0]. *)
Definition unless_overflow (d : double) : double :=
  match d with
  | S754_infinity _ => zero
  | _ => d
  end.

(** The small and the capital letters of ASCII. *)
Definition is_lower (c : ascii) : bool :=
  (97 <=? Stod.code c) && (Stod.code c <=? 122).

Definition is_upper (c : ascii) : bool :=
  (65 <=? Stod.code c) && (Stod.code c <=? 90).

(** No number of the rows is a NaN.  (The model of [double] has one NaN; in
    C++ the text of a NaN, "nan" or "-nan", depends on its sign bit.) *)
Definition no_nan (rows : list Row) : Prop :=
  Forall (fun row =>
            Forall (fun col => match snd col with
                               | VNum d => is_nan d = false
                               | VStr _ => True
                               end) row) rows.



(** The loop [do while (1); title "t"; end;]. *)
Definition loop_forever : ASTNode :=
  DoLoopNode (Some (NumberNode one)) true (TitleNode "t").

(** The condition of a conditional loop lets the loop continue whenever it
    is tested: it evaluates to a value that is true for WHILE, false for
    UNTIL; a loop without condition always continues. *)
Definition always_continues `{Platform} (condition : option ASTNode)
           (isWhile : bool) : Prop :=
  match condition with
  | Some c =>
    forall s, exists v s',
      evaluate c s = Normal v s' /\
      (if isWhile then loopCondition v else negb (loopCondition v)) = true
  | None => True
  end.

(** The row is a row of one of the datasets [keys]. *)
Definition copied_row (keys : list string) (e : DataEnvironment) (r : Row)
  : Prop :=
  exists key, In key keys /\ In r (rows_of key e).

(** The pairs of [picked] are rows of datasets of [keys], each under the key
    of its dataset, the datasets in the order of [keys] and none of them
    twice. *)
Definition picked_in_order (keys : list string) (e : DataEnvironment)
           (picked : list (string * Row)) : Prop :=
  sublist (map fst picked) keys /\
  Forall (fun p => In (snd p) (rows_of (fst p) e)) picked.

(** A row MERGE writes to its output: a copy of an input row, or the
    combination of rows picked from the datasets in their order. *)
Definition merge_writes (byVars keys : list string) (e : DataEnvironment)
           (r : Row) : Prop :=
  copied_row keys e r \/
  exists picked,
    picked_in_order keys e picked /\
    r = mergeMatchedRows byVars (map snd picked).

(** Every BY variable of the row holds a number that is not a NaN. *)
Definition by_numeric (byVars : list string) (row : Row) : Prop :=
  Forall (fun v => exists d, row_find v row = Some (VNum d) /\ is_nan d = false)
         byVars.

(** No row is followed, at any distance, by a row that is below it on the BY
    variables. *)
Fixpoint ascending (byVars : list string) (rows : list Row) : Prop :=
  match rows with
  | [] => True
  | a :: rest =>
    Forall (fun b => row_lt byVars b a = false) rest /\ ascending byVars rest
  end.

(** No BY variable of the row holds a NaN.  (The model of [double] has one
    NaN; in C++ the text of a NaN in a NODUPKEY key, "nan" or "-nan",
    depends on its sign bit.) *)
Definition by_not_nan (byVars : list string) (row : Row) : Prop :=
  Forall (fun v => row_find v row <> Some (VNum nan)) byVars.

(* ===================================================================== *)
(** * Part II: theorems                                                   *)
(* ===================================================================== *)

(** ** Lexer: string literals *)

Section ScanString.

Import Lexer.

(** Equality of scan results up to arithmetic on positions and columns. *)
Ltac scan_eq :=
  repeat match goal with
         | |- Some _ = Some _ => f_equal
         | |- Scanned _ _ = Scanned _ _ => f_equal
         | |- mkLexer _ _ _ _ = mkLexer _ _ _ _ => f_equal
         | |- mkToken _ _ _ _ = mkToken _ _ _ _ => f_equal
         end; try reflexivity; try lia.

Lemma get_app_length (pre suf : string) :
  String.get (String.length pre) (pre +:+ suf) = String.get 0 suf.
Proof.
  induction pre as [|a pre IH]; simpl; [reflexivity | exact IH].
Qed.

Lemma get_app_length_S (pre : string) (c : ascii) (suf : string) :
  String.get (S (String.length pre)) (pre +:+ String c suf) = String.get 0 suf.
Proof.
  induction pre as [|a pre IH]; simpl; [reflexivity | exact IH].
Qed.

Lemma length_app (s t : string) :
  String.length (s +:+ t) = (String.length s + String.length t)%nat.
Proof.
  induction s as [|a s IH]; simpl; [reflexivity | now rewrite IH].
Qed.

Lemma app_assoc_char (pre : string) (c : ascii) (suf : string) :
  pre +:+ String c suf = (pre +:+ String c EmptyString) +:+ suf.
Proof.
  induction pre as [|a pre IH]; simpl; [reflexivity | now rewrite IH].
Qed.

Lemma length_push (pre : string) (c : ascii) :
  String.length (pre +:+ String c EmptyString) = S (String.length pre).
Proof. rewrite length_app. simpl. lia. Qed.

Lemma app_empty_r (s : string) : s +:+ EmptyString = s.
Proof. induction s as [|a s IH]; simpl; [reflexivity | now rewrite IH]. Qed.

Lemma app_assoc_str (s t u : string) : (s +:+ t) +:+ u = s +:+ (t +:+ u).
Proof. induction s as [|a s IH]; simpl; [reflexivity | now rewrite IH]. Qed.

(** One trip of the loop on a character that is not the delimiter. *)
Lemma loop_plain fuel q tl tc pre c suf ln cl value :
  Ascii.eqb c q = false ->
  scanString_loop (S fuel) q tl tc
    (mkLexer (pre +:+ String c suf) (String.length pre) ln cl) value
  = scanString_loop fuel q tl tc
      (mkLexer (pre +:+ String c suf) (S (String.length pre)) ln (2 + cl))
      (push_back value c).
Proof.
  intros Hc. cbn [scanString_loop input pos].
  rewrite length_app. cbn [String.length].
  replace (String.length pre + S (String.length suf) <=? String.length pre)%nat
    with false by (symmetry; apply Nat.leb_gt; lia).
  unfold peekChar. cbn [input pos].
  rewrite get_app_length. cbn [String.get]. rewrite Hc.
  reflexivity.
Qed.

(** One trip of the loop on a doubled delimiter. *)
Lemma loop_doubled fuel q tl tc pre suf ln cl value :
  scanString_loop (S fuel) q tl tc
    (mkLexer (pre +:+ String q (String q suf)) (String.length pre) ln cl) value
  = scanString_loop fuel q tl tc
      (mkLexer (pre +:+ String q (String q suf)) (S (S (String.length pre)))
               ln (4 + cl))
      (push_back value q).
Proof.
  cbn [scanString_loop input pos].
  rewrite length_app. cbn [String.length].
  replace (String.length pre + S (S (String.length suf)) <=? String.length pre)%nat
    with false by (symmetry; apply Nat.leb_gt; lia).
  unfold peekChar. cbn [input pos].
  rewrite get_app_length. cbn [String.get]. rewrite Ascii.eqb_refl.
  replace (S (String.length pre) <? String.length pre + S (S (String.length suf)))%nat
    with true by (symmetry; apply Nat.ltb_lt; lia).
  rewrite get_app_length_S. cbn [String.get]. rewrite Ascii.eqb_refl.
  reflexivity.
Qed.

(** One trip of the loop on the closing delimiter. *)
Lemma loop_closing fuel q tl tc pre rest ln cl value :
  (forall rest', rest <> String q rest') ->
  scanString_loop (S fuel) q tl tc
    (mkLexer (pre +:+ String q rest) (String.length pre) ln cl) value
  = Some (Scanned (mkToken STRING value tl tc)
            (mkLexer (pre +:+ String q rest) (S (String.length pre)) ln (2 + cl))).
Proof.
  intros Hrest. cbn [scanString_loop input pos].
  rewrite length_app. cbn [String.length].
  replace (String.length pre + S (String.length rest) <=? String.length pre)%nat
    with false by (symmetry; apply Nat.leb_gt; lia).
  unfold peekChar. cbn [input pos].
  rewrite get_app_length. cbn [String.get]. rewrite Ascii.eqb_refl.
  rewrite get_app_length_S.
  destruct rest as [|r rest'].
  - cbn [String.get]. rewrite andb_false_r. reflexivity.
  - cbn [String.get].
    destruct (Ascii.eqb r q) eqn:E.
    + apply Ascii.eqb_eq in E. subst r. exfalso. exact (Hrest rest' eq_refl).
    + rewrite andb_false_r. reflexivity.
Qed.

(** One trip of the loop at the end of the text. *)
Lemma loop_eof fuel q tl tc txt ln cl value :
  scanString_loop (S fuel) q tl tc
    (mkLexer txt (String.length txt) ln cl) value
  = Some (LexError "Unterminated string literal").
Proof.
  cbn [scanString_loop input pos]. rewrite Nat.leb_refl. reflexivity.
Qed.

(** The loop reads the body of a terminated literal. *)
Lemma loop_terminated q s : forall fuel tl tc pre rest ln cl value,
  (forall rest', rest <> String q rest') ->
  (String.length (escape q s) < fuel)%nat ->
  scanString_loop fuel q tl tc
    (mkLexer (pre +:+ escape q s +:+ String q rest) (String.length pre) ln cl)
    value
  = Some (Scanned (mkToken STRING (value +:+ s) tl tc)
            (mkLexer (pre +:+ escape q s +:+ String q rest)
               (String.length pre + String.length (escape q s) + 1)
               ln (cl + 2 * String.length (escape q s) + 2))).
Proof.
  induction s as [|c s IH]; intros fuel tl tc pre rest ln cl value Hrest Hfuel.
  - cbn [escape String.length append] in *.
    destruct fuel as [|fuel]; [lia|].
    rewrite loop_closing by assumption.
    rewrite app_empty_r. scan_eq.
  - cbn [escape] in *.
    destruct (Ascii.eqb c q) eqn:E.
    + apply Ascii.eqb_eq in E. subst c.
      cbn [String.length append] in *.
      destruct fuel as [|fuel]; [lia|].
      rewrite loop_doubled.
      rewrite (app_assoc_char pre q), (app_assoc_char _ q).
      replace (S (S (String.length pre)))
        with (String.length ((pre +:+ String q EmptyString) +:+ String q EmptyString))
        by (rewrite !length_push; reflexivity).
      rewrite IH by (assumption || lia).
      unfold push_back. rewrite !length_push, app_assoc_str.
      cbn [append]. scan_eq.
    + cbn [String.length append] in *.
      destruct fuel as [|fuel]; [lia|].
      rewrite loop_plain by assumption.
      rewrite (app_assoc_char pre c).
      replace (S (String.length pre))
        with (String.length (pre +:+ String c EmptyString))
        by (rewrite length_push; reflexivity).
      rewrite IH by (assumption || lia).
      unfold push_back. rewrite length_push, app_assoc_str.
      cbn [append]. scan_eq.
Qed.

(** The loop runs into the end of the text on an unterminated literal. *)
Lemma loop_unterminated q s : forall fuel tl tc pre ln cl value,
  (String.length (escape q s) < fuel)%nat ->
  scanString_loop fuel q tl tc
    (mkLexer (pre +:+ escape q s) (String.length pre) ln cl) value
  = Some (LexError "Unterminated string literal").
Proof.
  induction s as [|c s IH]; intros fuel tl tc pre ln cl value Hfuel.
  - cbn [escape String.length] in *.
    destruct fuel as [|fuel]; [lia|].
    rewrite app_empty_r. apply loop_eof.
  - cbn [escape] in *.
    destruct (Ascii.eqb c q) eqn:E.
    + apply Ascii.eqb_eq in E. subst c.
      cbn [String.length] in *.
      destruct fuel as [|fuel]; [lia|].
      rewrite loop_doubled.
      rewrite (app_assoc_char pre q), (app_assoc_char _ q).
      replace (S (S (String.length pre)))
        with (String.length ((pre +:+ String q EmptyString) +:+ String q EmptyString))
        by (rewrite !length_push; reflexivity).
      apply IH. lia.
    + cbn [String.length] in *.
      destruct fuel as [|fuel]; [lia|].
      rewrite loop_plain by assumption.
      rewrite (app_assoc_char pre c).
      replace (S (String.length pre))
        with (String.length (pre +:+ String c EmptyString))
        by (rewrite length_push; reflexivity).
      apply IH. lia.
Qed.

(** C9.  [scanString], started on the opening delimiter [q] of a literal
    whose body is the escaped form of [s] (every delimiter inside doubled,
    every other character, newlines included, written as is), returns a
    STRING token whose text is exactly [s] and stops right after the closing
    delimiter; when the text ends before a closing delimiter it throws
    "Unterminated string literal". *)
Theorem scanString_literal (q : ascii) (pre s rest : string) (ln cl : nat) :
  (forall rest', rest <> String q rest') ->
  scanString (mkLexer (pre +:+ String q (escape q s +:+ String q rest))
                      (String.length pre) ln cl)
  = Some (Scanned (mkToken STRING s ln cl)
            (mkLexer (pre +:+ String q (escape q s +:+ String q rest))
               (String.length pre + String.length (escape q s) + 2)
               ln (cl + 2 * String.length (escape q s) + 3)))
  /\
  scanString (mkLexer (pre +:+ String q (escape q s)) (String.length pre) ln cl)
  = Some (LexError "Unterminated string literal").
Proof.
  intros Hrest. split.
  - unfold scanString, getChar. cbn [input pos line col fst snd].
    rewrite (app_assoc_char pre q).
    replace (S (String.length pre))
      with (String.length (pre +:+ String q EmptyString))
      by (rewrite length_push; reflexivity).
    unfold peekChar. cbn [input pos].
    rewrite <- (app_assoc_char pre q), get_app_length. cbn [String.get].
    rewrite (app_assoc_char pre q).
    rewrite loop_terminated.
    + rewrite length_push. cbn [append]. scan_eq.
    + assumption.
    + rewrite !length_app. cbn [String.length]. lia.
  - unfold scanString, getChar. cbn [input pos line col fst snd].
    unfold peekChar. cbn [input pos].
    rewrite get_app_length. cbn [String.get].
    rewrite (app_assoc_char pre q).
    replace (S (String.length pre))
      with (String.length (pre +:+ String q EmptyString))
      by (rewrite length_push; reflexivity).
    apply loop_unterminated.
    rewrite !length_app. cbn [String.length]. lia.
Qed.

End ScanString.

Lemma scanString_literal_witness :
  (forall rest', ";" <> String "'" rest') /\
  Lexer.scanString (Lexer.mkLexer "x = 'I''m here.';" 4 1 5)
  = Some (Lexer.Scanned (mkToken STRING "I'm here." 1 5)
            (Lexer.mkLexer "x = 'I''m here.';" 16 1 28)) /\
  Lexer.scanString (Lexer.mkLexer "x = 'I''m here." 4 1 5)
  = Some (Lexer.LexError "Unterminated string literal").
Proof.
  assert (H : forall rest', ";" <> String "'" rest')
    by (intros rest' E; discriminate E).
  split; [exact H |].
  exact (scanString_literal "'" "x = " "I'm here." ";" 1 5 H).
Defined.

Example stod_examples :
  map Stod.stod ["12"; " -1.5e2xyz"; "abc"; ""; "0x1Ap1"; ".5"; "1e999"; "0.1"]
  = [Some (of_Z 12); Some (of_Z (-150)); None; None; Some (of_Z 52);
     Some (div one (of_Z 2)); None; Some (div one (of_Z 10))].
Proof. vm_compute. reflexivity. Qed.

Example toString_examples :
  map toString [VNum (of_Z 10); VNum (div (of_Z 314) (of_Z 100)); VNum zero;
                VNum nan; VNum (of_Z (-100)); VStr "x"]
  = ["10"; "3.14"; "0"; "nan"; "-100"; "x"].
Proof. vm_compute. reflexivity. Qed.

(** ** Conversion to a number *)

Section Conversion.

Lemma skip_space_app ws s :
  all_space ws = true -> Stod.skip_space (ws +:+ s) = Stod.skip_space s.
Proof.
  induction ws as [|c ws IH]; intros Hws; [reflexivity |].
  cbn [all_space] in Hws. apply andb_prop in Hws as [Hc Hws].
  cbn [String.append Stod.skip_space]. rewrite Hc. apply IH. exact Hws.
Qed.

Lemma stod_skips_space ws s :
  all_space ws = true -> Stod.stod (ws +:+ s) = Stod.stod s.
Proof.
  intros Hws. unfold Stod.stod. rewrite skip_space_app by exact Hws.
  reflexivity.
Qed.

Lemma stops_number_digit rest :
  stops_number rest = true ->
  match rest with
  | String c _ => Stod.digit_val c = None
  | EmptyString => True
  end.
Proof.
  destruct rest as [|c rest]; [trivial |].
  unfold stops_number, continues_number.
  destruct (Stod.digit_val c); [discriminate | reflexivity].
Qed.

(** Reading the digits of a numeral from the left continues the numeral
    read so far. *)
Lemma read_digits_uint d : forall a cnt rest,
  stops_number rest = true ->
  Stod.read_digits Stod.digit_val 10 (Z.of_N (DecimalPos.Unsigned.of_lu a)) cnt
                   (NilEmpty.string_of_uint d +:+ rest)
  = (Z.of_N (DecimalPos.Unsigned.of_lu (Decimal.revapp d a)),
     cnt + Z.of_nat (Decimal.nb_digits d), rest).
Proof.
  induction d; intros a cnt rest Hrest;
    try (cbn [NilEmpty.string_of_uint String.append Stod.read_digits Decimal.revapp
              Decimal.nb_digits];
         match goal with
         | |- context [Stod.digit_val ?c] =>
           let v := eval vm_compute in (Stod.digit_val c) in
           change (Stod.digit_val c) with v
         end;
         cbv iota;
         match goal with
         | |- Stod.read_digits _ _ ?acc _ _ = (Z.of_N (DecimalPos.Unsigned.of_lu (Decimal.revapp _ ?a')), _, _) =>
           replace acc with (Z.of_N (DecimalPos.Unsigned.of_lu a'))
             by (cbn [DecimalPos.Unsigned.of_lu]; lia)
         end;
         rewrite IHd by exact Hrest; f_equal; f_equal; lia).
  cbn [NilEmpty.string_of_uint String.append Decimal.revapp Decimal.nb_digits].
  pose proof (stops_number_digit rest Hrest) as Hd.
  destruct rest as [|c rest]; cbn [Stod.read_digits].
  - f_equal. f_equal. lia.
  - rewrite Hd. f_equal. f_equal. lia.
Qed.

Lemma to_uint_not_Nil n : N.to_uint n <> Decimal.Nil.
Proof.
  destruct n as [|p]; [discriminate |]. apply DecimalPos.Unsigned.to_uint_nonnil.
Qed.

Lemma digits_uint n :
  digits n = NilEmpty.string_of_uint (N.to_uint (Z.to_N n)).
Proof.
  unfold digits, NilZero.string_of_uint.
  pose proof (to_uint_not_Nil (Z.to_N n)) as Hn.
  destruct (N.to_uint (Z.to_N n)); [contradiction | reflexivity ..].
Qed.

Lemma read_digits_digits n rest :
  0 <= n ->
  stops_number rest = true ->
  exists k,
    0 < k /\
    Stod.read_digits Stod.digit_val 10 0 0 (digits n +:+ rest) = (n, k, rest).
Proof.
  intros Hn Hrest. rewrite digits_uint.
  pose proof (read_digits_uint (N.to_uint (Z.to_N n)) Decimal.Nil 0 rest Hrest) as Hr.
  cbn [DecimalPos.Unsigned.of_lu] in Hr. change (Z.of_N 0) with 0 in Hr. rewrite Hr.
  exists (Z.of_nat (Decimal.nb_digits (N.to_uint (Z.to_N n)))). split.
  - pose proof (to_uint_not_Nil (Z.to_N n)) as Hnil.
    destruct (N.to_uint (Z.to_N n)); [contradiction | cbn [Decimal.nb_digits]; lia ..].
  - f_equal. f_equal.
    change (Decimal.revapp (N.to_uint (Z.to_N n)) Decimal.Nil) with (Decimal.rev (N.to_uint (Z.to_N n))).
    rewrite <- DecimalPos.Unsigned.of_uint_alt.
    change (Pos.of_uint (N.to_uint (Z.to_N n)))
      with (N.of_uint (N.to_uint (Z.to_N n))).
    rewrite DecimalN.Unsigned.of_to. lia.
Qed.

Lemma stops_number_spec c rest :
  stops_number (String c rest) = true ->
  Stod.digit_val c = None /\ Ascii.eqb c "." = false /\
  Ascii.eqb (Stod.tolower c) "e" = false /\
  Ascii.eqb "x" (Stod.tolower c) = false.
Proof.
  unfold stops_number, continues_number.
  destruct (Stod.digit_val c); [discriminate |].
  rewrite (Ascii.eqb_sym "x").
  destruct (Ascii.eqb c "."), (Ascii.eqb (Stod.tolower c) "e"),
    (Ascii.eqb (Stod.tolower c) "x"); try discriminate.
  repeat split.
Qed.

(** The text of a natural number starts with a digit, and no hexadecimal
    prefix comes of it. *)
Lemma digits_head n rest :
  stops_number rest = true ->
  exists c t,
    digits n +:+ rest = String c t /\
    In c ["0"; "1"; "2"; "3"; "4"; "5"; "6"; "7"; "8"; "9"]%char /\
    match t with
    | String c2 _ => Ascii.eqb "x" (Stod.tolower c2) = false
    | EmptyString => True
    end.
Proof.
  intros Hrest. rewrite digits_uint.
  pose proof (to_uint_not_Nil (Z.to_N n)) as Hnil.
  destruct (N.to_uint (Z.to_N n)) as [|u|u|u|u|u|u|u|u|u|u];
    [contradiction | ..];
    cbn [NilEmpty.string_of_uint String.append];
    eexists _, _; (split; [reflexivity |]); (split; [cbn [In]; tauto |]);
    (destruct u; cbn [NilEmpty.string_of_uint String.append];
     [destruct rest as [|c2 rest]; [exact I |];
      apply (stops_number_spec c2 rest Hrest) | reflexivity ..]).
Qed.

(** The conversion of a decimal integer, given its sign, when nothing that
    follows continues the number. *)
Lemma stod_integer_body neg n rest :
  0 <= n ->
  stops_number rest = true ->
  (let s := digits n +:+ rest in
   if Stod.starts_with_ci "inf" s then Some (S754_infinity neg)
   else if Stod.starts_with_ci "nan" s then Some S754_nan
   else
     let decimal :=
       let '(m, k, nfrac, r) := Stod.read_mantissa Stod.digit_val 10 s in
       if k =? 0 then None
       else
         let e := Stod.read_exponent "e" r - nfrac in
         Stod.in_range (Stod.scaled m 10 e) (Stod.decimal_value neg m e) in
     if Stod.starts_with_ci "0x" s then
       let '(m, k, nfrac, r) :=
         Stod.read_mantissa Stod.hex_val 16
                            (String.substring 2 (String.length s) s) in
       if k =? 0 then decimal
       else
         let e := Stod.read_exponent "p" r - 4 * nfrac in
         Stod.in_range (Stod.scaled m 2 e) (Stod.binary_value neg m e)
     else decimal)
  = match (if n =? 0 then S754_zero neg
           else of_Z (if neg then - n else n)) with
    | S754_infinity _ => None
    | d => Some d
    end.
Proof.
  intros Hn Hrest. cbv zeta.
  destruct (digits_head n rest Hrest) as (c & t & Hs & Hc & Hx).
  assert (Hinf : Stod.starts_with_ci "inf" (digits n +:+ rest) = false).
  { rewrite Hs. cbn [In] in Hc.
    repeat destruct Hc as [<- | Hc]; try reflexivity. destruct Hc. }
  assert (Hnan : Stod.starts_with_ci "nan" (digits n +:+ rest) = false).
  { rewrite Hs. cbn [In] in Hc.
    repeat destruct Hc as [<- | Hc]; try reflexivity. destruct Hc. }
  assert (Hhex : Stod.starts_with_ci "0x" (digits n +:+ rest) = false).
  { rewrite Hs. cbn [Stod.starts_with_ci].
    destruct t as [|c2 t]; [apply andb_false_r |].
    rewrite Hx. cbn [andb]. apply andb_false_r. }
  rewrite Hinf, Hnan, Hhex.
  unfold Stod.read_mantissa.
  destruct (read_digits_digits n rest Hn Hrest) as (k & Hk & Hread).
  rewrite Hread.
  assert (Hm : match rest with
               | String "." r1' =>
                 let '(m2, n2, r2) :=
                   Stod.read_digits Stod.digit_val 10 n 0 r1' in
                 if k + n2 =? 0 then (n, 0, 0, rest) else (m2, k + n2, n2, r2)
               | _ => (n, k, 0, rest)
               end = (n, k, 0, rest)).
  { destruct rest as [|c1 rest']; [reflexivity |].
    destruct (stops_number_spec c1 rest' Hrest) as (_ & Hp & _).
    destruct c1 as [[|] [|] [|] [|] [|] [|] [|] [|]];
      try reflexivity; discriminate Hp. }
  rewrite Hm. clear Hm.
  replace (k =? 0) with false by (symmetry; apply Z.eqb_neq; lia).
  assert (He : Stod.read_exponent "e" rest = 0).
  { destruct rest as [|c1 rest']; [reflexivity |].
    destruct (stops_number_spec c1 rest' Hrest) as (_ & _ & He & _).
    unfold Stod.read_exponent. rewrite He. reflexivity. }
  rewrite He. change (0 - 0) with 0.
  unfold Stod.scaled, Stod.decimal_value.
  change (10 ^ 0) with 1. rewrite Z.mul_1_r.
  destruct n as [|p|p]; [reflexivity | | lia].
  change (Z.pos p =? 0) with false. cbv iota.
  unfold Stod.in_range, of_Z.
  assert (Htiny : Stod.tiny (Z.pos p) 1 = false).
  { unfold Stod.tiny. apply Z.ltb_ge.
    assert (2 ^ 54 - 1 <= 2 ^ 1076) by (vm_compute; discriminate).
    assert (1 * 2 ^ 1076 <= Z.pos p * 2 ^ 1076)
      by (apply Z.mul_le_mono_nonneg_r; [vm_compute; discriminate | lia]).
    lia. }
  rewrite Htiny, andb_false_r.
  destruct (binary_normalize prec emax (if neg then - Z.pos p else Z.pos p)
                             0 false); reflexivity.
Qed.

(** An optional sign before a decimal integer. *)
Lemma stod_integer n rest :
  0 <= n ->
  stops_number rest = true ->
  let result neg :=
    match (if n =? 0 then S754_zero neg
           else of_Z (if neg then - n else n)) with
    | S754_infinity _ => None
    | d => Some d
    end in
  Stod.stod (digits n +:+ rest) = result false /\
  Stod.stod ("+" +:+ digits n +:+ rest) = result false /\
  Stod.stod ("-" +:+ digits n +:+ rest) = result true.
Proof.
  intros Hn Hrest result. subst result. cbv beta iota.
  rewrite <- (stod_integer_body false n rest Hn Hrest).
  rewrite <- (stod_integer_body true n rest Hn Hrest).
  split; [| split; reflexivity].
  destruct (digits_head n rest Hrest) as (c & t & Hs & Hc & _).
  rewrite Hs. cbn [In] in Hc.
  repeat destruct Hc as [<- | Hc]; try reflexivity. destruct Hc.
Qed.

Lemma stod_no_number c rest :
  opens_number c = false -> Stod.stod (String c rest) = None.
Proof.
  intros Hc.
  destruct c as [[|] [|] [|] [|] [|] [|] [|] [|]];
    try discriminate Hc; reflexivity.
Qed.

(** C5 (as amended).  [toNumber] returns a numeric value unchanged.  On a
    string it returns what [std::stod] reads from it: white space before the
    number is skipped; a decimal integer, with or without a sign, followed
    by any text that does not continue the number converts to that integer,
    the text after it being ignored.  When [std::stod] throws, as it does
    for the empty text, for a text whose first character cannot start a
    number, and for a number out of the range of [double], the result is
    [0.0], which is not the missing value. *)
Theorem toNumber_conversion :
  (forall d, toNumber (VNum d) = d) /\
  (forall s d, Stod.stod s = Some d -> toNumber (VStr s) = d) /\
  (forall ws s, all_space ws = true ->
                toNumber (VStr (ws +:+ s)) = toNumber (VStr s)) /\
  (forall n rest,
     0 <= n -> stops_number rest = true ->
     toNumber (VStr (digits n +:+ rest)) = unless_overflow (of_Z n) /\
     toNumber (VStr ("+" +:+ digits n +:+ rest)) = unless_overflow (of_Z n) /\
     toNumber (VStr ("-" +:+ digits n +:+ rest))
     = unless_overflow (if n =? 0 then S754_zero true else of_Z (- n))) /\
  (forall s, Stod.stod s = None ->
             toNumber (VStr s) = zero /\ is_nan (toNumber (VStr s)) = false) /\
  Stod.stod "" = None /\
  (forall c rest, opens_number c = false -> Stod.stod (String c rest) = None).
Proof.
  split; [reflexivity |].
  split; [intros s d Hs; unfold toNumber; rewrite Hs; reflexivity |].
  split.
  { intros ws s Hws. unfold toNumber.
    rewrite stod_skips_space by exact Hws. reflexivity. }
  split.
  { intros n rest Hn Hrest.
    destruct (stod_integer n rest Hn Hrest) as (H0 & Hplus & Hminus).
    unfold toNumber. rewrite H0, Hplus, Hminus.
    destruct (Z.eqb_spec n 0) as [-> | Hne].
    - repeat split.
    - unfold unless_overflow.
      destruct (of_Z n), (of_Z (- n)); repeat split. }
  split.
  { intros s Hs. unfold toNumber. rewrite Hs. split; reflexivity. }
  split; [reflexivity |].
  exact stod_no_number.
Qed.
End Conversion.

Lemma toNumber_conversion_witness :
  toNumber (VStr "  -42 apples") = of_Z (-42) /\
  toNumber (VStr "7up") = of_Z 7 /\
  toNumber (VStr "abc") = zero.
Proof.
  destruct toNumber_conversion as (_ & _ & Hspace & Hint & Hnone & _ & Hfail).
  split; [| split].
  - refine (eq_trans (Hspace "  " "-42 apples" eq_refl) _).
    apply (Hint 42 " apples"); [discriminate | reflexivity].
  - apply (Hint 7 "up"); [discriminate | reflexivity].
  - apply (Hnone "abc"). apply (Hfail "a"%char "bc"). reflexivity.
Defined.

(** C5 as stated fails: a string that is not a number converts to [0.0], not
    to the missing value. *)
Lemma toNumber_failure_is_not_missing :
  Stod.stod "abc" = None /\
  toNumber (VStr "abc") = zero /\
  toNumber (VStr "abc") <> nan.
Proof.
  split; [vm_compute; reflexivity |].
  split; [vm_compute; reflexivity |].
  vm_compute. discriminate.
Qed.

(** ** Comparisons and logical operators on a missing operand *)

Section MissingOperand.

Context `{Platform}.

Lemma compare_nan_l (r : double) : SFcompare nan r = None.
Proof. reflexivity. Qed.

Lemma compare_nan_r (l : double) : SFcompare l nan = None.
Proof. destruct l; reflexivity. Qed.

(** The value of a binary operation whose operands evaluate normally. *)
Lemma evaluate_binary op lhs rhs st lv st1 rv st2 :
  evaluate lhs st = Normal lv st1 ->
  evaluate rhs st1 = Normal rv st2 ->
  evaluate (BinaryOpNode op lhs rhs) st
  = evalBinary op (toNumber lv) (toNumber rv) st2.
Proof.
  intros Hl Hr. cbn [evaluate]. unfold bind. rewrite Hl, Hr. reflexivity.
Qed.

(** C4 (as amended).  When exactly one operand of a binary operation is the
    numeric missing value (NaN), the comparisons [<], [<=], [>], [>=] and
    [==] evaluate to 0.0, but [!=] evaluates to 1.0, and the logical
    operators take the missing operand as true: [and] yields 1.0 exactly
    when the other operand is not zero, [or] yields 1.0. *)
Theorem missing_operand lhs rhs st lv st1 rv st2 :
  evaluate lhs st = Normal lv st1 ->
  evaluate rhs st1 = Normal rv st2 ->
  xorb (is_nan (toNumber lv)) (is_nan (toNumber rv)) = true ->
  let other := if is_nan (toNumber lv) then toNumber rv else toNumber lv in
  (forall op, In op ["<"; "<="; ">"; ">="; "=="] ->
     evaluate (BinaryOpNode op lhs rhs) st = Normal (VNum zero) st2) /\
  evaluate (BinaryOpNode "!=" lhs rhs) st = Normal (VNum one) st2 /\
  evaluate (BinaryOpNode "and" lhs rhs) st
  = Normal (VNum (b2d (neb other zero))) st2 /\
  evaluate (BinaryOpNode "or" lhs rhs) st = Normal (VNum one) st2.
Proof.
  intros Hl Hr Hx other. subst other.
  assert (Hcmp : SFcompare (toNumber lv) (toNumber rv) = None
                 /\ SFcompare (toNumber rv) (toNumber lv) = None).
  { destruct (toNumber lv) eqn:El, (toNumber rv) eqn:Er;
      try discriminate Hx; split; reflexivity. }
  destruct Hcmp as [Hlr Hrl].
  repeat split.
  - intros op Hop. rewrite (evaluate_binary _ _ _ _ _ _ _ _ Hl Hr).
    cbn [In] in Hop.
    destruct Hop as [<- | [<- | [<- | [<- | [<- | []]]]]];
      unfold evalBinary; cbn [String.eqb Ascii.eqb Bool.eqb];
      unfold ret, ltb, leb, gtb, geb, eqb, SFltb, SFleb, SFeqb;
      rewrite ?Hlr, ?Hrl; reflexivity.
  - rewrite (evaluate_binary _ _ _ _ _ _ _ _ Hl Hr).
    unfold evalBinary; cbn [String.eqb Ascii.eqb Bool.eqb].
    unfold ret, neb, SFeqb. rewrite Hlr. reflexivity.
  - rewrite (evaluate_binary _ _ _ _ _ _ _ _ Hl Hr).
    unfold evalBinary; cbn [String.eqb Ascii.eqb Bool.eqb].
    destruct (toNumber lv) eqn:El, (toNumber rv) eqn:Er;
      try discriminate Hx; cbn [is_nan]; unfold ret, neb, SFeqb;
      cbn [SFcompare negb andb zero]; rewrite ?andb_true_r; reflexivity.
  - rewrite (evaluate_binary _ _ _ _ _ _ _ _ Hl Hr).
    unfold evalBinary; cbn [String.eqb Ascii.eqb Bool.eqb].
    destruct (toNumber lv) eqn:El, (toNumber rv) eqn:Er;
      try discriminate Hx; unfold ret, neb, SFeqb;
      cbn [SFcompare negb orb zero]; rewrite ?orb_true_r; reflexivity.
Qed.

End MissingOperand.

Lemma missing_operand_witness :
  let ev := @evaluate bare_platform in
  let missing := NumberNode nan in
  let five := NumberNode (of_Z 5) in
  (forall op, In op ["<"; "<="; ">"; ">="; "=="] ->
     ev (BinaryOpNode op missing five) initial = Normal (VNum zero) initial) /\
  ev (BinaryOpNode "!=" missing five) initial = Normal (VNum one) initial /\
  ev (BinaryOpNode "and" missing five) initial = Normal (VNum one) initial /\
  ev (BinaryOpNode "or" missing five) initial = Normal (VNum one) initial.
Proof.
  exact (@missing_operand bare_platform (NumberNode nan) (NumberNode (of_Z 5))
           initial (VNum nan) initial (VNum (of_Z 5)) initial
           eq_refl eq_refl eq_refl).
Defined.

(** C4 as stated fails: with a missing left operand, [!=] and [and] evaluate
    to 1.0 (true). *)
Lemma missing_operand_yields_true :
  @evaluate bare_platform
    (BinaryOpNode "!=" (NumberNode nan) (NumberNode (of_Z 5))) initial
  = Normal (VNum one) initial /\
  @evaluate bare_platform
    (BinaryOpNode "and" (NumberNode nan) (NumberNode (of_Z 5))) initial
  = Normal (VNum one) initial.
Proof. split; vm_compute; reflexivity. Qed.

(** ** Rows *)

Section Rows.

Lemma string_compare_refl (k : string) : String.compare k k = Eq.
Proof.
  pose proof (String.compare_antisym k k) as E.
  destruct (String.compare k k); [reflexivity | discriminate E | discriminate E].
Qed.

Lemma row_find_set_eq k v r : row_find k (row_set k v r) = Some v.
Proof.
  induction r as [|[k' v'] r IH]; cbn [row_set row_find].
  - rewrite String.eqb_refl. reflexivity.
  - destruct (String.compare k k') eqn:E; cbn [row_find].
    + rewrite String.eqb_refl. reflexivity.
    + rewrite String.eqb_refl. reflexivity.
    + destruct (String.eqb k k') eqn:E'; [|exact IH].
      apply String.eqb_eq in E'. subst k'.
      rewrite string_compare_refl in E. discriminate E.
Qed.

Lemma row_find_set_ne k k' v r :
  k <> k' -> row_find k (row_set k' v r) = row_find k r.
Proof.
  intros Hne. apply String.eqb_neq in Hne.
  induction r as [|[k'' v''] r IH]; cbn [row_set row_find].
  - rewrite Hne. reflexivity.
  - destruct (String.compare k' k'') eqn:E; cbn [row_find].
    + apply String.compare_eq_iff in E. subst k''. rewrite Hne. reflexivity.
    + rewrite Hne. reflexivity.
    + rewrite IH. reflexivity.
Qed.

End Rows.

(** ** Arrays *)

Section Arrays.

Lemma int_of_size_small (n : nat) :
  Z.of_nat n <= INT_MAX -> int_of_size n = Z.of_nat n.
Proof.
  unfold INT_MAX, int_of_size. intros Hn.
  rewrite Z.mod_small by lia.
  destruct (Z.ltb_spec (Z.of_nat n) (2 ^ 31)); lia.
Qed.

(** C8.  For an array declared with the variables [vars], with [n] their
    number (an [int]), reading or writing index [i] succeeds exactly when
    [1 <= i <= n], and then it reads or writes, in the current row, the
    variable at position [i] of the list counted from 1 (a variable that the
    row does not hold reads as 0); any other index throws "Array index out
    of bounds". *)
Theorem array_index_one_based st arrayName vars (i : Z) (v : Value) :
  st.(arrays) !! arrayName = Some vars ->
  Z.of_nat (length vars) <= INT_MAX ->
  let n := Z.of_nat (length vars) in
  let out_of_bounds :=
    runtime_error ("Array index out of bounds for array: " +:+ arrayName) in
  (1 <= i <= n ->
   exists varName st',
     vars !! Z.to_nat (i - 1) = Some varName /\
     getArrayElement arrayName i st
     = Normal (default (VNum zero) (row_find varName st.(env).(currentRow))) st /\
     setArrayElement arrayName i v st = Normal tt st' /\
     row_find varName st'.(env).(currentRow) = Some v /\
     getArrayElement arrayName i st' = Normal v st') /\
  (~ (1 <= i <= n) ->
   getArrayElement arrayName i st = Throw out_of_bounds st /\
   setArrayElement arrayName i v st = Throw out_of_bounds st).
Proof.
  intros Harr Hn n out_of_bounds. subst n out_of_bounds. split.
  - intros Hi.
    destruct (lookup_lt_is_Some_2 vars (Z.to_nat (i - 1))) as [varName Hv];
      [lia |].
    exists varName, (with_env (with_currentRow (row_set varName v)) st).
    assert (Hb : (i <? 1) || (int_of_size (length vars) <? i) = false).
    { rewrite int_of_size_small by assumption.
      apply orb_false_intro; apply Z.ltb_ge; lia. }
    split; [exact Hv |].
    split; [| split; [| split]].
    + unfold getArrayElement. rewrite Harr, Hb, Hv.
      destruct (row_find varName (currentRow (env st))); reflexivity.
    + unfold setArrayElement. rewrite Harr, Hb, Hv. reflexivity.
    + destruct st as [e ? ? ? ? ? ?]. destruct e. cbn.
      apply row_find_set_eq.
    + unfold getArrayElement.
      replace (arrays (with_env (with_currentRow (row_set varName v)) st))
        with (arrays st) by (destruct st; reflexivity).
      rewrite Harr, Hb, Hv.
      replace (row_find varName _) with (Some v); [reflexivity |].
      destruct st as [e ? ? ? ? ? ?]. destruct e. cbn.
      symmetry. apply row_find_set_eq.
  - intros Hi.
    assert (Hb : (i <? 1) || (int_of_size (length vars) <? i) = true).
    { rewrite int_of_size_small by assumption.
      apply orb_true_iff.
      destruct (Z.ltb_spec i 1); [left; reflexivity | right].
      apply Z.ltb_lt. lia. }
    split.
    + unfold getArrayElement. rewrite Harr, Hb. reflexivity.
    + unfold setArrayElement. rewrite Harr, Hb. reflexivity.
Qed.

End Arrays.

Lemma array_index_one_based_witness :
  st_array.(arrays) !! "arr" = Some ["a"; "b"; "c"] /\
  getArrayElement "arr" 2 st_array = Normal (num 20) st_array /\
  getArrayElement "arr" 3 st_array = Normal (VNum zero) st_array /\
  getArrayElement "arr" 0 st_array
  = Throw (runtime_error "Array index out of bounds for array: arr") st_array /\
  setArrayElement "arr" 4 (num 1) st_array
  = Throw (runtime_error "Array index out of bounds for array: arr") st_array.
Proof.
  assert (Harr : st_array.(arrays) !! "arr" = Some ["a"; "b"; "c"])
    by (vm_compute; reflexivity).
  assert (Hn : Z.of_nat (length ["a"; "b"; "c"]) <= INT_MAX)
    by (vm_compute; discriminate).
  split; [exact Harr |].
  destruct (array_index_one_based st_array "arr" ["a"; "b"; "c"] 2 (num 1) Harr Hn)
    as [[varName [st' [Hv [Hget _]]]] _]; [cbn; lia |].
  destruct (array_index_one_based st_array "arr" ["a"; "b"; "c"] 3 (num 1) Harr Hn)
    as [[varName3 [st3 [Hv3 [Hget3 _]]]] _]; [cbn; lia |].
  destruct (array_index_one_based st_array "arr" ["a"; "b"; "c"] 0 (num 1) Harr Hn)
    as [_ [Hget0 _]]; [cbn; lia |].
  destruct (array_index_one_based st_array "arr" ["a"; "b"; "c"] 4 (num 1) Harr Hn)
    as [_ [_ Hset4]]; [cbn; lia |].
  cbn in Hv, Hv3. injection Hv as <-. injection Hv3 as <-.
  repeat split; assumption.
Defined.

(** ** MERGE without BY *)

Section MergeWithoutBy.

Lemma forM_logM {A} (l : list A) lv (f : A -> string) (a : A -> list LogArg) :
  forall st,
    forM_ l (fun x => logM lv (f x) (a x)) st
    = Normal tt (add_logs (rev (map (fun x => mkLog lv (f x) (a x)) l)) st).
Proof.
  induction l as [|x l IH]; intros st.
  - destruct st; reflexivity.
  - cbn [forM_ map rev]. unfold bind, logM, modify. rewrite IH.
    destruct st. unfold add_logs, log. cbn.
    rewrite <- app_assoc. reflexivity.
Qed.

Lemma created_only_refl e : created_only e e.
Proof. repeat split; try tauto. intros key ds H1 H2. congruence. Qed.

Lemma created_only_trans e1 e2 e3 :
  created_only e1 e2 -> created_only e2 e3 -> created_only e1 e3.
Proof.
  intros (A1 & B1 & C1 & D1 & E1) (A2 & B2 & C2 & D2 & E2).
  repeat split; try congruence.
  - intros key ds Hk. apply A2, A1, Hk.
  - intros key ds Hk Hnone.
    destruct (dataSets e2 !! key) as [ds2|] eqn:E.
    + pose proof (A2 _ _ E) as Hk'. rewrite Hk in Hk'. injection Hk' as ->.
      exact (B1 _ _ E Hnone).
    + exact (B2 _ _ Hk E).
Qed.

Lemma getOrCreateDataset_created libref name e :
  created_only e (snd (getOrCreateDataset libref name e)).
Proof.
  unfold getOrCreateDataset.
  destruct (dataSets e !! resolveLibref libref name) eqn:E; cbn [snd].
  - apply created_only_refl.
  - destruct e. repeat split; cbn in *; try reflexivity.
    + intros key ds Hk.
      rewrite lookup_insert_ne; [exact Hk | congruence].
    + intros key ds Hk Hnone.
      destruct (decide (resolveLibref libref name = key)) as [<- | Hne].
      * rewrite lookup_insert_eq in Hk. injection Hk as <-. reflexivity.
      * rewrite lookup_insert_ne in Hk by assumption. congruence.
Qed.

(** Resolving the datasets of a MERGE only creates datasets. *)
Lemma resolveDatasets_created names : forall st,
  exists keys e',
    resolveDatasets names st = Normal keys (with_env (fun _ => e') st) /\
    created_only st.(env) e'.
Proof.
  induction names as [|n names IH]; intros st.
  - exists [], st.(env). split; [destruct st; reflexivity |].
    apply created_only_refl.
  - cbn [resolveDatasets]. unfold bind at 1. unfold getOrCreateDatasetM.
    pose proof (getOrCreateDataset_created n n st.(env)) as Hc.
    destruct (getOrCreateDataset n n (env st)) as [key e1]. cbn [snd] in Hc.
    destruct (IH (with_env (fun _ => e1) st)) as (keys & e2 & Hr & Hc2).
    unfold bind. rewrite Hr.
    exists (key :: keys), e2. split.
    + destruct st; reflexivity.
    + eapply created_only_trans; [exact Hc |]. destruct st; exact Hc2.
Qed.

(** C10.  A MERGE executed while the BY-variable list of the interpreter is
    empty throws "MERGE statement requires a preceding BY statement."
    before it sorts, reads or combines rows: every dataset is left as it
    was (datasets named in the MERGE that did not exist are created empty),
    so the output dataset is unchanged, as are the current row and the
    listing. *)
Theorem merge_requires_by (fuel : nat) (datasets : list string)
        (st : Interpreter) :
  st.(byVariables) = [] ->
  exists st',
    executeMerge fuel datasets st
    = Throw (runtime_error "MERGE statement requires a preceding BY statement.")
            st' /\
    created_only st.(env) st'.(env) /\
    rows_of st.(env).(currentDataSet) st'.(env)
    = rows_of st.(env).(currentDataSet) st.(env) /\
    st'.(lstLogger) = st.(lstLogger).
Proof.
  intros Hby. unfold executeMerge.
  unfold bind at 1. unfold logM at 1, modify.
  unfold bind at 1. rewrite forM_logM.
  set (st1 := add_logs _ _).
  destruct (resolveDatasets_created datasets st1) as (keys & e' & Hr & Hc).
  unfold bind at 1. rewrite Hr.
  unfold bind at 1, gets.
  replace (byVariables (with_env (fun _ => e') st1)) with (@nil string)
    by (subst st1; destruct st; cbn in *; congruence).
  eexists. split; [reflexivity |].
  assert (Henv : env st1 = env st) by (subst st1; destruct st; reflexivity).
  rewrite Henv in Hc.
  replace (env (with_env (fun _ => e') st1)) with e'
    by (subst st1; destruct st; reflexivity).
  split; [exact Hc |].
  split; [| subst st1; destruct st; reflexivity].
  destruct Hc as (Hkeep & Hnew & _).
  unfold rows_of.
  destruct (dataSets (env st) !! currentDataSet (env st)) as [ds|] eqn:E.
  - rewrite (Hkeep _ _ E). reflexivity.
  - destruct (dataSets e' !! currentDataSet (env st)) as [ds'|] eqn:E';
      [| reflexivity].
    exact (Hnew _ _ E' E).
Qed.

End MergeWithoutBy.

Lemma merge_requires_by_witness :
  (st_merge []).(byVariables) = [] /\
  exists st',
    executeMerge 10 ["ds1"; "ds2"] (st_merge [])
    = Throw (runtime_error "MERGE statement requires a preceding BY statement.")
            st' /\
    rows_of "WORK.out" st'.(env) = [[("old", num 7)]].
Proof.
  split; [reflexivity |].
  destruct (merge_requires_by 10 ["ds1"; "ds2"] (st_merge []) eq_refl)
    as (st' & Hthrow & _ & Hrows & _).
  exists st'. split; [exact Hthrow | exact Hrows].
Defined.

(** ** Errors at the step boundary *)

Section StepBoundary.

Context `{Platform}.

Lemma forM_app {A} (f : A -> M unit) (l1 l2 : list A) : forall st,
  forM_ (l1 ++ l2) f st = bind (forM_ l1 f) (fun _ => forM_ l2 f) st.
Proof.
  induction l1 as [|x l1 IH]; intros st.
  - reflexivity.
  - cbn [app forM_]. unfold bind.
    destruct (f x st) as [[] st1 | e st1 | | st1]; try reflexivity.
    rewrite IH. reflexivity.
Qed.





End StepBoundary.



(** ** MERGE: a variable contributed by two datasets *)

Section MergeConflict.

Variable byVars : list string.
Variable v : string.
Hypothesis v_not_by : mem v byVars = false.

Lemma mergeColumn_keeps prefix m k x y :
  v <> prefix +:+ "_" +:+ k ->
  row_find v m = Some y ->
  row_find v (mergeColumn byVars prefix m (k, x)) = Some y.
Proof.
  intros Hren Hm. unfold mergeColumn.
  destruct (mem k byVars) eqn:Eby.
  - rewrite row_find_set_ne; [exact Hm |].
    intros ->. rewrite Eby in v_not_by. discriminate.
  - destruct (row_find k m) eqn:Ek.
    + rewrite row_find_set_ne; [exact Hm | exact Hren].
    + rewrite row_find_set_ne; [exact Hm |].
      intros ->. rewrite Hm in Ek. discriminate.
Qed.

Lemma mergeColumn_first prefix m k x :
  v <> prefix +:+ "_" +:+ k ->
  row_find v m = None ->
  row_find v (mergeColumn byVars prefix m (k, x))
  = if String.eqb v k then Some x else None.
Proof.
  intros Hren Hm. unfold mergeColumn.
  destruct (String.eqb v k) eqn:Evk.
  - apply String.eqb_eq in Evk. subst k.
    rewrite v_not_by, Hm. apply row_find_set_eq.
  - apply String.eqb_neq in Evk.
    destruct (mem k byVars).
    + rewrite row_find_set_ne; assumption.
    + destruct (row_find k m).
      * rewrite row_find_set_ne; assumption.
      * rewrite row_find_set_ne; assumption.
Qed.

Lemma fold_mergeColumn prefix cols : forall m,
  (forall k, In k (row_keys cols) -> v <> prefix +:+ "_" +:+ k) ->
  row_find v (fold_left (mergeColumn byVars prefix) cols m)
  = match row_find v m with
    | Some y => Some y
    | None => row_find v cols
    end.
Proof.
  induction cols as [|[k x] cols IH]; intros m Hren.
  - cbn. destruct (row_find v m); reflexivity.
  - cbn [fold_left]. rewrite IH.
    2:{ intros k' Hk'. apply Hren. right. exact Hk'. }
    assert (Hk : v <> prefix +:+ "_" +:+ k) by (apply Hren; left; reflexivity).
    destruct (row_find v m) as [y|] eqn:Em.
    + rewrite (mergeColumn_keeps _ _ _ _ _ Hk Em). reflexivity.
    + rewrite (mergeColumn_first _ _ _ _ Hk Em). cbn [row_find].
      destruct (String.eqb v k); reflexivity.
Qed.

Lemma mergeRow_find m row :
  rename_free v row ->
  row_find v (mergeRow byVars m row)
  = match row_find v m with
    | Some y => Some y
    | None => row_find v row
    end.
Proof.
  intros Hren. destruct row as [|[first x] row].
  - cbn. destruct (row_find v m); reflexivity.
  - unfold mergeRow. apply fold_mergeColumn. exact Hren.
Qed.

(** A value once stored under the variable's own name stays. *)
Lemma fold_mergeRow_keeps rows : forall m y,
  Forall (rename_free v) rows ->
  row_find v m = Some y ->
  row_find v (fold_left (mergeRow byVars) rows m) = Some y.
Proof.
  induction rows as [|row rows IH]; intros m y Hren Hm.
  - exact Hm.
  - cbn [fold_left]. inversion Hren as [|? ? Hrow Hrows]; subst.
    apply IH; [exact Hrows |].
    rewrite mergeRow_find by exact Hrow. rewrite Hm. reflexivity.
Qed.

(** The first row that has the variable decides its value. *)
Lemma fold_mergeRow_first (earlier : list Row) r1 later x :
  Forall (rename_free v) (earlier ++ r1 :: later) ->
  Forall (fun r => row_find v r = None) earlier ->
  row_find v r1 = Some x ->
  forall m, row_find v m = None ->
    row_find v (fold_left (mergeRow byVars) (earlier ++ r1 :: later) m)
    = Some x.
Proof.
  intros Hren Hnone Hr1. revert Hren Hnone.
  induction earlier as [|r earlier' IH]; intros Hren Hnone m Hm.
  - cbn [app fold_left]. inversion Hren as [|? ? Hrow Hrows]; subst.
    apply fold_mergeRow_keeps; [exact Hrows |].
    rewrite mergeRow_find by exact Hrow. rewrite Hm. exact Hr1.
  - cbn [app fold_left].
    inversion Hren as [|? ? Hrow Hrows]; subst.
    inversion Hnone as [|? ? Hr Hrs]; subst.
    apply IH; [exact Hrows | exact Hrs |].
    rewrite mergeRow_find by exact Hrow. rewrite Hm. exact Hr.
Qed.

End MergeConflict.

(** C2 as stated fails: merging ds1 and ds2 by id, the shared variable v of
    the output row holds the value 10 of ds1, the earlier dataset; the value
    20 of ds2 is stored under the name id_v. *)
Lemma merge_conflict_later_does_not_win :
  exists st',
    executeMerge 10 ["ds1"; "ds2"] (st_merge ["id"]) = Normal tt st' /\
    rows_of "WORK.out" st'.(env)
    = [[("id", num 1); ("id_v", num 20); ("v", num 10)]].
Proof. eexists. split; vm_compute; reflexivity. Qed.

(** ** PROC MEANS *)

Section ProcMeans.

(** Projections of a state that is given by its fields. *)
Ltac st_simpl :=
  cbn [env arrays byVariables retainVars loopStack logLogger lstLogger
       with_env log lst].

Lemma forM_lstM {A} (l : list A) (r : A -> LogRecord) :
  (forall x, lvl (r x) = info) ->
  forall st,
    forM_ l (fun x => lstM (fmt (r x)) (args (r x))) st
    = Normal tt (add_lsts (rev (map r l)) st).
Proof.
  intros Hinfo.
  induction l as [|x l IH]; intros st.
  - destruct st; reflexivity.
  - cbn [forM_ map rev]. unfold bind, lstM, modify. rewrite IH.
    destruct st. unfold add_lsts, lst. cbn.
    rewrite <- app_assoc. cbn [app].
    specialize (Hinfo x). destruct (r x) as [lv f a]. cbn in *. subst lv.
    reflexivity.
Qed.

Lemma forM_ext {A} (f g : A -> M unit) (l : list A) :
  (forall x, In x l -> f x = g x) -> forM_ l f = forM_ l g.
Proof.
  induction l as [|x l IH]; intros Hfg; [reflexivity |].
  cbn [forM_]. rewrite (Hfg x) by (left; reflexivity).
  rewrite IH; [reflexivity |]. intros y Hy. apply Hfg. right. exact Hy.
Qed.

Lemma meansVar_acc row acc w var :
  acc_of (meansVar row acc w) var
  = if decide (w = var) then upd row var (acc_of acc var) else acc_of acc var.
Proof.
  destruct acc as [s c]. unfold meansVar, upd, acc_of. cbn [fst snd].
  destruct (decide (w = var)) as [<- | Hne].
  - destruct (row_find w row) as [[d|t]|]; cbn [fst snd];
      rewrite ?lookup_insert_eq; reflexivity.
  - destruct (row_find w row) as [[d|t]|]; cbn [fst snd];
      rewrite ?lookup_insert_ne by assumption; reflexivity.
Qed.

Lemma meansRow_acc row vs : forall acc,
  NoDup vs ->
  (forall var, In var vs ->
     acc_of (meansRow vs acc row) var = upd row var (acc_of acc var)) /\
  (forall var, ~ In var vs ->
     acc_of (meansRow vs acc row) var = acc_of acc var).
Proof.
  unfold meansRow.
  induction vs as [|w vs IH]; intros acc Hnd.
  - split; [intros var [] | reflexivity].
  - apply NoDup_cons in Hnd as [Hw Hnd]. cbn [fold_left].
    rewrite list_elem_of_In in Hw.
    destruct (IH (meansVar row acc w) Hnd) as [IHin IHout].
    split.
    + intros var [<- | Hin].
      * rewrite IHout by exact Hw. rewrite meansVar_acc.
        destruct (decide (w = w)); [reflexivity | contradiction].
      * rewrite IHin by exact Hin. rewrite meansVar_acc.
        destruct (decide (w = var)) as [<- | Hne];
          [contradiction | reflexivity].
    + intros var Hnot. rewrite IHout by (intros Hin; apply Hnot; right; exact Hin).
      rewrite meansVar_acc.
      destruct (decide (w = var)) as [<- | Hne]; [| reflexivity].
      exfalso. apply Hnot. left. reflexivity.
Qed.

Lemma meansRows_acc vs var rows : forall acc,
  NoDup vs -> In var vs ->
  acc_of (fold_left (meansRow vs) rows acc) var
  = fold_left (fun o row => upd row var o) rows (acc_of acc var).
Proof.
  induction rows as [|row rows IH]; intros acc Hnd Hin; [reflexivity |].
  cbn [fold_left]. rewrite IH by assumption.
  destruct (meansRow_acc row vs acc Hnd) as [Hupd _].
  rewrite Hupd by exact Hin. reflexivity.
Qed.

Lemma upd_values var rows : forall s n,
  fold_left (fun o row => upd row var o) rows (Some s, Some n)
  = (Some (fold_left add (numericValues var rows) s),
     Some (n + Z.of_nat (length (numericValues var rows)))).
Proof.
  induction rows as [|row rows IH]; intros s n.
  - cbn. rewrite Z.add_0_r. reflexivity.
  - cbn [fold_left]. unfold upd at 2, numericValues. cbn [omap list_omap].
    destruct (row_find var row) as [[d|t]|]; cbn [fst snd default];
      rewrite IH; unfold numericValues; cbn [fold_left length];
      unfold id; first [reflexivity | f_equal; f_equal; lia].
Qed.

Lemma meansInit_acc var vs :
  In var vs -> acc_of (meansInit vs) var = (Some zero, Some 0).
Proof.
  unfold meansInit. generalize (∅ : gmap string double, ∅ : gmap string Z).
  intros acc Hin.
  assert (Hgen : forall vs acc,
             In var vs \/ acc_of acc var = (Some zero, Some 0) ->
             acc_of (fold_left (fun '(sums, counts) v =>
                                  (<[v := zero]> sums, <[v := 0]> counts)) vs acc) var
             = (Some zero, Some 0)).
  { clear. induction vs as [|w vs IH]; intros acc Hor.
    - destruct Hor as [[] | Hacc]. exact Hacc.
    - cbn [fold_left]. apply IH.
      destruct acc as [s c]. unfold acc_of in *. cbn [fst snd] in *.
      destruct (decide (w = var)) as [-> | Hne].
      + right. rewrite !lookup_insert_eq. reflexivity.
      + destruct Hor as [[Heq | Hin] | Hacc].
        * contradiction.
        * left. exact Hin.
        * right. rewrite !lookup_insert_ne by assumption. exact Hacc. }
  apply Hgen. left. exact Hin.
Qed.

(** The sum and the count PROC MEANS ends with for a variable of the VAR
    list. *)
Lemma means_of_variable vs var rows :
  NoDup vs -> In var vs ->
  acc_of (fold_left (meansRow vs) rows (meansInit vs)) var
  = (Some (fold_left add (numericValues var rows) zero),
     Some (Z.of_nat (length (numericValues var rows)))).
Proof.
  intros Hnd Hin. rewrite meansRows_acc by assumption.
  rewrite meansInit_acc by exact Hin. rewrite upd_values. reflexivity.
Qed.

(** C6 (as amended).  PROC MEANS writes to the listing a title, the header
    "Variable<TAB>Mean" and then one line for each variable of the VAR list,
    in order, that holds the name of the variable and its mean over the
    rows where it is numeric ("." when there is none): N, min, max and std
    are neither computed nor written, and an empty VAR list yields no line
    at all.  (The VAR list is taken without repetitions.) *)
Theorem proc_means_writes_means (node : ProcMeansNode) (st : Interpreter)
        (ds : DataSet) :
  NoDup node.(pm_varNames) ->
  st.(env).(dataSets) !! ("WORK." +:+ node.(pm_datasetName)) = Some ds ->
  exists st',
    executeProcMeans node st = Normal tt st' /\
    st'.(env) = st.(env) /\
    st'.(lstLogger)
    = rev (map (meanLine ds.(ds_rows)) node.(pm_varNames))
      ++ [mkLog info ("Variable" +:+ tab +:+ "Mean") []]
      ++ (if String.eqb st.(env).(title) "" then []
          else [mkLog info "Title: {}" [AStr st.(env).(title)]])
      ++ [mkLog info "PROC MEANS Results for Dataset '{}':" [AStr ds.(ds_name)]]
      ++ st.(lstLogger).
Proof.
  intros Hnd Hds.
  destruct (fold_left (meansRow (pm_varNames node)) (ds_rows ds)
                      (meansInit (pm_varNames node))) as [sums counts] eqn:Efold.
  assert (Hline : forall var, In var (pm_varNames node) ->
            (if 0 <? default 0 (counts !! var)
             then lstM ("{}" +:+ tab +:+ "{:.2f}")
                       [AStr var;
                        ANum (div (default zero (sums !! var))
                                  (of_Z (default 0 (counts !! var))))]
             else lstM ("{}" +:+ tab +:+ ".") [AStr var])
            = lstM (fmt (meanLine (ds_rows ds) var))
                   (args (meanLine (ds_rows ds) var))).
  { intros var Hin.
    pose proof (means_of_variable _ _ (ds_rows ds) Hnd Hin) as Hacc.
    rewrite Efold in Hacc. unfold acc_of in Hacc. cbn [fst snd] in Hacc.
    injection Hacc as -> ->. cbn [default id]. unfold meanLine.
    destruct (numericValues var (ds_rows ds)) as [|d vals]; reflexivity. }
  unfold executeProcMeans.
  destruct st as [e ar bv rv ls lg lt].
  cbn [env lstLogger] in *.
  unfold bind at 1. unfold logM at 1, modify. st_simpl.
  unfold bind at 1. unfold getOrCreateDatasetM, getOrCreateDataset.
  unfold resolveLibref. cbn [String.eqb]. st_simpl. rewrite Hds. st_simpl.
  unfold bind at 1. unfold deref, bind at 1, getsEnv, gets. st_simpl.
  rewrite Hds. unfold ret at 1.
  unfold bind at 1, lstM at 1, modify. st_simpl.
  unfold bind at 1. st_simpl.
  rewrite Efold.
  rewrite (forM_ext _ _ _ Hline).
  assert (Hinfo : forall x, lvl (meanLine (ds_rows ds) x) = info).
  { intros x. unfold meanLine.
    destruct (numericValues x (ds_rows ds)); reflexivity. }
  destruct (String.eqb (title e) "") eqn:Et.
  - unfold bind at 1, ret at 1.
    unfold bind at 1, lstM at 1, modify. st_simpl.
    rewrite (forM_lstM _ _ Hinfo).
    eexists. split; [reflexivity |]. split; reflexivity.
  - unfold bind at 1, lstM at 1, modify. st_simpl.
    unfold bind at 1, lstM at 1, modify. st_simpl.
    rewrite (forM_lstM _ _ Hinfo).
    eexists. split; [reflexivity |]. split; [reflexivity |].
    reflexivity.
Qed.

End ProcMeans.

Lemma proc_means_writes_means_witness :
  exists st',
    executeProcMeans (mkProcMeans "in" ["x"]) (st_merge []) = Normal tt st' /\
    st'.(lstLogger)
    = [mkLog info ("{}" +:+ tab +:+ "{:.2f}") [AStr "x"; ANum (of_Z 2)];
       mkLog info ("Variable" +:+ tab +:+ "Mean") [];
       mkLog info "PROC MEANS Results for Dataset '{}':" [AStr "WORK.in"]].
Proof.
  destruct (proc_means_writes_means (mkProcMeans "in" ["x"]) (st_merge []) ds_in)
    as (st' & Hrun & _ & Hlst).
  - repeat constructor. intros Hin. inversion Hin.
  - vm_compute. reflexivity.
  - exists st'. split; [exact Hrun |]. rewrite Hlst. vm_compute. reflexivity.
Defined.

(** C6 as stated fails: for the dataset in, whose variable x takes the values
    1, 2, 3, PROC MEANS with VAR x writes the mean 2 and nothing else (no N,
    min, max or std); without a VAR list it writes the header only. *)
Lemma proc_means_only_mean :
  (exists st',
     executeProcMeans (mkProcMeans "in" ["x"]) (st_merge []) = Normal tt st' /\
     st'.(lstLogger)
     = [mkLog info ("{}" +:+ tab +:+ "{:.2f}") [AStr "x"; ANum (of_Z 2)];
        mkLog info ("Variable" +:+ tab +:+ "Mean") [];
        mkLog info "PROC MEANS Results for Dataset '{}':" [AStr "WORK.in"]]) /\
  (exists st',
     executeProcMeans (mkProcMeans "in" []) (st_merge []) = Normal tt st' /\
     st'.(lstLogger)
     = [mkLog info ("Variable" +:+ tab +:+ "Mean") [];
        mkLog info "PROC MEANS Results for Dataset '{}':" [AStr "WORK.in"]]).
Proof. split; eexists; split; vm_compute; reflexivity. Qed.

(** ** DO loops *)

Section DoLoops.

Context `{Platform}.

Lemma bind_normal {A B} (c : M A) (k : A -> M B) st a st' :
  c st = Normal a st' -> bind c k st = k a st'.
Proof. intros Hc. unfold bind. rewrite Hc. reflexivity. Qed.

Lemma bind_out_of_fuel {A B} (c : M A) (k : A -> M B) st st' :
  c st = OutOfFuel st' -> bind c k st = OutOfFuel st'.
Proof. intros Hc. unfold bind. rewrite Hc. reflexivity. Qed.

Lemma endless_test lg :
  doTest "i" bigger leb (st_loop lg) = Normal true (st_loop lg).
Proof. reflexivity. Qed.

Lemma endless_trip nested lg :
  bind (doBody nested [OutputNode]) (fun _ => doIncrement "i" one) (st_loop lg)
  = Normal tt (st_loop (output_record :: lg)).
Proof. reflexivity. Qed.

Lemma endless_while nested n : forall lg,
  while_ n (doTest "i" bigger leb)
         (bind (doBody nested [OutputNode]) (fun _ => doIncrement "i" one))
         (st_loop lg)
  = OutOfFuel (st_loop (repeat output_record n ++ lg)).
Proof.
  induction n as [|n IH]; intros lg.
  - reflexivity.
  - cbn [while_]. unfold bind at 1. rewrite endless_test.
    unfold bind at 1. rewrite endless_trip. rewrite IH.
    replace (repeat output_record n ++ output_record :: lg)
      with (repeat output_record (S n) ++ lg); [reflexivity |].
    cbn [repeat]. rewrite repeat_cons, <- app_assoc. reflexivity.
Qed.

Lemma endless_do n :
  executeDo (S n) "i" (NumberNode big) (NumberNode bigger) None [OutputNode]
            initial
  = OutOfFuel (st_loop (repeat output_record n ++ [starting_record])).
Proof.
  cbn [executeDo evaluate].
  do 5 (erewrite bind_normal by reflexivity).
  cbn [toNumber].
  change (gtb one zero) with true. cbn iota.
  erewrite bind_out_of_fuel; [reflexivity |].
  apply (endless_while (executeDo n) n [starting_record]).
Qed.

End DoLoops.

(** The iterative DO loop has no cap either: the loop [do i =
    1152921504606846976 to 2305843009213693952; output; end;], from 2^60 to
    2^61 by 1, executes its body 1,000,001 times, each execution leaving its
    record in the log, and it is still running then; no error is raised. *)
Lemma do_loop_exceeds_cap :
  exists st',
    @executeDo bare_platform (S (Z.to_nat 1000001)) "i"
               (NumberNode big) (NumberNode bigger) None [OutputNode] initial
    = OutOfFuel st' /\
    st'.(logLogger)
    = repeat output_record (Z.to_nat 1000001) ++ [starting_record].
Proof.
  exists (st_loop (repeat output_record (Z.to_nat 1000001) ++ [starting_record])).
  split; [| reflexivity].
  exact (@endless_do bare_platform (Z.to_nat 1000001)).
Qed.

(** ** The DATA step without OUTPUT *)

Section NoOutput.

Context `{Platform}.

Lemma keeps_ret {A} (a : A) : keeps (ret a).
Proof. intros st. reflexivity. Qed.

Lemma keeps_throw {A} e : keeps (@throw A e).
Proof. intros st. reflexivity. Qed.

Lemma keeps_undefined {A} : keeps (@undefined A).
Proof. intros st. exact I. Qed.

Lemma keeps_out_of_fuel {A} : keeps (@out_of_fuel A).
Proof. intros st. reflexivity. Qed.

Lemma keeps_bind {A B} (c : M A) (k : A -> M B) :
  keeps c -> (forall a, keeps (k a)) -> keeps (bind c k).
Proof.
  intros Hc Hk st. unfold bind. specialize (Hc st).
  destruct (c st) as [a st1 | e st1 | | st1]; try assumption.
  specialize (Hk a st1).
  destruct (k a st1) as [b st2 | e st2 | | st2]; congruence.
Qed.

Lemma keeps_modify (f : Interpreter -> Interpreter) :
  (forall st, (f st).(env).(dataSets) = st.(env).(dataSets)) ->
  keeps (modify f).
Proof. intros Hf st. apply Hf. Qed.

Lemma keeps_modifyEnv (f : DataEnvironment -> DataEnvironment) :
  (forall e, (f e).(dataSets) = e.(dataSets)) -> keeps (modifyEnv f).
Proof. intros Hf st. destruct st. apply Hf. Qed.

Lemma keeps_logM l f a : keeps (logM l f a).
Proof. intros st. destruct st. reflexivity. Qed.

Lemma keeps_lstM f a : keeps (lstM f a).
Proof. intros st. destruct st. reflexivity. Qed.

Lemma keeps_gets {A} (f : Interpreter -> A) : keeps (gets f).
Proof. intros st. reflexivity. Qed.

Lemma keeps_getsEnv {A} (f : DataEnvironment -> A) : keeps (getsEnv f).
Proof. intros st. reflexivity. Qed.

Lemma keeps_forM_ {A} (f : A -> M unit) (l : list A) :
  (forall x, In x l -> keeps (f x)) -> keeps (forM_ l f).
Proof.
  induction l as [|x l IH]; intros Hf; cbn [forM_].
  - apply keeps_ret.
  - apply keeps_bind; [apply Hf; left; reflexivity |].
    intros _. apply IH. intros y Hy. apply Hf. right. exact Hy.
Qed.

Lemma keeps_while_ n (cond : M bool) (trip : M unit) :
  keeps cond -> keeps trip -> keeps (while_ n cond trip).
Proof.
  intros Hc Ht. induction n as [|n IH]; cbn [while_].
  - apply keeps_out_of_fuel.
  - apply keeps_bind; [exact Hc |]. intros [|]; [| apply keeps_ret].
    apply keeps_bind; [exact Ht |]. intros _. exact IH.
Qed.

Lemma with_currentRow_dataSets f e :
  dataSets (with_currentRow f e) = dataSets e.
Proof. reflexivity. Qed.

(** The steps that make up the statements keep the catalog. *)
Ltac keeps_step :=
  match goal with
  | |- keeps (bind _ _) => apply keeps_bind; [| intros ?]
  | |- keeps (ret _) => apply keeps_ret
  | |- keeps (throw _) => apply keeps_throw
  | |- keeps undefined => apply keeps_undefined
  | |- keeps out_of_fuel => apply keeps_out_of_fuel
  | |- keeps (logM _ _ _) => apply keeps_logM
  | |- keeps (lstM _ _) => apply keeps_lstM
  | |- keeps (gets _) => apply keeps_gets
  | |- keeps (getsEnv _) => apply keeps_getsEnv
  | |- keeps (modifyEnv (with_currentRow _)) =>
    apply keeps_modifyEnv; intros ?; reflexivity
  | |- keeps (modifyEnv (setVariable _ _)) =>
    apply keeps_modifyEnv; intros ?; reflexivity
  | |- keeps (modifyEnv (with_variables _)) =>
    apply keeps_modifyEnv; intros ?; reflexivity
  | |- keeps (modify _) =>
    apply keeps_modify; intros st; destruct st; reflexivity
  | |- keeps (cast_int ?d) => unfold cast_int; destruct (double_to_int d)
  | |- keeps (int_result ?z) =>
    unfold int_result; destruct ((INT_MIN <=? z) && (z <=? INT_MAX))
  | |- keeps (get_string ?v) => destruct v; cbn [get_string]
  | |- keeps (if ?b then _ else _) => destruct b
  | |- keeps (match ?x with _ => _ end) => destruct x
  | |- keeps (let '(_, _) := ?x in _) => destruct x
  end.

Lemma keeps_getArrayElement a i : keeps (getArrayElement a i).
Proof.
  intros st. unfold getArrayElement.
  destruct (arrays st !! a) as [vars|]; [| reflexivity].
  destruct ((i <? 1) || (int_of_size (length vars) <? i)); [reflexivity |].
  destruct (vars !! Z.to_nat (i - 1)) as [v|]; [| exact I].
  destruct (row_find v (currentRow (env st))); reflexivity.
Qed.

Lemma keeps_evalBinary op l r : keeps (evalBinary op l r).
Proof. unfold evalBinary. repeat keeps_step. Qed.

Lemma keeps_evaluateFunctionCall ev f args :
  (forall a, In a args -> keeps (ev a)) ->
  keeps (evaluateFunctionCall ev f args).
Proof.
  intros Hev. unfold evaluateFunctionCall.
  repeat first
    [ keeps_step
    | match goal with
      | |- keeps (ev _) => apply Hev; cbn [In]; tauto
      end ].
Qed.

Lemma keeps_evaluate : forall node, keeps (evaluate node).
Proof.
  fix IH 1. intros node.
  destruct node; cbn [evaluate]; try apply keeps_throw.
  - apply keeps_ret.
  - apply keeps_ret.
  - repeat keeps_step.
  - apply keeps_evaluateFunctionCall.
    induction arguments as [|a arguments IHargs]; intros x Hx.
    + destruct Hx.
    + destruct Hx as [<- | Hx]; [apply IH | apply IHargs; exact Hx].
  - apply keeps_bind; [apply IH | intros v].
    apply keeps_bind; [repeat keeps_step | intros i].
    apply keeps_getArrayElement.
  - apply keeps_bind; [apply IH | intros lv].
    apply keeps_bind; [apply IH | intros rv].
    apply keeps_evalBinary.
Qed.

Lemma keeps_executeAssignment v e : keeps (executeAssignment v e).
Proof.
  unfold executeAssignment.
  apply keeps_bind; [apply keeps_evaluate | intros val].
  repeat keeps_step.
Qed.

Lemma keeps_executeOutput : keeps executeOutput.
Proof. apply keeps_logM. Qed.

Lemma keeps_executeIfThen c t : keeps (executeIfThen c t).
Proof.
  unfold executeIfThen.
  apply keeps_bind; [apply keeps_evaluate | intros cond].
  apply keeps_bind; [apply keeps_logM | intros _].
  destruct (neb (toNumber cond) zero); [| apply keeps_ret].
  apply keeps_forM_. intros stmt _.
  destruct stmt; try apply keeps_throw.
  - apply keeps_executeAssignment.
  - apply keeps_executeOutput.
Qed.

Lemma keeps_executeDrop vars : keeps (executeDrop vars).
Proof.
  unfold executeDrop. apply keeps_forM_. intros var _. repeat keeps_step.
Qed.

Lemma keeps_executeKeep vars : keeps (executeKeep vars).
Proof.
  unfold executeKeep. apply keeps_bind; [apply keeps_getsEnv | intros cur].
  apply keeps_forM_. intros var _. repeat keeps_step.
Qed.

Lemma keeps_executeRetain vars : keeps (executeRetain vars).
Proof.
  unfold executeRetain. apply keeps_forM_. intros var _. repeat keeps_step.
Qed.

Lemma keeps_executeArray a n vars : keeps (executeArray a n vars).
Proof. unfold executeArray. repeat keeps_step. Qed.

Lemma keeps_row_at k : keeps (row_at k).
Proof. unfold row_at. repeat keeps_step. Qed.

Lemma keeps_executeDo fuel : forall v s e i b, keeps (executeDo fuel v s e i b).
Proof.
  induction fuel as [|fuel IH]; intros v s e i b; cbn [executeDo].
  - apply keeps_out_of_fuel.
  - assert (Htrip : forall inc,
              keeps (bind (doBody (executeDo fuel) b)
                          (fun _ => doIncrement v inc))).
    { intros inc. apply keeps_bind.
      - unfold doBody. apply keeps_forM_. intros stmt _.
        destruct stmt; try apply keeps_throw.
        + apply keeps_executeAssignment.
        + apply keeps_executeIfThen.
        + apply keeps_executeOutput.
        + apply keeps_executeDrop.
        + apply keeps_executeKeep.
        + apply keeps_executeRetain.
        + apply keeps_executeArray.
        + apply IH.
      - intros _. unfold doIncrement.
        apply keeps_bind; [apply keeps_row_at | intros cur].
        repeat keeps_step. }
    assert (Htest : forall end_ test, keeps (doTest v end_ test)).
    { intros end_ test. unfold doTest.
      apply keeps_bind; [apply keeps_row_at | intros cur].
      repeat keeps_step. }
    apply keeps_bind; [apply keeps_evaluate | intros startVal].
    apply keeps_bind; [apply keeps_evaluate | intros endVal].
    apply keeps_bind.
    { destruct i as [inc|]; [| apply keeps_ret].
      apply keeps_bind; [apply keeps_evaluate | intros incVal].
      apply keeps_ret. }
    intros increment.
    apply keeps_bind; [apply keeps_logM | intros _].
    apply keeps_bind; [repeat keeps_step | intros _].
    apply keeps_bind.
    { destruct (gtb increment zero); [apply keeps_while_; auto |].
      destruct (ltb increment zero); [apply keeps_while_; auto |].
      apply keeps_throw. }
    intros _.
    apply keeps_bind; [apply keeps_row_at | intros cur].
    apply keeps_logM.
Qed.

Lemma keeps_flag_ret (c : M unit) f f' :
  keeps c -> shouldOutput f' = shouldOutput f ->
  keeps_flag f (bind c (fun _ => ret f')).
Proof.
  intros Hc Hf st. unfold bind. specialize (Hc st).
  destruct (c st) as [[] st1 | e st1 | | st1]; try assumption.
  split; assumption.
Qed.

Lemma executeStepStatement_no_output fuel stmt f :
  stmt <> OutputNode -> keeps_flag f (executeStepStatement fuel stmt f).
Proof.
  intros Hstmt. destruct stmt; cbn [executeStepStatement];
    try (intros st; reflexivity);
    try (apply keeps_flag_ret; [| reflexivity]).
  - apply keeps_executeAssignment.
  - apply keeps_executeIfThen.
  - contradiction.
  - apply keeps_executeDrop.
  - apply keeps_executeKeep.
  - apply keeps_executeRetain.
  - apply keeps_executeArray.
  - apply keeps_executeDo.
Qed.

Lemma executeStepStatements_no_output fuel stmts : forall f,
  Forall (fun s => s <> OutputNode) stmts ->
  keeps_flag f (executeStepStatements fuel stmts f).
Proof.
  induction stmts as [|stmt stmts IH]; intros f Hall; cbn [executeStepStatements].
  - intros st. split; reflexivity.
  - inversion Hall as [|? ? Hstmt Hrest]; subst.
    intros st. unfold bind.
    pose proof (executeStepStatement_no_output fuel stmt f Hstmt st) as H1.
    destruct (executeStepStatement fuel stmt f st) as [f1 st1 | e st1 | | st1];
      try assumption.
    destruct H1 as [Hf1 Hd1].
    pose proof (IH f1 Hrest st1) as H2.
    destruct (executeStepStatements fuel stmts f1 st1) as [f2 st2 | e st2 | | st2];
      first [congruence | destruct H2 as [Hf2 Hd2]; split; congruence].
Qed.

Lemma keeps_bind_flag {B} f (c : M StepFlags) (k : StepFlags -> M B) :
  keeps_flag f c ->
  (forall f', shouldOutput f' = shouldOutput f -> keeps (k f')) ->
  keeps (bind c k).
Proof.
  intros Hc Hk st. unfold bind. specialize (Hc st).
  destruct (c st) as [f' st1 | e st1 | | st1]; try assumption.
  destruct Hc as [Hf Hd]. specialize (Hk f' Hf st1).
  destruct (k f' st1) as [b st2 | e st2 | | st2]; congruence.
Qed.

(** One iteration of a DATA step whose body has no OUTPUT statement adds no
    row. *)
Lemma executeRow_no_output fuel inKey outKey outName stmts row before :
  Forall (fun s => s <> OutputNode) stmts ->
  keeps (executeRow fuel inKey outKey outName stmts row before).
Proof.
  intros Hall. unfold executeRow, keepOnly. cbn [forM_].
  apply keeps_bind; [repeat keeps_step | intros _].
  apply keeps_bind; [repeat keeps_step | intros _].
  apply (keeps_bind_flag (mkFlags false false false false));
    [apply executeStepStatements_no_output; exact Hall |].
  cbn [shouldOutput]. intros f Hf. rewrite Hf.
  repeat keeps_step.
Qed.

Lemma executeRows_no_output fuel inKey outKey outName stmts rows :
  Forall (fun s => s <> OutputNode) stmts ->
  forall before,
    keeps (executeRows fuel inKey outKey outName stmts rows before).
Proof.
  intros Hall. induction rows as [|row rows IH]; intros before;
    cbn [executeRows].
  - apply keeps_ret.
  - apply keeps_bind; [apply executeRow_no_output; exact Hall |].
    intros before'. apply IH.
Qed.

Lemma keeps_printDataset ds : keeps (printDataset ds).
Proof.
  unfold printDataset. apply keeps_bind; [apply keeps_lstM | intros _].
  apply keeps_forM_. intros [i row] _. apply keeps_lstM.
Qed.

Lemma keeps_rows_of_keeps {A} (c : M A) : keeps c -> keeps_rows c.
Proof.
  intros Hc st a st' Hrun key. specialize (Hc st). rewrite Hrun in Hc.
  unfold rows_of. rewrite Hc. reflexivity.
Qed.

Lemma keeps_rows_bind {A B} (c : M A) (k : A -> M B) :
  keeps_rows c -> (forall a, keeps_rows (k a)) -> keeps_rows (bind c k).
Proof.
  intros Hc Hk st b st' Hrun key. unfold bind in Hrun.
  destruct (c st) as [a st1 | e st1 | | st1] eqn:Ec; try discriminate Hrun.
  rewrite (Hk a st1 b st' Hrun key). exact (Hc st a st1 Ec key).
Qed.

Lemma keeps_rows_getOrCreate libref name :
  keeps_rows (getOrCreateDatasetM libref name).
Proof.
  intros st key st' Hrun k. unfold getOrCreateDatasetM, getOrCreateDataset in Hrun.
  destruct (dataSets (env st) !! resolveLibref libref name) eqn:E;
    injection Hrun as <- <-; destruct st as [e ? ? ? ? ? ?]; cbn [env with_env];
    [reflexivity |].
  unfold rows_of. destruct e; cbn in *.
  destruct (decide (resolveLibref libref name = k)) as [<- | Hne].
  - rewrite lookup_insert_eq, E. reflexivity.
  - rewrite lookup_insert_ne by assumption. reflexivity.
Qed.

Lemma keeps_rows_set_name key name :
  keeps_rows (modifyEnv (update_dataset key (set_name name))).
Proof.
  intros st a st' Hrun k. injection Hrun as _ <-.
  destruct st as [e ? ? ? ? ? ?]. destruct e. unfold rows_of. cbn.
  destruct (dataSets0 !! key) as [ds|] eqn:E; [| reflexivity].
  destruct (decide (key = k)) as [<- | Hne].
  - rewrite lookup_insert_eq, E. reflexivity.
  - rewrite lookup_insert_ne by assumption. reflexivity.
Qed.

Lemma keeps_deref key : keeps (deref key).
Proof. unfold deref. repeat keeps_step. Qed.

(** C1, on the code.  A DATA step whose body has no OUTPUT statement (and no
    MERGE) that runs to its end leaves the rows of every dataset as they
    were: no iteration writes a row to the output dataset, where the claim
    has an implicit OUTPUT at the end of each iteration. *)
Theorem data_step_without_output_adds_no_row
        fuel outputDataSet inputDataSet statements st st' :
  Forall (fun s => s <> OutputNode) statements ->
  findMerge statements = None ->
  executeDataStep fuel outputDataSet inputDataSet statements st = Normal tt st' ->
  forall key, rows_of key st'.(env) = rows_of key st.(env).
Proof.
  intros Hall Hmerge Hrun.
  enough (Hk : keeps_rows
                 (executeDataStep fuel outputDataSet inputDataSet statements))
    by exact (Hk st tt st' Hrun).
  clear Hrun. unfold executeDataStep. rewrite Hmerge.
  apply keeps_rows_bind; [apply keeps_rows_of_keeps, keeps_logM | intros _].
  destruct (split_dot outputDataSet) as [[ol od]|];
    destruct (split_dot inputDataSet) as [[il id]|].
  all: apply keeps_rows_bind; [apply keeps_rows_getOrCreate | intros inKey].
  all: apply keeps_rows_bind; [apply keeps_rows_getOrCreate | intros outKey].
  all: apply keeps_rows_bind; [apply keeps_rows_set_name | intros _].
  all: apply keeps_rows_of_keeps.
  all: apply keeps_bind; [apply keeps_deref | intros input].
  all: apply keeps_bind; [apply keeps_logM | intros _].
  all: apply keeps_bind; [apply keeps_logM | intros _].
  all: apply keeps_bind; [apply keeps_ret | intros _].
  all: apply keeps_bind; [apply keeps_deref | intros input'].
  all: apply keeps_bind; [apply executeRows_no_output; exact Hall | intros _].
  all: apply keeps_bind; [apply keeps_deref | intros output].
  all: apply keeps_bind; [apply keeps_logM | intros _].
  all: apply keeps_bind; [apply keeps_lstM | intros _].
  all: apply keeps_bind; [apply keeps_getsEnv | intros t].
  all: apply keeps_bind; [repeat keeps_step | intros _].
  all: apply keeps_printDataset.
Qed.

End NoOutput.

Lemma data_step_without_output_adds_no_row_witness :
  Forall (fun s => s <> OutputNode)
         [AssignmentNode "y" (NumberNode (of_Z 42))] /\
  exists st',
    @executeDataStep bare_platform 4 "res" "in"
       [AssignmentNode "y" (NumberNode (of_Z 42))] (st_merge [])
    = Normal tt st' /\
    length (rows_of "WORK.in" st'.(env)) = 3%nat /\
    rows_of "WORK.res" st'.(env) = [].
Proof.
  assert (Hall : Forall (fun s => s <> OutputNode)
                        [AssignmentNode "y" (NumberNode (of_Z 42))])
    by (repeat constructor; discriminate).
  split; [exact Hall |].
  destruct (@executeDataStep bare_platform 4 "res" "in"
              [AssignmentNode "y" (NumberNode (of_Z 42))] (st_merge []))
    as [[] st' | e st' | | st'] eqn:Hrun;
    try (vm_compute in Hrun; discriminate Hrun).
  exists st'. split; [reflexivity |].
  rewrite !(@data_step_without_output_adds_no_row bare_platform 4 "res" "in"
              [AssignmentNode "y" (NumberNode (of_Z 42))] (st_merge []) st'
              Hall eq_refl Hrun).
  split; reflexivity.
Defined.

(** ** Lexer: every scan ends *)

Section ScanTotal.

Import Lexer.

Lemma scanString_loop_total q tl tc : forall fuel lx value,
  (String.length (input lx) - pos lx < fuel)%nat ->
  exists r,
    scanString_loop fuel q tl tc lx value = Some r /\
    scanned_within lx tl tc r.
Proof.
  induction fuel as [|fuel IH]; intros lx value Hfuel; [lia |].
  cbn [scanString_loop].
  destruct (Nat.leb_spec (String.length (input lx)) (pos lx)) as [Hend | Hin].
  - eexists. split; reflexivity.
  - destruct (Ascii.eqb (peekChar lx) q).
    + destruct (Nat.ltb_spec (S (pos lx)) (String.length (input lx)))
        as [Hnext | Hlast]; cbn [andb].
      * destruct (match String.get (S (pos lx)) (input lx) with
                  | Some c' => Ascii.eqb c' q
                  | None => false
                  end).
        -- destruct (IH (add_col 2 (snd (getChar (snd (getChar lx)))))
                        (push_back value q)) as (r & Hr & Hw).
           { cbn. lia. }
           exists r. split; [exact Hr |].
           destruct r as [t lx' | msg]; [| exact Hw].
           cbn in Hw. cbn. intuition lia.
        -- eexists. split; [reflexivity |]. cbn. intuition lia.
      * eexists. split; [reflexivity |]. cbn. intuition lia.
    + destruct (IH (add_col 1 (snd (getChar lx)))
                   (push_back value (peekChar lx))) as (r & Hr & Hw).
      { cbn. lia. }
      exists r. split; [exact Hr |].
      destruct r as [t lx' | msg]; [| exact Hw].
      cbn in Hw. cbn. intuition lia.
Qed.

(** X1.  [scanString] returns on every text: started on a character of the
    text, it ends either with a STRING token that carries the line and
    column of the start, the lexer standing at least two characters further
    on and not beyond the end of the same text, or with the error
    "Unterminated string literal". *)
Theorem scanString_terminates (lx : Lexer) :
  (pos lx < String.length (input lx))%nat ->
  exists r,
    scanString lx = Some r /\
    match r with
    | Scanned t lx' =>
      tok_type t = STRING /\ tok_line t = line lx /\ tok_col t = col lx /\
      (pos lx + 2 <= pos lx' <= String.length (input lx))%nat /\
      input lx' = input lx /\ line lx' = line lx
    | LexError msg => msg = "Unterminated string literal"
    end.
Proof.
  intros Hpos. unfold scanString. cbn [getChar].
  destruct (scanString_loop_total (peekChar lx) (line lx) (col lx)
              (S (String.length (input lx) - pos lx))
              {| input := input lx; pos := S (pos lx);
                 line := line lx; col := S (col lx) |} EmptyString)
    as (r & Hr & Hw).
  { cbn. lia. }
  exists r. split; [exact Hr |].
  destruct r as [t lx' | msg]; [| exact Hw].
  cbn in Hw. intuition lia.
Qed.

End ScanTotal.

Lemma scanString_terminates_witness :
  (4 < String.length "x = 'I''m here.';")%nat /\
  exists r,
    Lexer.scanString (Lexer.mkLexer "x = 'I''m here.';" 4 1 5) = Some r /\
    match r with
    | Lexer.Scanned t lx' =>
      tok_type t = STRING /\ tok_line t = 1%nat /\ tok_col t = 5%nat /\
      (4 + 2 <= Lexer.pos lx' <= String.length "x = 'I''m here.';")%nat /\
      Lexer.input lx' = "x = 'I''m here.';" /\ Lexer.line lx' = 1%nat
    | Lexer.LexError msg => msg = "Unterminated string literal"
    end.
Proof.
  assert (Hpos : (4 < String.length "x = 'I''m here.';")%nat)
    by (vm_compute; lia).
  split; [exact Hpos |].
  exact (scanString_terminates (Lexer.mkLexer "x = 'I''m here.';" 4 1 5) Hpos).
Defined.

(** ** Expressions *)

Section Expressions.

Context `{Platform}.

Lemma evaluate_binary_node op lhs rhs st lv st1 rv st2 :
  evaluate lhs st = Normal lv st1 ->
  evaluate rhs st1 = Normal rv st2 ->
  evaluate (BinaryOpNode op lhs rhs) st
  = evalBinary op (toNumber lv) (toNumber rv) st2.
Proof.
  intros Hl Hr. cbn [evaluate]. unfold bind. rewrite Hl, Hr. reflexivity.
Qed.

(** X3.  A division whose right operand is zero (of either sign) yields the
    missing value and raises no error; any other division is the IEEE
    quotient of the operands converted to numbers. *)
Theorem division_by_zero_is_missing lhs rhs st lv st1 rv st2 :
  evaluate lhs st = Normal lv st1 ->
  evaluate rhs st1 = Normal rv st2 ->
  evaluate (BinaryOpNode "/" lhs rhs) st
  = Normal (VNum (if eqb (toNumber rv) zero then nan
                  else div (toNumber lv) (toNumber rv))) st2.
Proof.
  intros Hl Hr. rewrite (evaluate_binary_node _ _ _ _ _ _ _ _ Hl Hr).
  unfold evalBinary. cbn [String.eqb Ascii.eqb Bool.eqb]. unfold neb, ret, eqb.
  destruct (SFeqb (toNumber rv) zero); reflexivity.
Qed.

(** X4.  Once both operands are evaluated, a binary node yields a number for
    each of the twelve operators of [binary_operators]: the four of
    arithmetic, the six comparisons and the two logical operators "and" and
    "or" (spelled exactly so), the number being 0 or 1 for the comparisons
    and the logical operators; for any other operator it throws "Unsupported
    binary operator: " followed by the operator. *)
Theorem binary_operator_supported op lhs rhs st lv st1 rv st2 :
  evaluate lhs st = Normal lv st1 ->
  evaluate rhs st1 = Normal rv st2 ->
  (In op binary_operators ->
   exists d,
     evaluate (BinaryOpNode op lhs rhs) st = Normal (VNum d) st2 /\
     (In op truth_operators -> d = zero \/ d = one)) /\
  (~ In op binary_operators ->
   evaluate (BinaryOpNode op lhs rhs) st
   = Throw (runtime_error ("Unsupported binary operator: " +:+ op)) st2).
Proof.
  intros Hl Hr. rewrite (evaluate_binary_node _ _ _ _ _ _ _ _ Hl Hr).
  split.
  - intros Hin. unfold binary_operators in Hin. cbn [In] in Hin.
    repeat destruct Hin as [<- | Hin]; try destruct Hin;
      (eexists; split; [reflexivity |]); intros Ht;
      first
        [ match goal with
          | |- b2d ?b = zero \/ b2d ?b = one =>
            destruct b; [right | left]; reflexivity
          end
        | exfalso; unfold truth_operators in Ht; cbn [In] in Ht;
          repeat destruct Ht as [Ht | Ht]; solve [discriminate Ht | exact Ht] ].
  - intros Hnot. unfold evalBinary.
    repeat match goal with
    | |- context [String.eqb op ?s] =>
      destruct (String.eqb_spec op s) as [-> | _];
        [exfalso; apply Hnot; unfold binary_operators; cbn [In]; tauto |]
    end.
    reflexivity.
Qed.

Lemma logs_only_refl st : logs_only st st.
Proof. exists []. destruct st. reflexivity. Qed.

Lemma logs_only_trans st1 st2 st3 :
  logs_only st1 st2 -> logs_only st2 st3 -> logs_only st1 st3.
Proof.
  intros [r1 ->] [r2 ->]. exists (r2 ++ r1).
  destruct st1. unfold add_logs. cbn. rewrite app_assoc. reflexivity.
Qed.

Lemma logs_only_log l f a st : logs_only st (log l f a st).
Proof. exists [mkLog l f a]. reflexivity. Qed.

Section Stays.

Variable R : Interpreter -> Interpreter -> Prop.
Hypothesis R_refl : forall st, R st st.
Hypothesis R_trans : forall st1 st2 st3, R st1 st2 -> R st2 st3 -> R st1 st3.

Lemma stays_ret {A} (a : A) : stays R (ret a).
Proof. intros st. apply R_refl. Qed.

Lemma stays_throw {A} e : stays R (@throw A e).
Proof. intros st. apply R_refl. Qed.

Lemma stays_undefined {A} : stays R (@undefined A).
Proof. intros st. exact I. Qed.

Lemma stays_out_of_fuel {A} : stays R (@out_of_fuel A).
Proof. intros st. apply R_refl. Qed.

Lemma stays_gets {A} (f : Interpreter -> A) : stays R (gets f).
Proof. intros st. apply R_refl. Qed.

Lemma stays_bind {A B} (c : M A) (k : A -> M B) :
  stays R c -> (forall a, stays R (k a)) -> stays R (bind c k).
Proof.
  intros Hc Hk st. unfold bind. specialize (Hc st).
  destruct (c st) as [a st1 | e st1 | | st1]; try assumption.
  specialize (Hk a st1).
  destruct (k a st1) as [b st2 | e st2 | | st2]; eauto.
Qed.

Lemma stays_modify (f : Interpreter -> Interpreter) :
  (forall st, R st (f st)) -> stays R (modify f).
Proof. intros Hf st. apply Hf. Qed.

Lemma stays_forM_ {A} (f : A -> M unit) (l : list A) :
  (forall x, In x l -> stays R (f x)) -> stays R (forM_ l f).
Proof.
  induction l as [|x l IH]; intros Hf; cbn [forM_].
  - apply stays_ret.
  - apply stays_bind; [apply Hf; left; reflexivity |].
    intros _. apply IH. intros y Hy. apply Hf. right. exact Hy.
Qed.

End Stays.

Ltac logs_step :=
  match goal with
  | |- stays logs_only (bind _ _) =>
    apply (stays_bind _ logs_only_trans); [| intros ?]
  | |- stays logs_only (ret _) => apply (stays_ret _ logs_only_refl)
  | |- stays logs_only (throw _) => apply (stays_throw _ logs_only_refl)
  | |- stays logs_only undefined => apply stays_undefined
  | |- stays logs_only (gets _) => apply (stays_gets _ logs_only_refl)
  | |- stays logs_only (modify (log _ _ _)) =>
    apply stays_modify; intros ?; apply logs_only_log
  | |- stays logs_only (cast_int ?d) => unfold cast_int; destruct (double_to_int d)
  | |- stays logs_only (int_result ?z) =>
    unfold int_result; destruct ((INT_MIN <=? z) && (z <=? INT_MAX))
  | |- stays logs_only (get_string ?v) => destruct v; cbn [get_string]
  | |- stays logs_only (if ?b then _ else _) => destruct b
  | |- stays logs_only (match ?x with _ => _ end) => destruct x
  | |- stays logs_only (let '(_, _) := ?x in _) => destruct x
  end.

Lemma logs_only_getArrayElement a i : stays logs_only (getArrayElement a i).
Proof.
  intros st. unfold getArrayElement.
  destruct (arrays st !! a) as [vars|]; [| apply logs_only_refl].
  destruct ((i <? 1) || (int_of_size (length vars) <? i));
    [apply logs_only_refl |].
  destruct (vars !! Z.to_nat (i - 1)) as [v|]; [| exact I].
  destruct (row_find v (currentRow (env st))); apply logs_only_refl.
Qed.

Lemma logs_only_evaluateFunctionCall ev f args :
  (forall a, In a args -> stays logs_only (ev a)) ->
  stays logs_only (evaluateFunctionCall ev f args).
Proof.
  intros Hev. unfold evaluateFunctionCall.
  repeat first
    [ logs_step
    | match goal with
      | |- stays logs_only (ev _) => apply Hev; cbn [In]; tauto
      end ].
Qed.

Lemma stays_evaluate : forall node, stays logs_only (evaluate node).
Proof.
  fix IH 1. intros node.
  destruct node; cbn [evaluate]; try apply (stays_throw _ logs_only_refl).
  - logs_step.
  - logs_step.
  - repeat logs_step.
  - apply logs_only_evaluateFunctionCall.
    induction arguments as [|a arguments IHargs]; intros x Hx.
    + destruct Hx.
    + destruct Hx as [<- | Hx]; [apply IH | apply IHargs; exact Hx].
  - apply (stays_bind _ logs_only_trans); [apply IH | intros v].
    apply (stays_bind _ logs_only_trans); [repeat logs_step | intros i].
    apply logs_only_getArrayElement.
  - apply (stays_bind _ logs_only_trans); [apply IH | intros lv].
    apply (stays_bind _ logs_only_trans); [apply IH | intros rv].
    unfold evalBinary. repeat logs_step.
Qed.

(** X2.  Evaluating an expression changes nothing but the log: whether the
    evaluation returns, throws or runs out of fuel, the environment (the
    datasets, the current row, the variables), the arrays, the BY variables,
    the loop stack and the listing are as before, and the log has only
    gained records. *)
Theorem evaluate_changes_only_log node st :
  match evaluate node st with
  | Normal _ st' | Throw _ st' | OutOfFuel st' =>
    st'.(env) = st.(env) /\
    st'.(arrays) = st.(arrays) /\
    st'.(byVariables) = st.(byVariables) /\
    st'.(retainVars) = st.(retainVars) /\
    st'.(loopStack) = st.(loopStack) /\
    st'.(lstLogger) = st.(lstLogger) /\
    exists recs, st'.(logLogger) = recs ++ st.(logLogger)
  | Undefined => True
  end.
Proof.
  pose proof (stays_evaluate node st) as Hlogs.
  destruct (evaluate node st) as [v st' | e st' | | st']; try exact I;
    destruct Hlogs as [recs ->]; destruct st; cbn;
    repeat split; exists recs; reflexivity.
Qed.

End Expressions.

Lemma division_by_zero_is_missing_witness :
  @evaluate bare_platform
    (BinaryOpNode "/" (NumberNode one) (NumberNode zero)) initial
  = Normal (VNum nan) initial.
Proof.
  exact (@division_by_zero_is_missing bare_platform
           (NumberNode one) (NumberNode zero) initial (VNum one) initial
           (VNum zero) initial eq_refl eq_refl).
Defined.

Lemma binary_operator_supported_witness :
  (exists d,
     @evaluate bare_platform
       (BinaryOpNode "<" (NumberNode one) (NumberNode zero)) initial
     = Normal (VNum d) initial /\ (d = zero \/ d = one)) /\
  @evaluate bare_platform
    (BinaryOpNode "**" (NumberNode one) (NumberNode zero)) initial
  = Throw (runtime_error "Unsupported binary operator: **") initial.
Proof.
  split.
  - destruct (proj1 (@binary_operator_supported bare_platform "<"
                       (NumberNode one) (NumberNode zero) initial (VNum one)
                       initial (VNum zero) initial eq_refl eq_refl))
      as (d & Hd & Htruth).
    + unfold binary_operators. cbn [In]. tauto.
    + exists d. split; [exact Hd |]. apply Htruth.
      unfold truth_operators. cbn [In]. tauto.
  - apply (proj2 (@binary_operator_supported bare_platform "**"
                    (NumberNode one) (NumberNode zero) initial (VNum one)
                    initial (VNum zero) initial eq_refl eq_refl)).
    unfold binary_operators. cbn [In].
    intros Hin. repeat destruct Hin as [Hin | Hin];
      solve [discriminate Hin | exact Hin].
Defined.

(** ** Built-in functions *)

(** Unfolding the call of a function whose name is given in lower case. *)
Ltac call_function name :=
  cbn [evaluate]; unfold evaluateFunctionCall;
  change (map_string Stod.tolower name) with name;
  cbn [String.eqb Ascii.eqb Bool.eqb].

Section StringFunctions.

Context `{Platform}.

Lemma strip_right_spec s :
  exists blanks,
    s = strip_right s +:+ blanks /\ all_blank blanks = true /\
    forall c, last_char (strip_right s) = Some c -> is_blank c = false.
Proof.
  induction s as [|c s (blanks & Hs & Hb & Hlast)].
  - exists EmptyString. repeat split. intros c Hc. discriminate Hc.
  - cbn [strip_right]. destruct (strip_right s) as [|d t] eqn:E.
    + destruct (is_blank c) eqn:Ec.
      * exists (String c s). cbn [append] in Hs. subst blanks.
        repeat split; [cbn [all_blank]; rewrite Ec, Hb; reflexivity |].
        intros c' Hc'. discriminate Hc'.
      * exists s. cbn [append] in Hs. subst blanks.
        repeat split; [exact Hb |].
        intros c' Hc'. injection Hc' as <-. exact Ec.
    + exists blanks. cbn [append] in *. rewrite <- Hs.
      repeat split; [exact Hb |].
      intros c' Hc'. apply Hlast. exact Hc'.
Qed.

Lemma strip_left_spec s :
  exists blanks,
    s = blanks +:+ strip_left s /\ all_blank blanks = true /\
    forall c, first_char (strip_left s) = Some c -> is_blank c = false.
Proof.
  induction s as [|c s (blanks & Hs & Hb & Hfirst)].
  - exists EmptyString. repeat split. intros c Hc. discriminate Hc.
  - cbn [strip_left]. destruct (is_blank c) eqn:Ec.
    + exists (String c blanks). cbn [append all_blank]. rewrite <- Hs, Ec, Hb.
      repeat split. exact Hfirst.
    + exists EmptyString. repeat split.
      intros c' Hc'. injection Hc' as <-. exact Ec.
Qed.

(** X7.  TRIM, and RIGHT, which runs the same code, return the text of
    their argument without its trailing blanks (space, tab, carriage return,
    line feed): the argument is the result followed by blanks only, and the
    result does not end in a blank. *)
Theorem trim_strips_trailing_blanks a st s st1 :
  evaluate a st = Normal (VStr s) st1 ->
  exists t blanks,
    evaluate (FunctionCallNode "trim" [a]) st = Normal (VStr t) st1 /\
    evaluate (FunctionCallNode "right" [a]) st = Normal (VStr t) st1 /\
    s = t +:+ blanks /\
    all_blank blanks = true /\
    forall c, last_char t = Some c -> is_blank c = false.
Proof.
  intros Ha. destruct (strip_right_spec s) as (blanks & Hs & Hb & Hlast).
  exists (strip_right s), blanks.
  split; [| split; [| auto]].
  - call_function "trim". unfold bind. rewrite Ha. reflexivity.
  - call_function "right". unfold bind. rewrite Ha. reflexivity.
Qed.

(** X8.  LEFT returns the text of its argument without its leading blanks:
    the argument is blanks only followed by the result, and the result does
    not start with a blank. *)
Theorem left_strips_leading_blanks a st s st1 :
  evaluate a st = Normal (VStr s) st1 ->
  exists t blanks,
    evaluate (FunctionCallNode "left" [a]) st = Normal (VStr t) st1 /\
    s = blanks +:+ t /\
    all_blank blanks = true /\
    forall c, first_char t = Some c -> is_blank c = false.
Proof.
  intros Ha. destruct (strip_left_spec s) as (blanks & Hs & Hb & Hfirst).
  exists (strip_left s), blanks.
  split; [| auto].
  call_function "left". unfold bind. rewrite Ha. reflexivity.
Qed.


Lemma tolower_toupper c : Stod.tolower (Stod.toupper c) = Stod.tolower c.
Proof. destruct c as [[] [] [] [] [] [] [] []]; reflexivity. Qed.

Lemma toupper_tolower c : Stod.toupper (Stod.tolower c) = Stod.toupper c.
Proof. destruct c as [[] [] [] [] [] [] [] []]; reflexivity. Qed.

Lemma map_string_length f s : String.length (map_string f s) = String.length s.
Proof. induction s as [|c s IH]; cbn; [| rewrite IH]; reflexivity. Qed.

Lemma map_string_compose f g h s :
  (forall c, f (g c) = h c) ->
  map_string f (map_string g s) = map_string h s.
Proof.
  intros Hc. induction s as [|c s IH]; cbn [map_string];
    [| rewrite Hc, IH]; reflexivity.
Qed.

Lemma get_map_string f s : forall i,
  String.get i (map_string f s) = option_map f (String.get i s).
Proof.
  induction s as [|c s IH]; intros [|i]; cbn [map_string String.get option_map];
    try reflexivity.
  apply IH.
Qed.

(** X9.  UPCASE and LOWCASE change nothing but the case of letters: the
    result has the length of the argument; at each position UPCASE has the
    capital letter where the argument has a small letter a to z, LOWCASE the
    small letter where the argument has a capital letter A to Z, and both
    have the character of the argument otherwise.  Hence the upper case of
    the LOWCASE result is the UPCASE result, and the lower case of the
    UPCASE result is the LOWCASE result. *)
Theorem upcase_lowcase a st s st1 :
  evaluate a st = Normal (VStr s) st1 ->
  exists u l,
    evaluate (FunctionCallNode "upcase" [a]) st = Normal (VStr u) st1 /\
    evaluate (FunctionCallNode "lowcase" [a]) st = Normal (VStr l) st1 /\
    String.length u = String.length s /\
    String.length l = String.length s /\
    (forall i c,
       String.get i s = Some c ->
       String.get i u
       = Some (if is_lower c then ascii_of_nat (nat_of_ascii c - 32) else c) /\
       String.get i l
       = Some (if is_upper c then ascii_of_nat (nat_of_ascii c + 32) else c)) /\
    map_string Stod.toupper l = u /\
    map_string Stod.tolower u = l.
Proof.
  intros Ha.
  exists (map_string Stod.toupper s), (map_string Stod.tolower s).
  split; [call_function "upcase"; unfold bind; rewrite Ha; reflexivity |].
  split; [call_function "lowcase"; unfold bind; rewrite Ha; reflexivity |].
  split; [apply map_string_length |].
  split; [apply map_string_length |].
  split.
  - intros i c Hc. rewrite !get_map_string, Hc. split; reflexivity.
  - split.
    + apply map_string_compose, toupper_tolower.
    + apply map_string_compose, tolower_toupper.
Qed.

(** X5.  Function names are matched without regard to case: a call under
    the upper-cased or the lower-cased name runs as the call under the name
    as written. *)
Theorem function_name_case_insensitive name arguments st :
  evaluate (FunctionCallNode (map_string Stod.toupper name) arguments) st
  = evaluate (FunctionCallNode name arguments) st /\
  evaluate (FunctionCallNode (map_string Stod.tolower name) arguments) st
  = evaluate (FunctionCallNode name arguments) st.
Proof.
  assert (Hlow : forall c, Stod.tolower (Stod.tolower c) = Stod.tolower c)
    by (intros c; destruct c as [[] [] [] [] [] [] [] []]; reflexivity).
  split; cbn [evaluate]; unfold evaluateFunctionCall.
  - rewrite (map_string_compose _ _ Stod.tolower name tolower_toupper).
    reflexivity.
  - rewrite (map_string_compose _ _ Stod.tolower name Hlow). reflexivity.
Qed.

End StringFunctions.

Lemma trim_strips_trailing_blanks_witness :
  exists t blanks,
    @evaluate bare_platform (FunctionCallNode "trim" [StringNode "ab  "])
              initial = Normal (VStr t) initial /\
    @evaluate bare_platform (FunctionCallNode "right" [StringNode "ab  "])
              initial = Normal (VStr t) initial /\
    "ab  " = t +:+ blanks /\
    all_blank blanks = true /\
    forall c, last_char t = Some c -> is_blank c = false.
Proof.
  exact (@trim_strips_trailing_blanks bare_platform (StringNode "ab  ")
           initial "ab  " initial eq_refl).
Defined.

Lemma left_strips_leading_blanks_witness :
  exists t blanks,
    @evaluate bare_platform (FunctionCallNode "left" [StringNode "  ab"])
              initial = Normal (VStr t) initial /\
    "  ab" = blanks +:+ t /\
    all_blank blanks = true /\
    forall c, first_char t = Some c -> is_blank c = false.
Proof.
  exact (@left_strips_leading_blanks bare_platform (StringNode "  ab")
           initial "  ab" initial eq_refl).
Defined.

Lemma upcase_lowcase_witness :
  exists u l,
    @evaluate bare_platform (FunctionCallNode "upcase" [StringNode "Ab1"])
              initial = Normal (VStr u) initial /\
    @evaluate bare_platform (FunctionCallNode "lowcase" [StringNode "Ab1"])
              initial = Normal (VStr l) initial /\
    String.length u = 3%nat /\
    String.length l = 3%nat /\
    (forall i c,
       String.get i "Ab1" = Some c ->
       String.get i u
       = Some (if is_lower c then ascii_of_nat (nat_of_ascii c - 32) else c) /\
       String.get i l
       = Some (if is_upper c then ascii_of_nat (nat_of_ascii c + 32) else c)) /\
    map_string Stod.toupper l = u /\
    map_string Stod.tolower u = l.
Proof.
  exact (@upcase_lowcase bare_platform (StringNode "Ab1") initial "Ab1"
           initial eq_refl).
Defined.

Section Substr.

Context `{Platform}.

Lemma substring_clip (s : string) : forall n m m' : nat,
  (String.length s <= n + m)%nat -> (String.length s <= n + m')%nat ->
  String.substring n m s = String.substring n m' s.
Proof.
  induction s as [|c s IH]; intros n m m' Hm Hm'.
  - destruct n, m, m'; reflexivity.
  - cbn [String.length] in *. destruct n as [|n].
    + destruct m as [|m]; [lia |]. destruct m' as [|m']; [lia |].
      cbn [String.substring]. f_equal. apply (IH 0%nat); lia.
    + cbn [String.substring]. apply IH; lia.
Qed.

Lemma substring_length (s : string) : forall n m : nat,
  (n + m <= String.length s)%nat ->
  String.length (String.substring n m s) = m.
Proof.
  induction s as [|c s IH]; intros n m Hm.
  - cbn [String.length] in Hm. destruct n, m; try lia; reflexivity.
  - cbn [String.length] in Hm. destruct n as [|n].
    + destruct m as [|m]; [reflexivity |].
      cbn [String.substring String.length]. f_equal. apply IH. lia.
    + cbn [String.substring]. apply IH. lia.
Qed.

Lemma int_wrap_small z : INT_MIN <= z <= INT_MAX -> int_wrap z = z.
Proof.
  unfold INT_MIN, INT_MAX, int_wrap. intros Hz.
  rewrite Z.mod_small by lia. lia.
Qed.

Lemma int_result_small z :
  INT_MIN <= z <= INT_MAX -> int_result z = ret z.
Proof.
  intros Hz. unfold int_result.
  replace ((INT_MIN <=? z) && (z <=? INT_MAX)) with true; [reflexivity |].
  symmetry. apply andb_true_intro. split; apply Z.leb_le; lia.
Qed.

Lemma double_to_int_range d z :
  double_to_int d = Some z -> INT_MIN <= z <= INT_MAX.
Proof.
  unfold double_to_int. destruct (trunc d) as [t|]; [| discriminate].
  destruct ((INT_MIN <=? t) && (t <=? INT_MAX)) eqn:E; [| discriminate].
  intros [= <-]. apply andb_prop in E. destruct E as [E1 E2].
  apply Z.leb_le in E1. apply Z.leb_le in E2. lia.
Qed.

(** X6.  SUBSTR counts positions from 1.  With the position [p] and the
    length [n] as the arguments convert to [int], a position outside the
    text gives the empty text and no error; a position inside it gives, with
    two arguments, the rest of the text from that position, and with three
    arguments [n] characters from it, cut at the end of the text; a negative
    [n] gives the rest of the text. *)
Theorem substr_bounds a0 a1 a2 st s st1 pv st2 lv st3 p n :
  evaluate a0 st = Normal (VStr s) st1 ->
  evaluate a1 st1 = Normal pv st2 ->
  evaluate a2 st2 = Normal lv st3 ->
  double_to_int (toNumber pv) = Some p ->
  double_to_int (toNumber lv) = Some n ->
  Z.of_nat (String.length s) <= INT_MAX ->
  INT_MIN < p ->
  p - 1 + n <= INT_MAX ->
  let len := Z.of_nat (String.length s) in
  let rest := len - (p - 1) in
  let taken := if n <? 0 then rest else Z.min n rest in
  let sub k := String.substring (Z.to_nat (p - 1)) (Z.to_nat k) s in
  (~ (1 <= p <= len) ->
   evaluate (FunctionCallNode "substr" [a0; a1]) st = Normal (VStr "") st2 /\
   evaluate (FunctionCallNode "substr" [a0; a1; a2]) st = Normal (VStr "") st3)
  /\
  (1 <= p <= len ->
   evaluate (FunctionCallNode "substr" [a0; a1]) st
   = Normal (VStr (sub rest)) st2 /\
   evaluate (FunctionCallNode "substr" [a0; a1; a2]) st
   = Normal (VStr (sub taken)) st3 /\
   Z.of_nat (String.length (sub rest)) = rest /\
   Z.of_nat (String.length (sub taken)) = taken).
Proof.
  intros H0 H1 H2 Hp Hn Hlen Hmin Hsum len rest taken sub.
  pose proof (double_to_int_range _ _ Hp) as Rp.
  pose proof (double_to_int_range _ _ Hn) as Rn.
  assert (E2 : evaluate (FunctionCallNode "substr" [a0; a1]) st
    = if (p - 1 <? 0) || (len <=? p - 1) then Normal (VStr "") st2
      else Normal (VStr (sub rest)) st2).
  { call_function "substr". unfold bind. rewrite H0. cbn [get_string ret].
    rewrite H1. cbn [ret]. unfold cast_int. rewrite Hp. cbn [ret].
    rewrite int_result_small by (unfold INT_MIN, INT_MAX in *; lia).
    cbn [ret]. rewrite int_of_size_small by exact Hlen. fold len.
    destruct ((p - 1 <? 0) || (len <=? p - 1)) eqn:Eb; [reflexivity |].
    apply orb_false_elim in Eb. destruct Eb as [Eb1 Eb2].
    apply Z.ltb_ge in Eb1. apply Z.leb_gt in Eb2.
    rewrite int_wrap_small by (unfold INT_MIN, INT_MAX in *; lia).
    rewrite int_result_small by (unfold INT_MIN, INT_MAX in *; lia).
    cbn [ret]. fold rest.
    replace (len <? p - 1 + rest) with false
      by (symmetry; apply Z.ltb_ge; unfold rest; lia).
    replace (rest <? 0) with false
      by (symmetry; apply Z.ltb_ge; unfold rest; lia).
    reflexivity. }
  assert (E3 : evaluate (FunctionCallNode "substr" [a0; a1; a2]) st
    = if (p - 1 <? 0) || (len <=? p - 1) then Normal (VStr "") st3
      else Normal (VStr (sub taken)) st3).
  { call_function "substr". unfold bind. rewrite H0. cbn [get_string ret].
    rewrite H1. cbn [ret]. unfold cast_int. rewrite Hp. cbn [ret].
    rewrite int_result_small by (unfold INT_MIN, INT_MAX in *; lia).
    cbn [ret]. rewrite H2. cbn [ret]. rewrite Hn. cbn [ret].
    rewrite int_of_size_small by exact Hlen. fold len.
    destruct ((p - 1 <? 0) || (len <=? p - 1)) eqn:Eb; [reflexivity |].
    apply orb_false_elim in Eb. destruct Eb as [Eb1 Eb2].
    apply Z.ltb_ge in Eb1. apply Z.leb_gt in Eb2.
    rewrite int_result_small by (unfold INT_MIN, INT_MAX in *; lia).
    cbn [ret].
    rewrite int_wrap_small by (unfold INT_MIN, INT_MAX in *; lia).
    fold rest. f_equal. f_equal. unfold sub, taken.
    destruct (Z.ltb_spec len (p - 1 + n)) as [Hbig | Hfit].
    - replace (rest <? 0) with false
        by (symmetry; apply Z.ltb_ge; unfold rest; lia).
      replace (n <? 0) with false
        by (symmetry; apply Z.ltb_ge; unfold rest in *; lia).
      f_equal. unfold rest in *. lia.
    - destruct (Z.ltb_spec n 0) as [Hneg | Hpos].
      + apply substring_clip; unfold rest, len in *; lia.
      + f_equal. unfold rest in *. lia. }
  split.
  - intros Hout.
    assert (Eb : (p - 1 <? 0) || (len <=? p - 1) = true).
    { apply orb_true_iff.
      destruct (Z.ltb_spec (p - 1) 0); [left; reflexivity | right].
      apply Z.leb_le. lia. }
    rewrite E2, E3, Eb. split; reflexivity.
  - intros Hin.
    assert (Eb : (p - 1 <? 0) || (len <=? p - 1) = false).
    { apply orb_false_intro; [apply Z.ltb_ge | apply Z.leb_gt]; lia. }
    rewrite E2, E3, Eb. repeat split.
    + unfold sub. rewrite substring_length; unfold rest, len in *; lia.
    + unfold sub. rewrite substring_length; unfold taken, rest, len in *.
      * destruct (Z.ltb_spec n 0); lia.
      * destruct (Z.ltb_spec n 0); lia.
Qed.

End Substr.

Lemma substr_bounds_witness :
  @evaluate bare_platform
    (FunctionCallNode "substr" [StringNode "hello"; NumberNode (of_Z 2)])
    initial = Normal (VStr "ello") initial /\
  @evaluate bare_platform
    (FunctionCallNode "substr"
       [StringNode "hello"; NumberNode (of_Z 2); NumberNode (of_Z 3)])
    initial = Normal (VStr "ell") initial.
Proof.
  assert (Hlen : Z.of_nat (String.length "hello") <= INT_MAX)
    by (vm_compute; discriminate).
  assert (Hmin : INT_MIN < 2) by reflexivity.
  assert (Hsum : 2 - 1 + 3 <= INT_MAX) by (vm_compute; discriminate).
  destruct (proj2 (@substr_bounds bare_platform
                     (StringNode "hello") (NumberNode (of_Z 2))
                     (NumberNode (of_Z 3)) initial "hello" initial
                     (VNum (of_Z 2)) initial (VNum (of_Z 3)) initial 2 3
                     eq_refl eq_refl eq_refl eq_refl eq_refl Hlen Hmin Hsum))
    as (H2 & H3 & _).
  - vm_compute. split; discriminate.
  - split; [exact H2 | exact H3].
Defined.

Section Functions.

Context `{Platform}.

(** X10.  The three functions treat an argument outside their domain
    differently: LOG of a number that is zero or negative returns the
    missing value and writes a warning to the log, and so does SQRT of a
    negative number, while LOG10 of a number that is zero or negative throws
    "log10 function argument must be positive." *)
Theorem logarithm_of_nonpositive a st v st1 :
  evaluate a st = Normal v st1 ->
  leb (toNumber v) zero = true ->
  evaluate (FunctionCallNode "log" [a]) st
  = Normal (VNum nan)
      (log warn "log() received a non-positive value. Returning NaN." [] st1)
  /\
  evaluate (FunctionCallNode "log10" [a]) st
  = Throw (runtime_error "log10 function argument must be positive.") st1
  /\
  (ltb (toNumber v) zero = true ->
   evaluate (FunctionCallNode "sqrt" [a]) st
   = Normal (VNum nan)
       (log warn "sqrt() received a negative value. Returning NaN." [] st1)).
Proof.
  intros Ha Hle. repeat split.
  - call_function "log". unfold bind. rewrite Ha. cbn [ret]. rewrite Hle.
    reflexivity.
  - call_function "log10". unfold bind. rewrite Ha. cbn [ret]. rewrite Hle.
    reflexivity.
  - intros Hlt. call_function "sqrt". unfold bind. rewrite Ha. cbn [ret].
    rewrite Hlt. reflexivity.
Qed.

(** X11.  SUBSTR, TRIM, LEFT, RIGHT, UPCASE and LOWCASE take the text of
    their first argument without converting it: when that argument
    evaluates to a number, the call throws [std::bad_variant_access], which
    is not a [std::runtime_error]. *)
Theorem string_function_of_number f a rest st d st1 :
  In f string_functions ->
  evaluate a st = Normal (VNum d) st1 ->
  (f = "substr" -> length rest = 1%nat \/ length rest = 2%nat) ->
  (f <> "substr" -> rest = []) ->
  evaluate (FunctionCallNode f (a :: rest)) st = Throw bad_variant_access st1.
Proof.
  intros Hf Ha Hsub Hone. unfold string_functions in Hf. cbn [In] in Hf.
  destruct Hf as [<- | Hf].
  - destruct (Hsub eq_refl) as [Hl | Hl];
      destruct rest as [|a1 [|a2 [|a3 rest]]]; try discriminate Hl;
      call_function "substr"; unfold bind; rewrite Ha; reflexivity.
  - repeat destruct Hf as [<- | Hf]; try destruct Hf;
      rewrite Hone by discriminate;
      match goal with
      | |- evaluate (FunctionCallNode ?name _) _ = _ => call_function name
      end;
      unfold bind; rewrite Ha; reflexivity.
Qed.

(** X12.  [executeProgram] catches [std::runtime_error] only: when a
    top-level statement throws [std::bad_variant_access], the exception
    leaves [executeProgram], and the statements after it are not
    executed. *)
Theorem bad_variant_access_ends_program fuel pre stmt post st st1 st2 :
  executeProgram fuel pre st = Normal tt st1 ->
  execute fuel stmt st1 = Throw bad_variant_access st2 ->
  executeProgram fuel (pre ++ stmt :: post) st = Throw bad_variant_access st2.
Proof.
  intros Hpre Hstmt. unfold executeProgram in *.
  rewrite forM_app. unfold bind at 1. rewrite Hpre.
  cbn [forM_]. unfold bind. unfold tryExecute at 1. rewrite Hstmt.
  reflexivity.
Qed.

End Functions.

Lemma logarithm_of_nonpositive_witness :
  @evaluate bare_platform (FunctionCallNode "log" [NumberNode (of_Z (-1))])
            initial
  = Normal (VNum nan)
      (log warn "log() received a non-positive value. Returning NaN." []
           initial) /\
  @evaluate bare_platform (FunctionCallNode "log10" [NumberNode (of_Z (-1))])
            initial
  = Throw (runtime_error "log10 function argument must be positive.") initial
  /\
  @evaluate bare_platform (FunctionCallNode "sqrt" [NumberNode (of_Z (-1))])
            initial
  = Normal (VNum nan)
      (log warn "sqrt() received a negative value. Returning NaN." []
           initial).
Proof.
  destruct (@logarithm_of_nonpositive bare_platform (NumberNode (of_Z (-1)))
              initial (VNum (of_Z (-1))) initial eq_refl eq_refl)
    as (Hlog & Hlog10 & Hsqrt).
  split; [exact Hlog | split; [exact Hlog10 | exact (Hsqrt eq_refl)]].
Defined.

Lemma string_function_of_number_witness :
  @evaluate bare_platform (FunctionCallNode "upcase" [NumberNode one]) initial
  = Throw bad_variant_access initial.
Proof.
  apply (@string_function_of_number bare_platform "upcase" (NumberNode one)
           [] initial one initial).
  - unfold string_functions. cbn [In]. tauto.
  - reflexivity.
  - intros Hf. discriminate Hf.
  - intros _. reflexivity.
Defined.

Lemma bad_variant_access_ends_program_witness :
  exists st2,
    @executeProgram bare_platform 3
      [TitleNode "before";
       IfElseIfNode (FunctionCallNode "upcase" [NumberNode one]) [] [] [];
       TitleNode "after"] initial
    = Throw bad_variant_access st2 /\
    title (env st2) = "before".
Proof.
  eexists. split.
  - eapply (@bad_variant_access_ends_program bare_platform 3
              [TitleNode "before"]
              (IfElseIfNode (FunctionCallNode "upcase" [NumberNode one])
                            [] [] [])
              [TitleNode "after"] initial).
    + vm_compute. reflexivity.
    + vm_compute. reflexivity.
  - reflexivity.
Defined.

(** ** DROP and KEEP *)

Section DropKeep.

Context `{Platform}.

Lemma row_find_not_key k (r : Row) :
  ~ In k (row_keys r) -> row_find k r = None.
Proof.
  induction r as [|[k' v'] r IH]; intros Hk; cbn [row_find].
  - reflexivity.
  - cbn [row_keys map fst In] in Hk.
    destruct (String.eqb_spec k k') as [-> | Hne]; [tauto |].
    apply IH. intros Hin. apply Hk. right. exact Hin.
Qed.

Lemma row_keys_erase k k' (r : Row) :
  In k (row_keys (row_erase k' r)) -> In k (row_keys r).
Proof.
  induction r as [|[k'' v''] r IH]; cbn [row_erase]; [tauto |].
  destruct (String.eqb k' k''); cbn [row_keys map fst In] in *.
  - tauto.
  - intros [-> | Hin]; [left; reflexivity | right; apply IH; exact Hin].
Qed.

Lemma row_erase_NoDup k (r : Row) :
  NoDup (row_keys r) -> NoDup (row_keys (row_erase k r)).
Proof.
  induction r as [|[k' v'] r IH]; cbn [row_erase]; [tauto |].
  cbn [row_keys map fst]. intros Hnd. apply NoDup_cons in Hnd.
  destruct Hnd as [Hk' Hnd].
  destruct (String.eqb k k'); [exact Hnd |].
  cbn [row_keys map fst]. apply NoDup_cons. split; [| apply IH; exact Hnd].
  intros Hin. apply Hk'. apply list_elem_of_In.
  apply (row_keys_erase k' k r). apply list_elem_of_In. exact Hin.
Qed.

Lemma row_find_erase k k' (r : Row) :
  NoDup (row_keys r) ->
  row_find k (row_erase k' r)
  = if String.eqb k k' then None else row_find k r.
Proof.
  induction r as [|[k'' v''] r IH]; cbn [row_erase row_find]; intros Hnd.
  - destruct (String.eqb k k'); reflexivity.
  - cbn [row_keys map fst] in Hnd. apply NoDup_cons in Hnd.
    destruct Hnd as [Hk'' Hnd].
    destruct (String.eqb_spec k' k'') as [<- | Hne'].
    + destruct (String.eqb_spec k k') as [-> | Hne].
      * apply row_find_not_key. intros Hin. apply Hk''.
        apply list_elem_of_In. exact Hin.
      * reflexivity.
    + cbn [row_find]. destruct (String.eqb_spec k k'') as [-> | Hne''].
      * destruct (String.eqb_spec k'' k') as [-> | _]; [tauto | reflexivity].
      * apply IH. exact Hnd.
Qed.

Lemma mem_In x l : mem x l = true <-> In x l.
Proof.
  unfold mem. rewrite existsb_exists. split.
  - intros (y & Hy & E). apply String.eqb_eq in E. subst y. exact Hy.
  - intros Hx. exists x. split; [exact Hx | apply String.eqb_refl].
Qed.


Lemma currentRow_erase var st :
  currentRow (env (with_env (with_currentRow (row_erase var)) st))
  = row_erase var (currentRow (env st)).
Proof. destruct st as [e ? ? ? ? ? ?]. destruct e. reflexivity. Qed.

(** X13.  DROP removes exactly the listed variables from the current row:
    afterwards a listed variable is absent, every other variable has the
    value it had, no dataset has changed and the log has one record more for
    each listed name, whether the row had the variable or not. *)
Theorem drop_removes_variables vars : forall st,
  NoDup (row_keys st.(env).(currentRow)) ->
  exists st',
    executeDrop vars st = Normal tt st' /\
    (forall k, row_find k st'.(env).(currentRow)
               = if mem k vars then None
                 else row_find k st.(env).(currentRow)) /\
    NoDup (row_keys st'.(env).(currentRow)) /\
    st'.(env).(dataSets) = st.(env).(dataSets) /\
    length st'.(logLogger) = (length vars + length st.(logLogger))%nat.
Proof.
  induction vars as [|var vars IH]; intros st Hnd.
  - exists st. repeat split; assumption.
  - set (st1 := log info "Dropped variable '{}'." [AStr var]
                    (with_env (with_currentRow (row_erase var)) st)).
    assert (Hrow1 : currentRow (env st1) = row_erase var (currentRow (env st)))
      by (destruct st as [e ? ? ? ? ? ?]; destruct e; reflexivity).
    destruct (IH st1) as (st' & Hrun & Hfind & Hnd' & Hds & Hlog).
    { rewrite Hrow1. apply row_erase_NoDup. exact Hnd. }
    exists st'. split; [exact Hrun |]. split; [| split; [exact Hnd' | split]].
    + intros k. rewrite Hfind, Hrow1. cbn [mem existsb].
      fold (mem k vars). rewrite row_find_erase by exact Hnd.
      destruct (String.eqb k var), (mem k vars); reflexivity.
    + rewrite Hds. destruct st as [e ? ? ? ? ? ?]. destruct e. reflexivity.
    + rewrite Hlog. destruct st. cbn. lia.
Qed.

Lemma keep_loop vars ks : forall st,
  NoDup (row_keys st.(env).(currentRow)) ->
  exists st',
    forM_ ks (fun var =>
      if mem var vars then ret tt
      else
        bind (modifyEnv (with_currentRow (row_erase var))) (fun _ =>
        logM info "Kept variable '{}'; other variables dropped." [AStr var]))
      st = Normal tt st' /\
    (forall k, row_find k st'.(env).(currentRow)
               = if mem k ks && negb (mem k vars) then None
                 else row_find k st.(env).(currentRow)) /\
    NoDup (row_keys st'.(env).(currentRow)) /\
    st'.(env).(dataSets) = st.(env).(dataSets).
Proof.
  induction ks as [|var ks IH]; intros st Hnd.
  - exists st. repeat split; assumption.
  - cbn [forM_]. unfold bind at 1. destruct (mem var vars) eqn:Ev.
    + cbn [ret]. destruct (IH st Hnd) as (st' & Hrun & Hfind & Hnd' & Hds).
      exists st'. split; [exact Hrun |]. split; [| split; assumption].
      intros k. rewrite Hfind. cbn [mem existsb]. fold (mem k ks).
      destruct (String.eqb_spec k var) as [-> | Hne]; [| reflexivity].
      rewrite Ev. cbn [orb negb]. rewrite andb_false_r. reflexivity.
    + set (st1 := log info "Kept variable '{}'; other variables dropped."
                      [AStr var]
                      (with_env (with_currentRow (row_erase var)) st)).
      assert (Hrow1 : currentRow (env st1)
                      = row_erase var (currentRow (env st)))
        by (destruct st as [e ? ? ? ? ? ?]; destruct e; reflexivity).
      destruct (IH st1) as (st' & Hrun & Hfind & Hnd' & Hds).
      { rewrite Hrow1. apply row_erase_NoDup. exact Hnd. }
      exists st'. split; [exact Hrun |]. split; [| split; [exact Hnd' |]].
      * intros k. rewrite Hfind, Hrow1. cbn [mem existsb]. fold (mem k ks).
        rewrite row_find_erase by exact Hnd.
        destruct (String.eqb_spec k var) as [-> | Hne].
        -- rewrite Ev. cbn [orb negb andb].
           destruct (mem var ks); reflexivity.
        -- reflexivity.
      * rewrite Hds. destruct st as [e ? ? ? ? ? ?]. destruct e. reflexivity.
Qed.

(** X14.  KEEP leaves exactly the listed variables in the current row: a
    listed variable keeps its value (and stays absent when it was absent),
    every other variable is removed, and no dataset changes. *)
Theorem keep_leaves_listed_variables vars st :
  NoDup (row_keys st.(env).(currentRow)) ->
  exists st',
    executeKeep vars st = Normal tt st' /\
    (forall k, row_find k st'.(env).(currentRow)
               = if mem k vars then row_find k st.(env).(currentRow)
                 else None) /\
    NoDup (row_keys st'.(env).(currentRow)) /\
    st'.(env).(dataSets) = st.(env).(dataSets).
Proof.
  intros Hnd.
  destruct (keep_loop vars (row_keys st.(env).(currentRow)) st Hnd)
    as (st' & Hrun & Hfind & Hnd' & Hds).
  exists st'. split; [exact Hrun |]. split; [| split; assumption].
  intros k. rewrite Hfind.
  destruct (mem k vars) eqn:Ev; cbn [negb]; [rewrite andb_false_r; reflexivity |].
  rewrite andb_true_r.
  destruct (mem k (row_keys (currentRow (env st)))) eqn:Ek; [reflexivity |].
  apply row_find_not_key. intros Hin. apply mem_In in Hin. congruence.
Qed.

End DropKeep.

Lemma drop_removes_variables_witness :
  exists st',
    executeDrop ["a"] st_array = Normal tt st' /\
    (forall k, row_find k st'.(env).(currentRow)
               = if mem k ["a"] then None
                 else row_find k st_array.(env).(currentRow)) /\
    NoDup (row_keys st'.(env).(currentRow)) /\
    st'.(env).(dataSets) = st_array.(env).(dataSets) /\
    length st'.(logLogger) = (1 + length st_array.(logLogger))%nat.
Proof.
  apply (drop_removes_variables ["a"] st_array).
  refine (bool_decide_unpack _ _). vm_compute. exact I.
Defined.

Lemma keep_leaves_listed_variables_witness :
  exists st',
    executeKeep ["a"] st_array = Normal tt st' /\
    (forall k, row_find k st'.(env).(currentRow)
               = if mem k ["a"] then row_find k st_array.(env).(currentRow)
                 else None) /\
    NoDup (row_keys st'.(env).(currentRow)) /\
    st'.(env).(dataSets) = st_array.(env).(dataSets).
Proof.
  apply (keep_leaves_listed_variables ["a"] st_array).
  refine (bool_decide_unpack _ _). vm_compute. exact I.
Defined.

(** ** Arrays: elements and variables *)

Section ArraysMore.

Context `{Platform}.

Lemma in_bounds (vars : list string) (i : Z) :
  Z.of_nat (length vars) <= INT_MAX ->
  1 <= i <= Z.of_nat (length vars) ->
  (i <? 1) || (int_of_size (length vars) <? i) = false.
Proof.
  intros Hn Hi. rewrite int_of_size_small by assumption.
  apply orb_false_intro; apply Z.ltb_ge; lia.
Qed.

(** X15.  An array element is the variable of the current row it names:
    after a value is stored in an element, reading an element of any array
    gives that value when the two elements name the same variable, and
    otherwise the value of its own variable as before the store, or 0 when
    the row has no such variable. *)
Theorem array_elements_alias_variables st a b va vb (i j : Z) x y v :
  st.(arrays) !! a = Some va ->
  st.(arrays) !! b = Some vb ->
  Z.of_nat (length va) <= INT_MAX ->
  Z.of_nat (length vb) <= INT_MAX ->
  va !! Z.to_nat (i - 1) = Some x ->
  vb !! Z.to_nat (j - 1) = Some y ->
  1 <= i -> 1 <= j ->
  exists st',
    setArrayElement a i v st = Normal tt st' /\
    getArrayElement b j st'
    = Normal (if String.eqb x y then v
              else default (VNum zero) (row_find y st.(env).(currentRow)))
             st'.
Proof.
  intros Ha Hb Hna Hnb Hx Hy Hi Hj.
  assert (Hi' : 1 <= i <= Z.of_nat (length va)).
  { apply lookup_lt_Some in Hx. lia. }
  assert (Hj' : 1 <= j <= Z.of_nat (length vb)).
  { apply lookup_lt_Some in Hy. lia. }
  exists (with_env (with_currentRow (row_set x v)) st). split.
  - unfold setArrayElement. rewrite Ha, (in_bounds va i Hna Hi'), Hx.
    reflexivity.
  - unfold getArrayElement.
    replace (arrays (with_env (with_currentRow (row_set x v)) st))
      with (arrays st) by (destruct st; reflexivity).
    rewrite Hb, (in_bounds vb j Hnb Hj'), Hy.
    replace (currentRow (env (with_env (with_currentRow (row_set x v)) st)))
      with (row_set x v (currentRow (env st)))
      by (destruct st as [e ? ? ? ? ? ?]; destruct e; reflexivity).
    destruct (String.eqb_spec x y) as [-> | Hne].
    + rewrite row_find_set_eq. reflexivity.
    + rewrite row_find_set_ne by congruence.
      destruct (row_find y (currentRow (env st))); reflexivity.
Qed.

(** X16.  An ARRAY statement whose size differs from the number of listed
    variables throws "Array size does not match the number of variables."
    and declares nothing; otherwise it declares the array, leaves the rows
    and the other arrays as they are, and element [i] reads the [i]-th
    listed variable, 0 when the current row does not have it. *)
Theorem array_declaration arrayName size variables st :
  Z.of_nat (length variables) <= INT_MAX ->
  (size <> Z.of_nat (length variables) ->
   exists st',
     executeArray arrayName size variables st
     = Throw (runtime_error
                "Array size does not match the number of variables.") st' /\
     st'.(arrays) = st.(arrays) /\ st'.(env) = st.(env))
  /\
  (size = Z.of_nat (length variables) ->
   exists st',
     executeArray arrayName size variables st = Normal tt st' /\
     st'.(env) = st.(env) /\
     (forall other, other <> arrayName ->
                    st'.(arrays) !! other = st.(arrays) !! other) /\
     forall i, 1 <= i <= size ->
       exists varName,
         variables !! Z.to_nat (i - 1) = Some varName /\
         getArrayElement arrayName i st'
         = Normal (default (VNum zero)
                           (row_find varName st.(env).(currentRow))) st').
Proof.
  intros Hn. split.
  - intros Hsize. eexists. unfold executeArray, bind, logM, modify.
    rewrite int_of_size_small by exact Hn.
    replace (size =? Z.of_nat (length variables)) with false
      by (symmetry; apply Z.eqb_neq; exact Hsize).
    cbn [negb]. split; [reflexivity |]. destruct st; split; reflexivity.
  - intros ->. eexists. unfold executeArray, bind, logM, modify.
    rewrite int_of_size_small by exact Hn. rewrite Z.eqb_refl. cbn [negb].
    split; [reflexivity |]. split; [destruct st; reflexivity |]. split.
    + intros other Hne. destruct st. cbn.
      apply lookup_insert_ne. congruence.
    + intros i Hi.
      destruct (lookup_lt_is_Some_2 variables (Z.to_nat (i - 1)))
        as [varName Hv]; [lia |].
      exists varName. split; [exact Hv |].
      unfold getArrayElement. destruct st as [e ar ? ? ? ? ?]. cbn.
      rewrite lookup_insert_eq. cbn.
      rewrite (in_bounds variables i Hn Hi), Hv.
      destruct (row_find varName (currentRow e)); reflexivity.
Qed.

End ArraysMore.

Lemma array_elements_alias_variables_witness :
  exists st',
    setArrayElement "arr" 1 (VNum one)
      (with_arrays (<["other" := ["c"; "a"]]>) st_array) = Normal tt st' /\
    getArrayElement "other" 2 st' = Normal (VNum one) st'.
Proof.
  apply (array_elements_alias_variables
           (with_arrays (<["other" := ["c"; "a"]]>) st_array)
           "arr" "other" ["a"; "b"; "c"] ["c"; "a"] 1 2 "a" "a" (VNum one)).
  - vm_compute. reflexivity.
  - vm_compute. reflexivity.
  - vm_compute. discriminate.
  - vm_compute. discriminate.
  - reflexivity.
  - reflexivity.
  - vm_compute. discriminate.
  - vm_compute. discriminate.
Defined.

Lemma array_declaration_witness :
  (exists st',
     @executeArray "x" 2 ["a"; "b"; "c"] initial
     = Throw (runtime_error
                "Array size does not match the number of variables.") st' /\
     st'.(arrays) = initial.(arrays) /\ st'.(env) = initial.(env)) /\
  (exists st',
     executeArray "arr" 3 ["a"; "b"; "c"] initial = Normal tt st' /\
     st'.(env) = initial.(env) /\
     (forall other, other <> "arr" ->
                    st'.(arrays) !! other = initial.(arrays) !! other) /\
     forall i, 1 <= i <= 3 ->
       exists varName,
         ["a"; "b"; "c"] !! Z.to_nat (i - 1) = Some varName /\
         getArrayElement "arr" i st'
         = Normal (default (VNum zero)
                           (row_find varName initial.(env).(currentRow))) st').
Proof.
  assert (Hn : Z.of_nat (length ["a"; "b"; "c"]) <= INT_MAX)
    by (vm_compute; discriminate).
  split.
  - apply (proj1 (array_declaration "x" 2 ["a"; "b"; "c"] initial Hn)).
    discriminate.
  - exact (proj2 (array_declaration "arr" 3 ["a"; "b"; "c"] initial Hn)
                 eq_refl).
Defined.

(** ** Iterative DO loops: the edges *)

Section DoMore.

Context `{Platform}.

(** X17.  An iterative DO loop whose BY value is neither above nor below
    zero, that is zero or missing, throws "DO loop increment cannot be
    zero." after it has assigned the start value to the loop variable and
    logged the start of the loop; the body is not executed. *)
Theorem do_increment_zero_or_missing
        fuel loopVar startExpr endExpr incExpr body st sv st1 ev st2 iv st3 :
  evaluate startExpr st = Normal sv st1 ->
  evaluate endExpr st1 = Normal ev st2 ->
  evaluate incExpr st2 = Normal iv st3 ->
  gtb (toNumber iv) zero = false ->
  ltb (toNumber iv) zero = false ->
  executeDo (S fuel) loopVar startExpr endExpr (Some incExpr) body st
  = Throw (runtime_error "DO loop increment cannot be zero.")
      (with_env (with_currentRow (row_set loopVar (VNum (toNumber sv))))
        (log info "Starting DO loop: {} = {} to {} by {}"
             [AStr loopVar; ANum (toNumber sv); ANum (toNumber ev);
              ANum (toNumber iv)] st3)).
Proof.
  intros Hs He Hi Hgt Hlt. cbn [executeDo]. unfold bind.
  rewrite Hs, He, Hi. cbn [ret logM modify modifyEnv].
  rewrite Hgt, Hlt. reflexivity.
Qed.

(** X18.  An iterative DO loop whose start value is already beyond the end
    value in the direction of the increment (the increment is 1 when there
    is no BY) does not execute its body: the loop variable holds the start
    value afterwards, and the log gets the start and the completion record
    and nothing else. *)
Theorem do_start_beyond_end
        fuel loopVar startExpr endExpr incrementExpr body
        st sv st1 ev st2 iv st3 :
  evaluate startExpr st = Normal sv st1 ->
  evaluate endExpr st1 = Normal ev st2 ->
  match incrementExpr with
  | Some e => evaluate e st2 = Normal iv st3
  | None => iv = VNum one /\ st3 = st2
  end ->
  gtb (toNumber iv) zero = true /\ leb (toNumber sv) (toNumber ev) = false \/
  ltb (toNumber iv) zero = true /\ geb (toNumber sv) (toNumber ev) = false ->
  exists st',
    executeDo (S (S fuel)) loopVar startExpr endExpr incrementExpr body st
    = Normal tt st' /\
    st'.(env).(currentRow)
    = row_set loopVar (VNum (toNumber sv)) st3.(env).(currentRow) /\
    st'.(logLogger)
    = [mkLog info "Completed DO loop: {} reached {}"
             [AStr loopVar; AStr (toString (VNum (toNumber sv)))];
       mkLog info "Starting DO loop: {} = {} to {} by {}"
             [AStr loopVar; ANum (toNumber sv); ANum (toNumber ev);
              ANum (toNumber iv)]]
      ++ st3.(logLogger).
Proof.
  intros Hs He Hi Hpast.
  assert (Hgt : forall d, ltb d zero = true -> gtb d zero = false).
  { intros d. unfold ltb, gtb, SFltb, zero.
    destruct d as [[]|[]| |[] m e]; cbn; congruence. }
  eexists. cbn [executeDo]. unfold bind. rewrite Hs, He.
  destruct incrementExpr as [e|];
    [rewrite Hi | destruct Hi as [-> <-]];
    cbn [ret logM modify modifyEnv toNumber]; cbn [toNumber] in Hpast;
    destruct st3 as [e3 ? ? ? ? ? ?]; destruct e3;
    (destruct Hpast as [[Hg Hle] | [Hl Hge]];
     [ rewrite Hg; cbn [while_]; unfold bind;
       unfold doTest, row_at, bind, getsEnv, gets; cbn;
       rewrite row_find_set_eq; cbn; rewrite Hle; cbn;
       rewrite row_find_set_eq; cbn; repeat split
     | rewrite (Hgt _ Hl), Hl; cbn [while_]; unfold bind;
       unfold doTest, row_at, bind, getsEnv, gets; cbn;
       rewrite row_find_set_eq; cbn; rewrite Hge; cbn;
       rewrite row_find_set_eq; cbn; repeat split ]).
Qed.

End DoMore.

Lemma do_increment_zero_or_missing_witness :
  @executeDo bare_platform 1 "i" (NumberNode one) (NumberNode (of_Z 3))
             (Some (NumberNode zero)) [OutputNode] initial
  = Throw (runtime_error "DO loop increment cannot be zero.")
      (with_env (with_currentRow (row_set "i" (VNum one)))
        (log info "Starting DO loop: {} = {} to {} by {}"
             [AStr "i"; ANum one; ANum (of_Z 3); ANum zero] initial)).
Proof.
  exact (@do_increment_zero_or_missing bare_platform 0 "i"
           (NumberNode one) (NumberNode (of_Z 3)) (NumberNode zero)
           [OutputNode] initial (VNum one) initial (VNum (of_Z 3)) initial
           (VNum zero) initial eq_refl eq_refl eq_refl eq_refl eq_refl).
Defined.

Lemma do_start_beyond_end_witness :
  exists st',
    @executeDo bare_platform 2 "i" (NumberNode (of_Z 3)) (NumberNode one)
               None [OutputNode] initial = Normal tt st' /\
    st'.(env).(currentRow)
    = row_set "i" (VNum (of_Z 3)) initial.(env).(currentRow) /\
    st'.(logLogger)
    = [mkLog info "Completed DO loop: {} reached {}"
             [AStr "i"; AStr (toString (VNum (of_Z 3)))];
       mkLog info "Starting DO loop: {} = {} to {} by {}"
             [AStr "i"; ANum (of_Z 3); ANum one; ANum one]]
      ++ initial.(logLogger).
Proof.
  exact (@do_start_beyond_end bare_platform 0 "i"
           (NumberNode (of_Z 3)) (NumberNode one) None [OutputNode]
           initial (VNum (of_Z 3)) initial (VNum one) initial
           (VNum one) initial eq_refl eq_refl (conj eq_refl eq_refl)
           (or_introl (conj eq_refl eq_refl))).
Defined.

(** ** DO WHILE and DO UNTIL *)

Section LoopsMore.

Context `{Platform}.

(** X19.  A DO WHILE loop whose condition is false at entry, and a DO UNTIL
    loop whose condition is true at entry, ends without executing its body:
    the state changes only by log records, the first of them "Entering DO
    loop" and the last "Exiting DO loop". *)
Theorem do_loop_condition_false exec fuel c isWhile body st v st1 :
  let node := DoLoopNode (Some c) isWhile body in
  evaluate c (with_loopStack (cons (node, O))
                (log info "Entering DO loop" [] st)) = Normal v st1 ->
  (if isWhile then loopCondition v else negb (loopCondition v)) = false ->
  exists recs,
    executeDoLoop exec (S fuel) node st
    = Normal tt
        (add_logs (mkLog info "Exiting DO loop" []
                     :: (recs ++ [mkLog info "Entering DO loop" []])) st).
Proof.
  intros node Hc Hcond. subst node.
  set (node := DoLoopNode (Some c) isWhile body) in *.
  set (st0 := with_loopStack (cons (node, O))
                (log info "Entering DO loop" [] st)) in *.
  pose proof (stays_evaluate c st0) as Hlogs.
  rewrite Hc in Hlogs. destruct Hlogs as [recs ->]. exists recs.
  unfold executeDoLoop, bind, logM, modify. cbn [doLoopWhile]. unfold bind.
  unfold gets at 1. fold st0.
  replace (loopStack st0) with ((node, 0%nat) :: loopStack st)
    by (destruct st; reflexivity).
  cbn [Nat.leb MAX_ITERATIONS]. unfold node at 1. cbv iota.
  rewrite Hc. cbn [ret]. rewrite Hcond. unfold modify, logM, modify.
  subst st0. destruct st. unfold add_logs, log, with_loopStack. cbn.
  rewrite <- app_assoc. reflexivity.
Qed.

End LoopsMore.

Lemma do_loop_condition_false_witness :
  exists recs,
    @executeDoLoop bare_platform (@execute bare_platform 0) 1
      (DoLoopNode (Some (NumberNode zero)) true (BlockNode [OutputNode])) initial
    = Normal tt
        (add_logs (mkLog info "Exiting DO loop" []
                     :: (recs ++ [mkLog info "Entering DO loop" []]))
                  initial).
Proof.
  eapply (@do_loop_condition_false bare_platform (@execute bare_platform 0) 0
            (NumberNode zero) true (BlockNode [OutputNode]) initial).
  - reflexivity.
  - reflexivity.
Defined.

(** ** The DATA step: rows written *)

Section StepMore.

Context `{Platform}.

Lemma keeps_normal {A} (c : M A) st a st' :
  keeps c -> c st = Normal a st' ->
  st'.(env).(dataSets) = st.(env).(dataSets).
Proof. intros Hc Hrun. specialize (Hc st). rewrite Hrun in Hc. exact Hc. Qed.

Lemma keeps_step_statement fuel stmt f st f' st' :
  executeStepStatement fuel stmt f st = Normal f' st' ->
  st'.(env).(dataSets) = st.(env).(dataSets) /\
  (shouldOutput f = true \/ stmt = OutputNode -> shouldOutput f' = true).
Proof.
  intros Hrun.
  destruct stmt; cbn [executeStepStatement] in Hrun; try discriminate Hrun;
    unfold bind in Hrun;
    match type of Hrun with
    | match ?c st with _ => _ end = _ =>
      let E := fresh "E" in
      destruct (c st) as [[] st1 | e st1 | | st1] eqn:E;
        try discriminate Hrun;
        injection Hrun as <- <-;
        split;
        [ eapply keeps_normal; [| exact E]
        | cbn [shouldOutput];
          first [ reflexivity
                | intros [Hf | Hs]; [exact Hf | discriminate Hs] ] ]
    end.
  - apply keeps_executeAssignment.
  - apply keeps_executeIfThen.
  - apply keeps_executeOutput.
  - apply keeps_executeDrop.
  - apply keeps_executeKeep.
  - apply keeps_executeRetain.
  - apply keeps_executeArray.
  - apply keeps_executeDo.
Qed.

Lemma keeps_step_statements fuel stmts : forall f st f' st',
  executeStepStatements fuel stmts f st = Normal f' st' ->
  st'.(env).(dataSets) = st.(env).(dataSets) /\
  (shouldOutput f = true \/ In OutputNode stmts -> shouldOutput f' = true).
Proof.
  induction stmts as [|stmt stmts IH]; intros f st f' st' Hrun;
    cbn [executeStepStatements] in Hrun.
  - injection Hrun as <- <-. split; [reflexivity |].
    intros [Hf | []]. exact Hf.
  - unfold bind in Hrun.
    destruct (executeStepStatement fuel stmt f st) as [f1 st1 | | |] eqn:E1;
      try discriminate Hrun.
    destruct (keeps_step_statement _ _ _ _ _ _ E1) as [Hd1 Hf1].
    destruct (IH _ _ _ _ Hrun) as [Hd2 Hf2].
    split; [congruence |].
    intros [Hf | [Hs | Hin]]; apply Hf2; auto.
Qed.


Ltac run_step Hrun E a s :=
  match type of Hrun with
  | match ?c with _ => _ end = _ =>
    destruct c as [a s | ? ? | | ?] eqn:E; try discriminate Hrun
  end.

Lemma executeRow_outputs fuel inKey outKey outName stmts row before st b st' :
  In OutputNode stmts ->
  executeRow fuel inKey outKey outName stmts row before st = Normal b st' ->
  inKey <> outKey /\
  exists cur,
    st'.(env).(dataSets)
    = match st.(env).(dataSets) !! outKey with
      | Some ds => <[outKey := addRow cur ds]> st.(env).(dataSets)
      | None => st.(env).(dataSets)
      end.
Proof.
  intros Hout Hrun. unfold executeRow, keepOnly in Hrun. cbn [forM_] in Hrun.
  unfold bind in Hrun.
  run_step Hrun E1 u1 s1. run_step Hrun E2 u2 s2. run_step Hrun E3 f s3.
  run_step Hrun E4 u4 s4. run_step Hrun E5 u5 s5. run_step Hrun E6 u6 s6.
  injection Hrun as _ <-.
  destruct (keeps_step_statements _ _ _ _ _ _ E3) as [Hd3 Hf3].
  rewrite Hf3 in E6 by (right; exact Hout).
  assert (Hd1 : dataSets (env s1) = dataSets (env st)).
  { injection E1 as _ <-. destruct st as [e ? ? ? ? ? ?]. destruct e.
    reflexivity. }
  assert (Hd2 : s2 = s1)
    by (destruct before; injection E2 as _ <-; reflexivity).
  assert (Hd4 : dataSets (env s4) = dataSets (env s3)).
  { destruct (hasDrop f && hasKeep f), (hasKeep f), (hasDrop f);
      injection E4 as _ <-; destruct s3 as [e ? ? ? ? ? ?]; destruct e;
      reflexivity. }
  assert (Hd5 : s5 = s4)
    by (destruct (hasRetain f); injection E5 as _ <-; reflexivity).
  subst s2 s5.
  destruct (String.eqb_spec inKey outKey) as [-> | Hne];
    [discriminate E6 |].
  split; [exact Hne |].
  exists (currentRow (env s4)).
  unfold bind, getsEnv, gets, modifyEnv, modify, logM, modify in E6.
  injection E6 as _ <-.
  rewrite <- Hd1, <- Hd3, <- Hd4.
  destruct s4 as [e ? ? ? ? ? ?]. destruct e as [dss ? ? ? ? ? ?]. cbn.
  destruct (dss !! outKey); reflexivity.
Qed.


Lemma executeRows_outputs fuel inKey outKey outName stmts rows :
  In OutputNode stmts ->
  forall before st st',
    executeRows fuel inKey outKey outName stmts rows before st
    = Normal tt st' ->
    is_Some (st.(env).(dataSets) !! outKey) ->
    (rows = [] \/ inKey <> outKey) /\
    (exists new, rows_of outKey st'.(env) = rows_of outKey st.(env) ++ new /\
                 length new = length rows) /\
    forall key, key <> outKey ->
                st'.(env).(dataSets) !! key = st.(env).(dataSets) !! key.
Proof.
  intros Hout. induction rows as [|row rows IH]; intros before st st' Hrun Hsome;
    cbn [executeRows] in Hrun.
  - injection Hrun as <-. split; [left; reflexivity |]. split; [| reflexivity].
    exists []. rewrite app_nil_r. split; reflexivity.
  - unfold bind in Hrun. run_step Hrun E1 b1 s1.
    destruct (executeRow_outputs _ _ _ _ _ _ _ _ _ _ Hout E1)
      as [Hne [cur Hds]].
    destruct Hsome as [ds Hsome]. rewrite Hsome in Hds.
    destruct (IH b1 s1 st' Hrun) as (_ & (new & Hnew & Hlen) & Hother).
    { rewrite Hds, lookup_insert_eq. eexists. reflexivity. }
    split; [right; exact Hne |]. split.
    + exists (cur :: new). split; [| cbn [length]; rewrite Hlen; reflexivity].
      rewrite Hnew. unfold rows_of. rewrite Hds, lookup_insert_eq, Hsome.
      cbn [addRow ds_rows]. rewrite <- app_assoc. reflexivity.
    + intros key Hkey. rewrite (Hother key Hkey), Hds.
      apply lookup_insert_ne. congruence.
Qed.

Lemma getOrCreateDatasetM_key libref name st key st' :
  getOrCreateDatasetM libref name st = Normal key st' ->
  key = resolveLibref libref name /\
  is_Some (st'.(env).(dataSets) !! key) /\
  (forall k, is_Some (st.(env).(dataSets) !! k) ->
             is_Some (st'.(env).(dataSets) !! k)).
Proof.
  unfold getOrCreateDatasetM, getOrCreateDataset. intros Hrun.
  destruct (dataSets (env st) !! resolveLibref libref name) as [ds|] eqn:E;
    injection Hrun as <- <-; destruct st as [e ? ? ? ? ? ?];
    destruct e as [dss ? ? ? ? ? ?]; cbn in *.
  - split; [reflexivity |]. split; [rewrite E; eexists; reflexivity | auto].
  - split; [reflexivity |]. split.
    + rewrite lookup_insert_eq. eexists. reflexivity.
    + intros k Hk.
      destruct (decide (resolveLibref libref name = k)) as [<- | Hne].
      * rewrite lookup_insert_eq. eexists. reflexivity.
      * rewrite lookup_insert_ne by exact Hne. exact Hk.
Qed.

Lemma update_dataset_is_Some key f st k :
  is_Some (st.(env).(dataSets) !! k) ->
  is_Some ((with_env (update_dataset key f) st).(env).(dataSets) !! k).
Proof.
  destruct st as [e ? ? ? ? ? ?]. destruct e as [dss ? ? ? ? ? ?]. cbn.
  intros Hk. destruct (dss !! key) as [ds|] eqn:E; [| exact Hk].
  destruct (decide (key = k)) as [<- | Hne].
  - rewrite lookup_insert_eq. eexists. reflexivity.
  - rewrite lookup_insert_ne by exact Hne. exact Hk.
Qed.

Lemma deref_rows key st ds st' :
  deref key st = Normal ds st' ->
  st' = st /\ ds.(ds_rows) = rows_of key st.(env).
Proof.
  unfold deref, bind, getsEnv, gets, rows_of.
  destruct (dataSets (env st) !! key) as [d|]; [| discriminate].
  intros [= <- <-]. split; reflexivity.
Qed.

(** X20.  A DATA step without MERGE that has an OUTPUT statement among its
    top-level statements and runs to its end appends exactly one row to the
    output dataset for each row of the input dataset, after the rows the
    output dataset already had, and changes the rows of no other dataset.
    It can only run to its end when the input is empty or is another dataset
    than the output. *)
Theorem data_step_output_once_per_row
        fuel outputDataSet inputDataSet statements st st' :
  In OutputNode statements ->
  findMerge statements = None ->
  executeDataStep fuel outputDataSet inputDataSet statements st
  = Normal tt st' ->
  let inKey := dataset_key inputDataSet in
  let outKey := dataset_key outputDataSet in
  (exists new,
     rows_of outKey st'.(env) = rows_of outKey st.(env) ++ new /\
     length new = length (rows_of inKey st.(env))) /\
  (forall key, key <> outKey ->
               rows_of key st'.(env) = rows_of key st.(env)) /\
  (rows_of inKey st.(env) = [] \/ inKey <> outKey).
Proof.
  intros Hout Hmerge Hrun inKey outKey. subst inKey outKey.
  unfold dataset_key. unfold executeDataStep in Hrun. rewrite Hmerge in Hrun.
  unfold bind in Hrun.
  run_step Hrun E1 u1 s1.
  assert (R1 : forall k, rows_of k (env s1) = rows_of k (env st))
    by (intros k; exact (keeps_rows_of_keeps _ (keeps_logM _ _ _) _ _ _ E1 k)).
  destruct (split_dot outputDataSet) as [[ol od]|];
    destruct (split_dot inputDataSet) as [[il id]|].
  all: run_step Hrun E2 inKey s2.
  all: run_step Hrun E3 outKey s3.
  all: run_step Hrun E4 u4 s4.
  all: run_step Hrun E5 input s5.
  all: run_step Hrun E6 u6 s6.
  all: run_step Hrun E7 u7 s7.
  all: run_step Hrun E8 u8 s8.
  all: run_step Hrun E9 input' s9.
  all: run_step Hrun E10 u10 s10.
  all: run_step Hrun E11 output s11.
  all: run_step Hrun E12 u12 s12.
  all: run_step Hrun E13 u13 s13.
  all: run_step Hrun E14 t s14.
  all: run_step Hrun E15 u15 s15.
  all: destruct (getOrCreateDatasetM_key _ _ _ _ _ E2) as (-> & Hin2 & Hmono2).
  all: destruct (getOrCreateDatasetM_key _ _ _ _ _ E3) as (-> & Hout3 & Hmono3).
  all: pose proof (fun k => keeps_rows_getOrCreate _ _ _ _ _ E2 k) as R2.
  all: pose proof (fun k => keeps_rows_getOrCreate _ _ _ _ _ E3 k) as R3.
  all: pose proof (fun k => keeps_rows_set_name _ _ _ _ _ E4 k) as R4.
  all: injection E4 as _ <-.
  all: destruct (deref_rows _ _ _ _ E5) as [-> _].
  all: injection E6 as _ <-; injection E7 as _ <-; injection E8 as _ <-.
  all: destruct (deref_rows _ _ _ _ E9) as [-> Hrows].
  all: rewrite Hrows in E10; clear Hrows E5 E9.
  all: destruct u10.
  all: match type of E10 with
       | executeRows _ ?ik ?ok _ _ (rows_of _ (env ?s)) _ _ = _ =>
         assert (R7 : forall k, rows_of k (env s) = rows_of k (env st))
           by (intros k; cbn [env log]; rewrite R4, R3, R2, R1; reflexivity);
         assert (Hsome : is_Some (dataSets (env s) !! ok))
           by (cbn [env log]; apply update_dataset_is_Some; exact Hout3);
         destruct (executeRows_outputs _ _ _ _ _ _ Hout _ _ _ E10 Hsome)
           as (Hne & (new & Hnew & Hlen) & Hother);
         rewrite R7 in Hnew, Hlen, Hne
       end.
  all: destruct (deref_rows _ _ _ _ E11) as [-> _].
  all: assert (Hd : dataSets (env st') = dataSets (env s10))
         by (rewrite (keeps_normal _ _ _ _ (keeps_printDataset _) Hrun);
             destruct ((t =? "")%string);
             injection E15 as _ <-; injection E14 as _ <-;
             injection E13 as _ <-; injection E12 as _ <-; reflexivity).
  all: split; [| split].
  all: try (exists new; split; [| exact Hlen];
            unfold rows_of at 1; rewrite Hd; exact Hnew).
  all: try (intros key Hkey; unfold rows_of at 1; rewrite Hd, (Hother key Hkey);
            apply R7).
  all: exact Hne.
Qed.

End StepMore.

Lemma data_step_output_once_per_row_witness :
  exists st',
    @executeDataStep bare_platform 4 "res" "in" [OutputNode] (st_merge [])
    = Normal tt st' /\
    length (rows_of "WORK.res" st'.(env)) = 3%nat /\
    rows_of "WORK.in" st'.(env) = rows_of "WORK.in" (st_merge []).(env).
Proof.
  destruct (@executeDataStep bare_platform 4 "res" "in" [OutputNode]
              (st_merge []))
    as [[] st' | e st' | | st'] eqn:Hrun;
    try (vm_compute in Hrun; discriminate Hrun).
  exists st'. split; [reflexivity |].
  pose proof (@data_step_output_once_per_row bare_platform 4 "res" "in"
                [OutputNode] (st_merge []) st' (or_introl eq_refl) eq_refl
                Hrun) as Hstep.
  cbv zeta in Hstep. destruct Hstep as ((new & Hnew & Hlen) & Hother & _).
  split.
  - change (dataset_key "res") with "WORK.res" in Hnew.
    rewrite Hnew, List.length_app, Hlen. reflexivity.
  - apply Hother. discriminate.
Defined.

(** ** PROC PRINT, and the DATA step of an empty input *)

Section Totality.

Context `{Platform}.

Lemma getOrCreateDatasetM_normal libref name st :
  exists st',
    getOrCreateDatasetM libref name st = Normal (resolveLibref libref name) st'
    /\ st'.(logLogger) = st.(logLogger) /\ st'.(lstLogger) = st.(lstLogger)
    /\ st'.(env).(title) = st.(env).(title).
Proof.
  unfold getOrCreateDatasetM, getOrCreateDataset.
  destruct (dataSets (env st) !! resolveLibref libref name);
    eexists; (split; [reflexivity |]); destruct st as [e ? ? ? ? ? ?];
    destruct e; repeat split.
Qed.

Lemma deref_Some key st :
  is_Some (st.(env).(dataSets) !! key) ->
  exists ds,
    deref key st = Normal ds st /\ ds.(ds_rows) = rows_of key st.(env).
Proof.
  intros [ds Hds]. exists ds. unfold deref, bind, getsEnv, gets, rows_of.
  rewrite Hds. split; reflexivity.
Qed.

Lemma printDataset_normal ds st :
  exists lines,
    printDataset ds st = Normal tt (add_lsts lines st) /\
    length lines = S (length ds.(ds_rows)).
Proof.
  unfold printDataset, bind, lstM, modify.
  set (r := fun x : nat * Row =>
    mkLog info "{}"
      [AStr (to_string_int (Z.of_nat (S (fst x))) +:+ tab
             +:+ join tab (map (fun col => match row_find col (snd x) with
                                           | Some v => toString v
                                           | None => "."
                                           end) ds.(ds_columnOrder)))]).
  rewrite (forM_ext _ (fun x => lstM (fmt (r x)) (args (r x))))
    by (intros [i row] _; reflexivity).
  rewrite forM_lstM by reflexivity.
  exists (rev (map r (imap (fun i row => (i, row)) ds.(ds_rows)))
          ++ [mkLog info "{}" [AStr (join tab ds.(ds_columnOrder))]]).
  split.
  - destruct st. unfold add_lsts, lst. cbn. rewrite <- app_assoc. reflexivity.
  - rewrite List.length_app, List.length_rev, List.length_map, length_imap. cbn. lia.
Qed.

Lemma rows_of_set_name key name st k :
  rows_of k (env (with_env (update_dataset key (set_name name)) st))
  = rows_of k (env st).
Proof.
  exact (keeps_rows_set_name key name st tt _ eq_refl k).
Qed.

(** X21.  A DATA step without MERGE whose input dataset has no rows, or
    does not exist, executes none of its statements: it succeeds whatever
    the statements are and whatever the fuel, the rows of every dataset, the
    current row and the arrays are as before, and the log has four records
    more. *)
Theorem data_step_of_empty_input
        fuel outputDataSet inputDataSet statements st :
  findMerge statements = None ->
  rows_of (dataset_key inputDataSet) st.(env) = [] ->
  exists st',
    executeDataStep fuel outputDataSet inputDataSet statements st
    = Normal tt st' /\
    (forall key, rows_of key st'.(env) = rows_of key st.(env)) /\
    st'.(env).(currentRow) = st.(env).(currentRow) /\
    st'.(arrays) = st.(arrays) /\
    length st'.(logLogger) = (4 + length st.(logLogger))%nat.
Proof.
  intros Hmerge Hempty. unfold dataset_key in Hempty.
  unfold executeDataStep. rewrite Hmerge. unfold bind.
  set (s1 := log info "Executing DATA step: data {}; set {};"
                 [AStr outputDataSet; AStr inputDataSet] st).
  change (logM info "Executing DATA step: data {}; set {};"
               [AStr outputDataSet; AStr inputDataSet] st)
    with (Normal tt s1).
  set (outName := match split_dot outputDataSet with
                  | Some (l, d) => (l, d)
                  | None => ("", outputDataSet)
                  end).
  set (inName := match split_dot inputDataSet with
                 | Some (l, d) => (l, d)
                 | None => ("", inputDataSet)
                 end).
  assert (Hin : rows_of (resolveLibref (fst inName) (snd inName)) (env st) = [])
    by (subst inName; destruct (split_dot inputDataSet) as [[l d]|];
        exact Hempty).
  clearbody outName inName. destruct outName as [ol od], inName as [il id].
  cbn [fst snd] in Hin.
  destruct (getOrCreateDatasetM_normal il id s1) as (s2 & E2 & Hlog2 & _ & _).
  rewrite E2.
  destruct (getOrCreateDatasetM_key _ _ _ _ _ E2) as (_ & Hin2 & _).
  pose proof (fun k => keeps_rows_getOrCreate _ _ _ _ _ E2 k) as R2.
  destruct (getOrCreateDatasetM_normal ol od s2) as (s3 & E3 & Hlog3 & _ & _).
  rewrite E3.
  destruct (getOrCreateDatasetM_key _ _ _ _ _ E3) as (_ & Hout3 & Hmono3).
  pose proof (fun k => keeps_rows_getOrCreate _ _ _ _ _ E3 k) as R3.
  unfold modifyEnv at 1, modify.
  set (s4 := with_env (update_dataset (resolveLibref ol od)
                         (set_name outputDataSet)) s3).
  assert (R4 : forall k, rows_of k (env s4) = rows_of k (env st)).
  { intros k. subst s4. rewrite rows_of_set_name, R3, R2. reflexivity. }
  assert (Hin4 : is_Some (dataSets (env s4) !! resolveLibref il id))
    by (apply update_dataset_is_Some, Hmono3, Hin2).
  assert (Hout4 : is_Some (dataSets (env s4) !! resolveLibref ol od))
    by (apply update_dataset_is_Some, Hout3).
  destruct (deref_Some _ _ Hin4) as (input & E5 & Hrows5). rewrite E5.
  unfold logM at 1 2, modify.
  set (s6 := log info "Output dataset '{}' will store results."
               [AStr outputDataSet]
               (log info "Input dataset '{}' has {} observations."
                  [AStr inputDataSet; AInt (Z.of_nat (length (ds_rows input)))]
                  s4)).
  cbn [ret].
  assert (Hin6 : is_Some (dataSets (env s6) !! resolveLibref il id))
    by exact Hin4.
  destruct (deref_Some _ _ Hin6) as (input' & E7 & Hrows7). rewrite E7.
  replace (ds_rows input') with (@nil Row)
    by (rewrite Hrows7; symmetry; etransitivity; [apply R4 | exact Hin]).
  cbn [executeRows ret].
  assert (Hout6 : is_Some (dataSets (env s6) !! resolveLibref ol od))
    by exact Hout4.
  destruct (deref_Some _ _ Hout6) as (output & E8 & Hrows8). rewrite E8.
  unfold logM, lstM at 1, modify, getsEnv, gets.
  set (s8 := lst "SAS Results (Dataset: {}):" [AStr outputDataSet]
               (log info
                  "DATA step '{}' executed successfully. Output dataset has {} observations."
                  [AStr outputDataSet;
                   AInt (Z.of_nat (length (ds_rows output)))] s6)).
  destruct (printDataset_normal output s8) as (lines & E9 & _).
  destruct (printDataset_normal output
              (lst "Title: {}" [AStr (title (env s8))] s8))
    as (lines' & E9' & _).
  assert (Hrows : forall l k, rows_of k (env (add_lsts l s8))
                              = rows_of k (env st))
    by (intros l k; rewrite <- (R4 k); reflexivity).
  assert (Hcur : currentRow (env s8) = currentRow (env st)).
  { transitivity (currentRow (env s3)).
    - subst s8 s6 s4. destruct s3 as [e3 ? ? ? ? ? ?]. destruct e3. reflexivity.
    - transitivity (currentRow (env s2)).
      + unfold getOrCreateDatasetM, getOrCreateDataset in E3.
        destruct (dataSets (env s2) !! resolveLibref ol od);
          injection E3 as <-; destruct s2 as [e2 ? ? ? ? ? ?]; destruct e2;
          reflexivity.
      + unfold getOrCreateDatasetM, getOrCreateDataset in E2.
        destruct (dataSets (env s1) !! resolveLibref il id);
          injection E2 as <-; destruct st as [e0 ? ? ? ? ? ?]; destruct e0;
          reflexivity. }
  assert (Harr : arrays s8 = arrays st).
  { transitivity (arrays s3).
    - subst s8 s6 s4. destruct s3. reflexivity.
    - transitivity (arrays s2).
      + unfold getOrCreateDatasetM in E3.
        destruct (getOrCreateDataset ol od (env s2)). injection E3 as _ <-.
        destruct s2. reflexivity.
      + unfold getOrCreateDatasetM in E2.
        destruct (getOrCreateDataset il id (env s1)). injection E2 as _ <-.
        destruct st. reflexivity. }
  assert (Hlog : length (logLogger s8) = (4 + length (logLogger st))%nat).
  { subst s8 s6 s4. destruct s3 as [? ? ? ? ? l3 ?]. cbn in *.
    rewrite Hlog3, Hlog2. subst s1. destruct st. reflexivity. }
  destruct (String.eqb (title (env s8)) ""); cbn [ret]; unfold lstM, modify;
    [rewrite E9 | rewrite E9']; eexists; (split; [reflexivity |]).
  - split; [apply Hrows |]. clear E9 E9' Hrows. destruct s8.
    cbn in *. auto.
  - split; [intros key; exact (Hrows [] key) |].
    clear E9 E9' Hrows. destruct s8. cbn in *. auto.
Qed.

End Totality.

Lemma data_step_of_empty_input_witness :
  exists st',
    @executeDataStep bare_platform 0 "res" "nowhere"
       [AssignmentNode "y" (BinaryOpNode "?" (NumberNode one) (NumberNode one));
        OutputNode] (st_merge [])
    = Normal tt st' /\
    (forall key, rows_of key st'.(env) = rows_of key (st_merge []).(env)) /\
    st'.(env).(currentRow) = (st_merge []).(env).(currentRow) /\
    st'.(arrays) = (st_merge []).(arrays) /\
    length st'.(logLogger) = (4 + length (st_merge []).(logLogger))%nat.
Proof.
  exact (@data_step_of_empty_input bare_platform 0 "res" "nowhere"
           [AssignmentNode "y"
              (BinaryOpNode "?" (NumberNode one) (NumberNode one));
            OutputNode] (st_merge []) eq_refl eq_refl).
Defined.

(** ** PROC SORT *)

Section SortMore.

Context `{Platform}.

Lemma lookup_update key f st k :
  (with_env (update_dataset key f) st).(env).(dataSets) !! k
  = if decide (k = key) then f <$> st.(env).(dataSets) !! key
    else st.(env).(dataSets) !! k.
Proof.
  destruct st as [e ? ? ? ? ? ?]. destruct e as [dss ? ? ? ? ? ?]. cbn.
  destruct (decide (k = key)) as [-> | Hne].
  - destruct (dss !! key) as [ds|] eqn:E; cbn.
    + apply lookup_insert_eq.
    + exact E.
  - destruct (dss !! key) as [ds|]; [| reflexivity].
    apply lookup_insert_ne. congruence.
Qed.

Lemma getOrCreateDatasetM_lookup libref name st :
  exists st',
    getOrCreateDatasetM libref name st
    = Normal (resolveLibref libref name) st' /\
    (forall k,
       st'.(env).(dataSets) !! k
       = match st.(env).(dataSets) !! k with
         | Some ds => Some ds
         | None =>
           if decide (k = resolveLibref libref name)
           then Some (mkDataSet (resolveLibref libref name) [] [])
           else None
         end) /\
    st'.(logLogger) = st.(logLogger).
Proof.
  unfold getOrCreateDatasetM, getOrCreateDataset.
  destruct (dataSets (env st) !! resolveLibref libref name) as [ds|] eqn:E;
    eexists; (split; [reflexivity |]); destruct st as [e ? ? ? ? ? ?];
    destruct e as [dss ? ? ? ? ? ?]; cbn in *; (split; [| reflexivity]);
    intros k.
  - destruct (dss !! k) eqn:Ek; [reflexivity |].
    destruct (decide (k = resolveLibref libref name)) as [-> | _];
      [congruence | reflexivity].
  - destruct (decide (k = resolveLibref libref name)) as [-> | Hne].
    + rewrite lookup_insert_eq, E. reflexivity.
    + rewrite lookup_insert_ne by congruence.
      destruct (dss !! k); reflexivity.
Qed.

Lemma insert_row_perm byVars r sorted :
  Permutation (insert_row byVars r sorted) (r :: sorted).
Proof.
  induction sorted as [|r' t IH]; cbn [insert_row]; [reflexivity |].
  destruct (row_lt byVars r r'); [reflexivity |].
  rewrite IH. apply perm_swap.
Qed.

Lemma sortRows_perm byVars rows : Permutation (sortRows byVars rows) rows.
Proof.
  unfold sortRows.
  enough (Hacc : forall acc,
             Permutation (fold_left (fun acc r => insert_row byVars r acc)
                                    rows acc) (acc ++ rows)) by apply (Hacc []).
  induction rows as [|r rows IH]; intros acc; cbn [fold_left].
  - rewrite app_nil_r. reflexivity.
  - rewrite IH, insert_row_perm. cbn [app]. apply Permutation_middle.
Qed.


(** A pass over the rows whose steps only write to the log. *)
Lemma fold_logs_only {A} (step : M A -> Row -> M A) rows :
  (forall c row st a0 st0,
     c st = Normal a0 st0 ->
     exists a recs, step c row st = Normal a (add_logs recs st0)) ->
  forall c st a0 st0,
    c st = Normal a0 st0 ->
    exists a recs, fold_left step rows c st = Normal a (add_logs recs st0).
Proof.
  intros Hstep.
  induction rows as [|row rows IH]; intros c st a0 st0 Hc; cbn [fold_left].
  - exists a0, []. rewrite Hc. destruct st0. reflexivity.
  - destruct (Hstep c row st a0 st0 Hc) as (a1 & recs1 & H1).
    destruct (IH (step c row) st a1 _ H1) as (a & recs & Hrun).
    exists a, (recs ++ recs1). rewrite Hrun.
    destruct st0. unfold add_logs. cbn. rewrite <- app_assoc. reflexivity.
Qed.

(** PROC SORT without WHERE and NODUPKEY: the input dataset gets its rows
    as the sort leaves them, the output dataset the same rows. *)
Lemma executeProcSort_in_place
        inputDataSet outputDataSet byVars duplicates st :
  let kin := resolveLibref inputDataSet inputDataSet in
  let oname :=
    if String.eqb outputDataSet "" then inputDataSet else outputDataSet in
  let kout := resolveLibref oname oname in
  let sorted := sortRows byVars (rows_of kin st.(env)) in
  exists st',
    executeProcSort inputDataSet outputDataSet byVars None false duplicates st
    = Normal tt st' /\
    Permutation sorted (rows_of kin st.(env)) /\
    rows_of kin st'.(env) = sorted /\
    (forall ds, st'.(env).(dataSets) !! kin = Some ds ->
                ds.(ds_name) <> oname -> rows_of kout st'.(env) = sorted) /\
    (forall k, k <> kin -> k <> kout ->
               rows_of k st'.(env) = rows_of k st.(env)).
Proof.
  intros kin oname kout sorted.
  unfold executeProcSort. fold oname. fold kin.
  unfold bind at 1. unfold logM at 1, modify.
  set (s1 := log info "Executing PROC SORT" [] st).
  unfold bind at 1.
  destruct (getOrCreateDatasetM_lookup inputDataSet inputDataSet s1)
    as (s2 & E2 & L2 & _).
  rewrite E2. fold kin in L2 |- *. unfold bind at 1. cbn [ret].
  unfold bind at 1. unfold sortDataset at 1, modifyEnv, modify.
  set (dsin := match dataSets (env st) !! kin with
               | Some ds => ds
               | None => mkDataSet kin [] []
               end).
  assert (Hin2 : dataSets (env s2) !! kin = Some dsin).
  { rewrite L2. subst dsin s1. cbn [env log].
    destruct (dataSets (env st) !! kin); [reflexivity |].
    destruct (decide (kin = kin)); [reflexivity | contradiction]. }
  assert (Hrows_in : ds_rows dsin = rows_of kin (env st)).
  { subst dsin. unfold rows_of. destruct (dataSets (env st) !! kin);
      reflexivity. }
  set (s3 := with_env (update_dataset kin
                (fun ds => set_rows (sortRows byVars (ds_rows ds)) ds)) s2).
  assert (L3 : forall k, dataSets (env s3) !! k
                         = if decide (k = kin)
                           then Some (set_rows sorted dsin)
                           else dataSets (env st) !! k).
  { intros k. subst s3. rewrite lookup_update, Hin2, L2. subst s1.
    cbn [env log fmap option_fmap option_map].
    destruct (decide (k = kin)) as [-> | Hne].
    - subst sorted. rewrite <- Hrows_in. reflexivity.
    - destruct (dataSets (env st) !! k); reflexivity. }
  assert (D3 : forall s, dataSets (env s) = dataSets (env s3) ->
                         deref kin s = Normal (set_rows sorted dsin) s).
  { intros s Hs. unfold deref, bind, getsEnv, gets. rewrite Hs, L3.
    destruct (decide (kin = kin)); [reflexivity | contradiction]. }
  unfold bind at 1. rewrite (D3 s3 eq_refl).
  unfold bind at 1. unfold logM at 1, modify. cbn [ret].
  set (s4 := log info "Sorted dataset '{}' by variables: {}" _ s3).
  unfold bind at 1. cbn [ret]. unfold bind at 1.
  assert (Hdup : exists recs,
    (if duplicates
     then
      bind (deref kin)
        (fun sorted0 : DataSet =>
           bind
             (fold_left
                (fun (acc : M (list string)) (row : Row) =>
                   bind acc
                     (fun seenKeys : list string =>
                        if mem (dupKey byVars row) seenKeys
                        then
                         bind
                           (logM info "Duplicate key '{}' found."
                              [AStr (dupKey byVars row)])
                           (fun _ : () => ret seenKeys)
                        else ret (dupKey byVars row :: seenKeys)))
                (ds_rows sorted0) (ret []))
             (fun _ : list string => ret ()))
     else ret ()) s4 = Normal tt (add_logs recs s4)).
  { destruct duplicates.
    - unfold bind at 1. rewrite (D3 s4 eq_refl). unfold bind at 1.
      match goal with
      | |- exists recs,
             match fold_left ?step ?rows ?c0 ?s with _ => _ end = _ =>
        assert (Hstep : forall c row st a0 st0,
                  c st = Normal a0 st0 ->
                  exists a recs, step c row st = Normal a (add_logs recs st0));
        [| destruct (fold_logs_only step rows Hstep c0 s (@nil string) s
                                    eq_refl) as (seen & recs & Hrun) ]
      end.
      + intros c row s a0 s0 Hc. unfold bind at 1. rewrite Hc.
        destruct (mem (dupKey byVars row) a0).
        * exists a0, [mkLog info "Duplicate key '{}' found."
                            [AStr (dupKey byVars row)]]. reflexivity.
        * exists (dupKey byVars row :: a0), []. destruct s0. reflexivity.
      + exists recs. rewrite Hrun. reflexivity.
    - exists []. destruct s4. reflexivity. }
  destruct Hdup as (recs & Hdup). rewrite Hdup. clear Hdup.
  set (s5 := add_logs recs s4).
  unfold bind at 1.
  destruct (getOrCreateDatasetM_lookup oname oname s5) as (s6 & E6 & L6 & _).
  rewrite E6. fold kout in L6 |- *.
  assert (L6' : forall k, dataSets (env s6) !! k
                          = match dataSets (env s3) !! k with
                            | Some ds => Some ds
                            | None => if decide (k = kout)
                                      then Some (mkDataSet kout [] [])
                                      else None
                            end) by exact L6.
  assert (Hin6 : dataSets (env s6) !! kin = Some (set_rows sorted dsin)).
  { rewrite L6', L3. destruct (decide (kin = kin)); [reflexivity | contradiction]. }
  unfold bind at 1. unfold deref at 1, bind, getsEnv, gets. rewrite Hin6.
  cbn [ret set_rows ds_name ds_rows].
  assert (Hperm : Permutation sorted (rows_of kin (env st)))
    by apply sortRows_perm.
  assert (Hout6 : exists dsout, dataSets (env s6) !! kout = Some dsout).
  { rewrite L6'. destruct (dataSets (env s3) !! kout); [eexists; reflexivity |].
    destruct (decide (kout = kout)); [eexists; reflexivity | contradiction]. }
  destruct Hout6 as [dsout Hout6].
  assert (Hother : forall k, k <> kin -> k <> kout ->
                             dataSets (env s6) !! k = dataSets (env st) !! k).
  { intros k Hk1 Hk2. rewrite L6', L3.
    destruct (decide (k = kin)); [contradiction |].
    destruct (dataSets (env st) !! k); [reflexivity |].
    destruct (decide (k = kout)); [contradiction | reflexivity]. }
  destruct (String.eqb_spec oname (ds_name dsin)) as [Hname | Hname];
    cbn [negb].
  - (* the name of the sorted dataset is the output name *)
    set (s7 := with_env (update_dataset kin (set_rows sorted)) s6).
    assert (L7 : forall k, dataSets (env s7) !! k
                           = if decide (k = kin)
                             then Some (set_rows sorted dsin)
                             else dataSets (env s6) !! k).
    { intros k. subst s7. rewrite lookup_update, Hin6.
      destruct (decide (k = kin)); reflexivity. }
    unfold deref at 1, bind, getsEnv, gets. rewrite L7.
    destruct (decide (kin = kin)) as [_ |]; [| contradiction].
    cbn [ret logM modify].
    set (s8 := log info "Input dataset '{}' overwritten with sorted data." _ s7).
    assert (Hout8 : exists ds, dataSets (env s8) !! kout = Some ds).
    { subst s8. cbn [env log]. rewrite L7.
      destruct (decide (kout = kin)); eexists; [reflexivity | exact Hout6]. }
    destruct Hout8 as [ds8 Hout8].
    unfold deref, bind, getsEnv, gets. rewrite Hout8. cbn [ret logM modify].
    eexists. split; [reflexivity |]. split; [exact Hperm |].
    cbn [env log]. unfold rows_of. split; [| split].
    + rewrite L7. destruct (decide (kin = kin)); [reflexivity | contradiction].
    + intros ds Hds Hne. exfalso. apply Hne. rewrite L7 in Hds.
      destruct (decide (kin = kin)); [| contradiction].
      injection Hds as <-. symmetry. exact Hname.
    + intros k Hk1 Hk2. rewrite L7.
      destruct (decide (k = kin)); [contradiction |].
      rewrite (Hother k Hk1 Hk2). reflexivity.
  - (* the sorted rows are copied to the output dataset *)
    cbn [logM modify].
    set (s7 := with_env (update_dataset kout (set_rows sorted)) s6).
    assert (L7 : forall k, dataSets (env s7) !! k
                           = if decide (k = kout)
                             then Some (set_rows sorted dsout)
                             else dataSets (env s6) !! k).
    { intros k. subst s7. rewrite lookup_update, Hout6.
      destruct (decide (k = kout)); reflexivity. }
    unfold deref, bind, getsEnv, gets. cbn [env log]. rewrite L7.
    destruct (decide (kout = kout)) as [_ |]; [| contradiction].
    cbn [ret logM modify].
    eexists. split; [reflexivity |]. split; [exact Hperm |].
    cbn [env log]. unfold rows_of. split; [| split].
    + rewrite L7. destruct (decide (kin = kout)); [reflexivity |].
      rewrite Hin6. reflexivity.
    + intros _ _ _. rewrite L7.
      destruct (decide (kout = kout)); [reflexivity | contradiction].
    + intros k Hk1 Hk2. rewrite L7.
      destruct (decide (k = kout)); [contradiction |].
      rewrite (Hother k Hk1 Hk2). reflexivity.
Qed.


Lemma mem_false x l : mem x l = false <-> ~ In x l.
Proof.
  split.
  - intros Hm Hin. apply mem_In in Hin. congruence.
  - intros Hn. destruct (mem x l) eqn:E; [| reflexivity].
    apply mem_In in E. contradiction.
Qed.

Lemma keep_first_fresh byVars rows : forall seen row,
  In row (keep_first byVars seen rows) ->
  In row rows /\ ~ In (dupKey byVars row) seen.
Proof.
  induction rows as [|r rows IH]; intros seen row Hin; cbn [keep_first] in Hin.
  - destruct Hin.
  - destruct (mem (dupKey byVars r) seen) eqn:Em.
    + destruct (IH _ _ Hin) as [H1 H2]. split; [right; exact H1 | exact H2].
    + destruct Hin as [<- | Hin].
      * split; [left; reflexivity | apply mem_false; exact Em].
      * destruct (IH _ _ Hin) as [H1 H2]. split; [right; exact H1 |].
        intros Hs. apply H2. right. exact Hs.
Qed.

Lemma keep_first_distinct byVars rows : forall seen,
  List.NoDup (map (dupKey byVars) (keep_first byVars seen rows)).
Proof.
  induction rows as [|r rows IH]; intros seen; cbn [keep_first].
  - constructor.
  - destruct (mem (dupKey byVars r) seen); [apply IH |].
    cbn [map]. constructor; [| apply IH].
    intros Hin. apply in_map_iff in Hin. destruct Hin as (r' & Hkey & Hr').
    destruct (keep_first_fresh _ _ _ _ Hr') as [_ Hfresh].
    apply Hfresh. left. symmetry. exact Hkey.
Qed.

Lemma keep_first_covers byVars rows : forall seen row,
  In row rows ->
  In (dupKey byVars row) seen \/
  exists row', In row' (keep_first byVars seen rows) /\
               dupKey byVars row' = dupKey byVars row.
Proof.
  induction rows as [|r rows IH]; intros seen row Hin; [destruct Hin |].
  cbn [keep_first]. destruct (mem (dupKey byVars r) seen) eqn:Em.
  - destruct Hin as [<- | Hin]; [left; apply mem_In; exact Em |].
    apply IH. exact Hin.
  - destruct Hin as [<- | Hin].
    + right. exists r. split; [left |]; reflexivity.
    + destruct (IH (dupKey byVars r :: seen) row Hin) as [[Hk | Hs] | Hex].
      * right. exists r. split; [left; reflexivity | exact Hk].
      * left. exact Hs.
      * right. destruct Hex as (row' & Hr' & Hk). exists row'.
        split; [right; exact Hr' | exact Hk].
Qed.


(** The NODUPKEY pass: the first row of each key goes to the temporary
    dataset. *)
Lemma nodupkey_pass byVars ktemp (step : M (list string) -> Row -> M (list string))
      rows :
  (forall c row st seen0 st0,
     c st = Normal seen0 st0 ->
     step c row st
     = if mem (dupKey byVars row) seen0
       then Normal seen0
              (log info
                 "Duplicate key '{}' found. Skipping duplicate observation."
                 [AStr (dupKey byVars row)] st0)
       else Normal (dupKey byVars row :: seen0)
              (with_env (update_dataset ktemp
                 (fun ds => set_rows (ds_rows ds ++ [row]) ds)) st0)) ->
  forall c st seen0 st0 tmp,
    c st = Normal seen0 st0 ->
    st0.(env).(dataSets) !! ktemp = Some tmp ->
    exists seen st1,
      fold_left step rows c st = Normal seen st1 /\
      st1.(env).(dataSets) !! ktemp
      = Some (set_rows (ds_rows tmp ++ keep_first byVars seen0 rows) tmp) /\
      forall k, k <> ktemp ->
                st1.(env).(dataSets) !! k = st0.(env).(dataSets) !! k.
Proof.
  intros Hstep.
  induction rows as [|row rows IH]; intros c st seen0 st0 tmp Hc Htmp;
    cbn [fold_left keep_first].
  - exists seen0, st0. split; [exact Hc |]. split; [| reflexivity].
    rewrite app_nil_r, Htmp. destruct tmp. reflexivity.
  - pose proof (Hstep c row st seen0 st0 Hc) as H1.
    destruct (mem (dupKey byVars row) seen0) eqn:Em.
    + destruct (IH _ _ _ _ tmp H1 Htmp) as (seen & st1 & Hrun & Hk & Hother).
      exists seen, st1. split; [exact Hrun |]. split; [exact Hk | exact Hother].
    + destruct (IH _ _ _ _ (set_rows (ds_rows tmp ++ [row]) tmp) H1)
        as (seen & st1 & Hrun & Hk & Hother).
      { rewrite lookup_update, Htmp.
        destruct (decide (ktemp = ktemp)); [reflexivity | contradiction]. }
      exists seen, st1. split; [exact Hrun |]. split.
      * rewrite Hk. cbn [set_rows ds_rows ds_name ds_columnOrder].
        rewrite <- app_assoc. reflexivity.
      * intros k Hne. rewrite (Hother k Hne), lookup_update.
        destruct (decide (k = ktemp)); [contradiction | reflexivity].
Qed.

(** PROC SORT with NODUPKEY: the output dataset gets the first row of each
    key of the sorted input. *)
Lemma executeProcSort_keeps_first inputDataSet outputDataSet byVars st :
  let kin := resolveLibref inputDataSet inputDataSet in
  let oname :=
    if String.eqb outputDataSet "" then inputDataSet else outputDataSet in
  let kout := resolveLibref oname oname in
  let ktemp := resolveLibref "TEMP_SORT_NODUPKEY" "TEMP_SORT_NODUPKEY" in
  let kept := keep_first byVars [] (sortRows byVars (rows_of kin st.(env))) in
  kin <> ktemp ->
  oname <> ktemp ->
  (forall ds, st.(env).(dataSets) !! ktemp = Some ds -> ds.(ds_name) = ktemp) ->
  exists st',
    executeProcSort inputDataSet outputDataSet byVars None true false st
    = Normal tt st' /\
    rows_of kout st'.(env) = kept /\
    List.NoDup (map (dupKey byVars) kept) /\
    (forall row, In row kept -> In row (rows_of kin st.(env))) /\
    (forall row, In row (rows_of kin st.(env)) ->
       exists row', In row' kept /\ dupKey byVars row' = dupKey byVars row).
Proof.
  intros kin oname kout ktemp kept Hkin Honame Htname.
  assert (Hkept : List.NoDup (map (dupKey byVars) kept)
                  /\ (forall row, In row kept -> In row (rows_of kin (env st)))
                  /\ (forall row, In row (rows_of kin (env st)) ->
                        exists row', In row' kept /\
                                     dupKey byVars row' = dupKey byVars row)).
  { split; [apply keep_first_distinct |]. split.
    - intros row Hrow. apply keep_first_fresh in Hrow. destruct Hrow as [Hrow _].
      apply (Permutation_in _ (sortRows_perm byVars _)). exact Hrow.
    - intros row Hrow.
      destruct (keep_first_covers byVars
                  (sortRows byVars (rows_of kin (env st))) [] row)
        as [[] | Hex]; [| exact Hex].
      apply (Permutation_in _ (Permutation_sym (sortRows_perm byVars _))).
      exact Hrow. }
  unfold executeProcSort. fold oname. fold kin. fold kout. fold ktemp.
  unfold bind at 1. unfold logM at 1, modify.
  set (s1 := log info "Executing PROC SORT" [] st).
  unfold bind at 1.
  destruct (getOrCreateDatasetM_lookup inputDataSet inputDataSet s1)
    as (s2 & E2 & L2 & _).
  rewrite E2. fold kin in L2 |- *. unfold bind at 1. cbn [ret].
  unfold bind at 1. unfold sortDataset at 1, modifyEnv, modify.
  set (dsin := match dataSets (env st) !! kin with
               | Some ds => ds
               | None => mkDataSet kin [] []
               end).
  assert (Hin2 : dataSets (env s2) !! kin = Some dsin).
  { rewrite L2. subst dsin s1. cbn [env log].
    destruct (dataSets (env st) !! kin); [reflexivity |].
    destruct (decide (kin = kin)); [reflexivity | contradiction]. }
  assert (Hrows_in : ds_rows dsin = rows_of kin (env st)).
  { subst dsin. unfold rows_of. destruct (dataSets (env st) !! kin);
      reflexivity. }
  set (sorted := sortRows byVars (rows_of kin (env st))) in *.
  set (s3 := with_env (update_dataset kin
                (fun ds => set_rows (sortRows byVars (ds_rows ds)) ds)) s2).
  assert (L3 : forall k, dataSets (env s3) !! k
                         = if decide (k = kin)
                           then Some (set_rows sorted dsin)
                           else dataSets (env st) !! k).
  { intros k. subst s3. rewrite lookup_update, Hin2, L2. subst s1.
    cbn [env log fmap option_fmap option_map].
    destruct (decide (k = kin)) as [-> | Hne].
    - subst sorted. rewrite <- Hrows_in. reflexivity.
    - destruct (dataSets (env st) !! k); reflexivity. }
  unfold bind at 1. unfold deref at 1, bind, getsEnv, gets. rewrite L3.
  destruct (decide (kin = kin)) as [_ |]; [| contradiction].
  cbn [ret]. unfold logM at 1, modify.
  set (s4 := log info "Sorted dataset '{}' by variables: {}" _ s3).
  destruct (getOrCreateDatasetM_lookup "TEMP_SORT_NODUPKEY"
              "TEMP_SORT_NODUPKEY" s4) as (s5 & E5 & L5 & _).
  rewrite E5. fold ktemp in L5 |- *.
  set (tmp0 := match dataSets (env st) !! ktemp with
               | Some ds => ds
               | None => mkDataSet ktemp [] []
               end).
  assert (Hname0 : ds_name tmp0 = ktemp).
  { subst tmp0. destruct (dataSets (env st) !! ktemp) as [ds|] eqn:E;
      [apply Htname; reflexivity | reflexivity]. }
  assert (Htmp5 : dataSets (env s5) !! ktemp = Some tmp0).
  { rewrite L5. subst s4. cbn [env log]. rewrite L3.
    destruct (decide (ktemp = kin)) as [E |]; [symmetry in E; contradiction |].
    subst tmp0. destruct (dataSets (env st) !! ktemp); [reflexivity |].
    destruct (decide (ktemp = ktemp)); [reflexivity | contradiction]. }
  set (s6 := with_env (update_dataset ktemp (set_rows [])) s5).
  assert (L6 : forall k, dataSets (env s6) !! k
                         = if decide (k = ktemp)
                           then Some (set_rows [] tmp0)
                           else dataSets (env s3) !! k).
  { intros k. subst s6. rewrite lookup_update, Htmp5, L5.
    destruct (decide (k = ktemp)); [reflexivity |].
    subst s4. cbn [env log]. destruct (dataSets (env s3) !! k); reflexivity. }
  unfold deref at 1, bind, getsEnv, gets. rewrite L6, L3.
  destruct (decide (kin = ktemp)) as [| _]; [contradiction |].
  destruct (decide (kin = kin)) as [_ |]; [| contradiction].
  cbn [ret set_rows ds_rows].
  match goal with
  | |- context [fold_left ?step sorted (ret []) s6] =>
    destruct (nodupkey_pass byVars ktemp step sorted)
      with (c := @ret (list string) []) (st := s6) (seen0 := @nil string)
           (st0 := s6) (tmp := set_rows [] tmp0)
      as (seen & s7 & Hrun & Htmp7 & Hother7)
  end.
  { intros c row s0 seen0 s0' Hc. rewrite Hc.
    destruct (mem (dupKey byVars row) seen0); reflexivity. }
  { reflexivity. }
  { rewrite L6. destruct (decide (ktemp = ktemp)); [reflexivity | contradiction]. }
  rewrite Hrun. cbn [set_rows ds_rows ds_name ds_columnOrder app] in Htmp7.
  fold kept in Htmp7.
  unfold deref at 1, bind, getsEnv, gets. rewrite Htmp7.
  cbn [ret logM modify].
  set (s8 := log info
    "Applied NODUPKEY option. {} observations remain after removing duplicates."
    _ s7).
  destruct (getOrCreateDatasetM_lookup oname oname s8) as (s9 & E9 & L9 & _).
  rewrite E9. fold kout in L9 |- *.
  assert (Htmp9 : dataSets (env s9) !! ktemp
                  = Some (mkDataSet (ds_name tmp0) kept (ds_columnOrder tmp0))).
  { rewrite L9. subst s8. cbn [env log]. rewrite Htmp7. reflexivity. }
  unfold deref at 1, bind, getsEnv, gets. rewrite Htmp9.
  cbn [ret ds_name ds_rows]. rewrite Hname0.
  destruct (String.eqb_spec oname ktemp) as [|_]; [contradiction |].
  cbn [negb logM modify].
  assert (Hout9 : exists dsout, dataSets (env s9) !! kout = Some dsout).
  { rewrite L9. destruct (dataSets (env s8) !! kout); [eexists; reflexivity |].
    destruct (decide (kout = kout)); [eexists; reflexivity | contradiction]. }
  destruct Hout9 as [dsout Hout9].
  unfold deref, bind, getsEnv, gets. cbn [env log].
  rewrite lookup_update, Hout9.
  destruct (decide (kout = kout)) as [_ |]; [| contradiction].
  cbn [fmap option_fmap option_map ret].
  eexists. split; [reflexivity |]. split; [| exact Hkept].
  cbn [env log]. unfold rows_of. rewrite lookup_update, Hout9.
  destruct (decide (kout = kout)); [reflexivity | contradiction].
Qed.

End SortMore.

(** ** MERGE with BY *)

Section MergeMore.

Context `{Platform}.

Lemma rows_of_push out row st k :
  is_Some (st.(env).(dataSets) !! out) ->
  rows_of k (env (with_env (update_dataset out
                     (fun ds => set_rows (ds_rows ds ++ [row]) ds)) st))
  = if String.eqb k out then rows_of k (env st) ++ [row]
    else rows_of k (env st).
Proof.
  intros [ds Hds]. destruct st as [e ? ? ? ? ? ?].
  destruct e as [dss ? ? ? ? ? ?]. unfold rows_of. cbn in *. rewrite Hds.
  destruct (String.eqb_spec k out) as [-> | Hne].
  - rewrite lookup_insert_eq, Hds. reflexivity.
  - rewrite lookup_insert_ne by congruence. reflexivity.
Qed.

Lemma push_is_Some out row st k :
  is_Some (st.(env).(dataSets) !! k) ->
  is_Some ((with_env (update_dataset out
              (fun ds => set_rows (ds_rows ds ++ [row]) ds)) st)
             .(env).(dataSets) !! k).
Proof. apply update_dataset_is_Some. Qed.

(** Draining the rest of a dataset into another one. *)
Lemma drainRows_appends key out : forall fuel it st,
  key <> out ->
  is_Some (st.(env).(dataSets) !! out) ->
  (length (rows_of key st.(env)) - it < fuel)%nat ->
  exists st',
    drainRows fuel key it out st = Normal tt st' /\
    rows_of out st'.(env)
    = rows_of out st.(env) ++ drop it (rows_of key st.(env)) /\
    (forall k, k <> out -> rows_of k st'.(env) = rows_of k st.(env)) /\
    is_Some (st'.(env).(dataSets) !! out) /\
    st'.(logLogger) = st.(logLogger).
Proof.
  induction fuel as [|fuel IH]; intros it st Hne Hsome Hfuel; [lia |].
  cbn [drainRows]. unfold bind, row_of, getsEnv, gets.
  destruct (rows_of key (env st) !! it) as [row|] eqn:Erow.
  - unfold push_row, modifyEnv, modify.
    set (st1 := with_env (update_dataset out
                  (fun ds => set_rows (ds_rows ds ++ [row]) ds)) st).
    assert (Hkey1 : rows_of key (env st1) = rows_of key (env st)).
    { subst st1. rewrite rows_of_push by exact Hsome.
      destruct (String.eqb_spec key out); [contradiction | reflexivity]. }
    destruct (IH (S it) st1 Hne) as (st' & Hrun & Hout & Hother & Hsome' & Hlog).
    { apply push_is_Some. exact Hsome. }
    { rewrite Hkey1. apply lookup_lt_Some in Erow. lia. }
    exists st'. split; [exact Hrun |]. split; [| split; [| split]].
    + rewrite Hout, Hkey1. subst st1. rewrite rows_of_push by exact Hsome.
      rewrite String.eqb_refl, <- app_assoc. cbn [app].
      rewrite (drop_S _ _ _ Erow). reflexivity.
    + intros k Hk. rewrite (Hother k Hk). subst st1.
      rewrite rows_of_push by exact Hsome.
      destruct (String.eqb_spec k out); [contradiction | reflexivity].
    + exact Hsome'.
    + rewrite Hlog. subst st1. destruct st. reflexivity.
  - exists st. split; [reflexivity |]. split; [| auto].
    apply lookup_ge_None in Erow. rewrite drop_ge by lia.
    rewrite app_nil_r. reflexivity.
Qed.


(** X25.  The merge loop compares the BY values of the current rows of all
    datasets before anything else: with two datasets whose current rows
    differ in the first BY variable, MERGE throws "Data type mismatch for BY
    variable ... across datasets." and writes no row, although the values
    are of the same type. *)
Theorem merge_by_values_must_agree
        fuel var more k1 k2 i1 i2 out st r1 r2 :
  rows_of k1 st.(env) !! i1 = Some r1 ->
  rows_of k2 st.(env) !! i2 = Some r2 ->
  neb (byValue var r2) (byValue var r1) = true ->
  mergeLoop (S fuel) (var :: more) [k1; k2] [i1; i2] out st
  = Throw (runtime_error ("Data type mismatch for BY variable '" +:+ var
                          +:+ "' across datasets.")) st.
Proof.
  intros H1 H2 Hne. cbn [mergeLoop]. unfold bind, getsEnv, gets.
  cbn [zip_with]. rewrite H1, H2. cbn [forallb map fmap option_fmap option_map].
  cbn [andb]. unfold checkByValues. cbn [imap forM_]. unfold bind.
  cbn [mbind option_bind lookup list_lookup byValues map forM_].
  fold (byValue var r1). fold (byValue var r2). unfold bind.
  rewrite Hne. reflexivity.
Qed.


Lemma eqb_not_ltb x y : eqb y x = true -> ltb y x = false.
Proof.
  unfold eqb, ltb, SFeqb, SFltb.
  destruct (SFcompare y x) as [[]|]; congruence.
Qed.

Lemma eqb_self x y : eqb y x = true -> eqb x x = true.
Proof.
  unfold eqb, SFeqb.
  destruct x as [sx|sx| |sx mx ex], y as [sy|sy| |sy my ey];
    cbn; try congruence; try (destruct sx; reflexivity).
  all: intros _; rewrite Z.compare_refl;
    change (PosDef.Pos.compare_cont Eq mx mx) with (Pos.compare mx mx);
    rewrite Pos.compare_refl; destruct sx; reflexivity.
Qed.

Lemma byValues_cons var vars row :
  byValues (var :: vars) row = byValue var row :: byValues vars row.
Proof. reflexivity. Qed.

Lemma forM_unchanged {A} (l : list A) (f : A -> M unit) st :
  (forall x, In x l -> f x st = Normal tt st) ->
  forM_ l f st = Normal tt st.
Proof.
  induction l as [|x l IH]; intros Hf; [reflexivity |].
  cbn [forM_]. unfold bind. rewrite (Hf x) by (left; reflexivity).
  apply IH. intros y Hy. apply Hf. right. exact Hy.
Qed.

Lemma byValues_lookup vars row j var :
  vars !! j = Some var -> byValues vars row !! j = Some (byValue var row).
Proof.
  revert j. induction vars as [|v vars IH]; intros [|j] Hj;
    try discriminate Hj.
  - injection Hj as ->. reflexivity.
  - rewrite byValues_cons. exact (IH j Hj).
Qed.

Lemma checkByValues_agree byVars r1 r2 st :
  Forall (fun var => eqb (byValue var r2) (byValue var r1) = true) byVars ->
  checkByValues byVars
    [Some (byValues byVars r1); Some (byValues byVars r2)] st
  = Normal tt st.
Proof.
  intros Hall. unfold checkByValues. apply forM_unchanged.
  intros [j var] Hin. apply list_elem_of_In in Hin.
  apply elem_of_lookup_imap in Hin. destruct Hin as (i & v & Heq & Hv).
  injection Heq as -> ->.
  cbn [mbind option_bind]. rewrite (byValues_lookup _ _ _ _ Hv).
  cbn [forM_]. unfold bind. cbn [mbind option_bind].
  rewrite (byValues_lookup _ _ _ _ Hv).
  rewrite Forall_forall in Hall.
  assert (Hvar : v ∈ byVars) by (eapply list_elem_of_lookup_2; exact Hv).
  unfold neb. unfold eqb in Hall. rewrite (Hall v Hvar). reflexivity.
Qed.

Lemma minByValues_agree byVars r1 r2 :
  Forall (fun var => eqb (byValue var r2) (byValue var r1) = true) byVars ->
  minByValues [byValues byVars r1; byValues byVars r2] = byValues byVars r1.
Proof.
  unfold minByValues. cbn [fold_left].
  induction byVars as [|var vars IH]; intros Hall; [reflexivity |].
  inversion Hall as [|? ? Hvar Hrest]; subst.
  rewrite !byValues_cons. cbn [zip_with].
  rewrite (eqb_not_ltb _ _ Hvar), (IH Hrest). reflexivity.
Qed.

Lemma matches_agree byVars r1 r2 :
  Forall (fun var => eqb (byValue var r2) (byValue var r1) = true) byVars ->
  forallb (fun '(x, m) => negb (neb x m))
          (zip (byValues byVars r1) (byValues byVars r1)) = true /\
  forallb (fun '(x, m) => negb (neb x m))
          (zip (byValues byVars r2) (byValues byVars r1)) = true.
Proof.
  induction byVars as [|var vars IH]; intros Hall; [split; reflexivity |].
  inversion Hall as [|? ? Hvar Hrest]; subst.
  destruct (IH Hrest) as [IH1 IH2].
  rewrite !byValues_cons. cbn [zip zip_with forallb]. unfold neb.
  fold (eqb (byValue var r1) (byValue var r1)).
  fold (eqb (byValue var r2) (byValue var r1)).
  rewrite (eqb_self _ _ Hvar), Hvar. cbn [negb andb].
  split; assumption.
Qed.

(** X26.  When the current rows of two merged datasets agree on all BY
    variables and one of them is the last row of its dataset, the merge loop
    ends without writing the combined row: the output gets only the rows
    that come after the two current rows, and no other dataset changes. *)
Theorem merge_drops_exhausting_group
        fuel byVars k1 k2 i1 i2 out st r1 r2 :
  rows_of k1 st.(env) !! i1 = Some r1 ->
  rows_of k2 st.(env) !! i2 = Some r2 ->
  Forall (fun var => eqb (byValue var r2) (byValue var r1) = true) byVars ->
  S i1 = length (rows_of k1 st.(env)) \/
  S i2 = length (rows_of k2 st.(env)) ->
  k1 <> out -> k2 <> out ->
  is_Some (st.(env).(dataSets) !! out) ->
  (length (rows_of k1 st.(env)) + length (rows_of k2 st.(env)) < fuel)%nat ->
  exists st',
    mergeLoop (S fuel) byVars [k1; k2] [i1; i2] out st = Normal tt st' /\
    rows_of out st'.(env)
    = rows_of out st.(env) ++ drop (S i1) (rows_of k1 st.(env))
                           ++ drop (S i2) (rows_of k2 st.(env)) /\
    forall k, k <> out -> rows_of k st'.(env) = rows_of k st.(env).
Proof.
  intros H1 H2 Hall Hlast Hk1 Hk2 Hsome Hfuel.
  cbn [mergeLoop]. unfold bind, getsEnv, gets.
  cbn [zip_with]. rewrite H1, H2.
  cbn [forallb map fmap option_fmap option_map andb from_option id].
  rewrite (checkByValues_agree _ _ _ _ Hall).
  rewrite (minByValues_agree _ _ _ Hall).
  destruct (matches_agree _ _ _ Hall) as [-> ->].
  cbn [zip zip_with forallb].
  replace ((S i1 <? length (rows_of k1 (env st)))%nat
           && ((S i2 <? length (rows_of k2 (env st)))%nat && true))
    with false.
  2:{ symmetry. destruct Hlast as [<- | <-].
      - rewrite Nat.ltb_irrefl. reflexivity.
      - rewrite Nat.ltb_irrefl, andb_false_r. reflexivity. }
  cbn [negb forM_]. unfold bind.
  destruct (drainRows_appends k1 out fuel (S i1) st Hk1 Hsome)
    as (s1 & E1 & Hout1 & Hother1 & Hsome1 & _); [lia |].
  rewrite E1.
  destruct (drainRows_appends k2 out fuel (S i2) s1 Hk2 Hsome1)
    as (s2 & E2 & Hout2 & Hother2 & _ & _).
  { rewrite (Hother1 k2 Hk2). lia. }
  rewrite E2. exists s2. split; [reflexivity |]. split.
  - rewrite Hout2, Hout1, (Hother1 k2 Hk2), <- app_assoc. reflexivity.
  - intros k Hk. rewrite (Hother2 k Hk). apply Hother1. exact Hk.
Qed.

End MergeMore.

Lemma merge_by_values_must_agree_witness :
  mergeLoop 1 ["id"] ["ds1.ds1"; "ds2.ds2"] [0%nat; 1%nat]
             "WORK.out" (st_merge ["id"])
  = Throw (runtime_error
             "Data type mismatch for BY variable 'id' across datasets.")
          (st_merge ["id"]).
Proof.
  exact (merge_by_values_must_agree 0 "id" []
           "ds1.ds1" "ds2.ds2" 0%nat 1%nat "WORK.out" (st_merge ["id"])
           [("id", num 1); ("v", num 10)] [("id", num 2); ("v", num 21)]
           eq_refl eq_refl eq_refl).
Defined.

Lemma merge_drops_exhausting_group_witness :
  exists st',
    mergeLoop 6 ["id"] ["ds1.ds1"; "ds2.ds2"] [1%nat; 1%nat]
               "WORK.out" (st_merge ["id"]) = Normal tt st' /\
    rows_of "WORK.out" st'.(env) = [[("old", num 7)]].
Proof.
  destruct (merge_drops_exhausting_group 5 ["id"]
              "ds1.ds1" "ds2.ds2" 1%nat 1%nat "WORK.out" (st_merge ["id"])
              [("id", num 2); ("v", num 11)] [("id", num 2); ("v", num 21)])
    as (st' & Hrun & Hrows & _).
  - reflexivity.
  - reflexivity.
  - repeat constructor.
  - left. reflexivity.
  - discriminate.
  - discriminate.
  - eexists. vm_compute. reflexivity.
  - vm_compute. lia.
  - exists st'. split; [exact Hrun |]. rewrite Hrows. reflexivity.
Defined.

(** ** The program data vector *)

Section PdvTheorems.

Import Pdv.

Lemma toupper_eqb_refl c : Ascii.eqb (Stod.toupper c) (Stod.toupper c) = true.
Proof. apply Ascii.eqb_refl. Qed.

Lemma iequals_refl a : iequals a a = true.
Proof.
  induction a as [|c a IH]; cbn [iequals]; [reflexivity |].
  rewrite Ascii.eqb_refl, IH. reflexivity.
Qed.

Lemma iequals_sym a : forall b, iequals a b = iequals b a.
Proof.
  induction a as [|x a IH]; intros [|y b]; cbn [iequals]; try reflexivity.
  rewrite IH. f_equal. apply Ascii.eqb_sym.
Qed.

Lemma iequals_trans a : forall b c,
  iequals a b = true -> iequals b c = true -> iequals a c = true.
Proof.
  induction a as [|x a IH]; intros [|y b] [|z c]; cbn [iequals];
    try congruence.
  intros H1 H2. apply andb_prop in H1. apply andb_prop in H2.
  destruct H1 as [E1 H1], H2 as [E2 H2].
  apply Ascii.eqb_eq in E1. apply Ascii.eqb_eq in E2.
  rewrite E1, E2, Ascii.eqb_refl, (IH _ _ H1 H2). reflexivity.
Qed.


Lemma int_of_size_le n : int_of_size n <= Z.of_nat n.
Proof.
  unfold int_of_size.
  pose proof (Z.mod_le (Z.of_nat n) (2 ^ 32)) as Hle.
  pose proof (Z.mod_pos_bound (Z.of_nat n) (2 ^ 32)) as Hpos.
  destruct (Z.ltb_spec (Z.of_nat n mod 2 ^ 32) (2 ^ 31)); lia.
Qed.

Lemma inRange_lt i p :
  inRange i p = true -> (Z.to_nat i < List.length (pdvValues p))%nat.
Proof.
  unfold inRange. intros Hr. apply andb_prop in Hr. destruct Hr as [H0 H1].
  apply Z.leb_le in H0. apply Z.ltb_lt in H1.
  pose proof (int_of_size_le (List.length (pdvValues p))). lia.
Qed.

Lemma inRange_setValue i j c p : inRange j (setValue i c p) = inRange j p.
Proof.
  unfold setValue. destruct (inRange i p); [| reflexivity].
  unfold inRange. cbn [pdvValues]. rewrite length_insert. reflexivity.
Qed.

(** X27.  In the program data vector, reading a slot after a store gives
    the stored value when it is the slot stored to and the index is in
    range, and otherwise what the slot held before: a store out of range
    changes nothing, and a read out of range gives the missing numeric
    value. *)
Theorem pdv_set_then_get i j c p :
  getValue j (setValue i c p)
  = if inRange i p && (i =? j) then c else getValue j p.
Proof.
  unfold getValue. rewrite inRange_setValue.
  unfold setValue. destruct (inRange i p) eqn:Ei; cbn [andb];
    [| destruct (i =? j); reflexivity].
  pose proof (inRange_lt _ _ Ei) as Hlt.
  assert (H0 : 0 <= i).
  { unfold inRange in Ei. apply andb_prop in Ei. destruct Ei as [Ei _].
    apply Z.leb_le. exact Ei. }
  destruct (Z.eqb_spec i j) as [<- | Hne].
  - rewrite Ei. cbn [pdvValues].
    rewrite list_lookup_insert_eq by exact Hlt. reflexivity.
  - destruct (inRange j p) eqn:Ej; [| reflexivity]. cbn [pdvValues].
    assert (H0j : 0 <= j).
    { unfold inRange in Ej. apply andb_prop in Ej. destruct Ej as [Ej _].
      apply Z.leb_le. exact Ej. }
    rewrite list_lookup_insert_ne by lia. reflexivity.
Qed.


(** What [findVarIndex] returns: -1 when no variable has the name, and
    otherwise the position of the first one that has it. *)
Lemma findVarIndex_from_spec vars n : forall i,
  (findVarIndex_from i vars n = -1 /\
   forall v, In v vars -> iequals (name v) n = false) \/
  exists j v,
    vars !! j = Some v /\ iequals (name v) n = true /\
    findVarIndex_from i vars n = int_of_size (i + j) /\
    forall j' v', (j' < j)%nat -> vars !! j' = Some v' ->
                  iequals (name v') n = false.
Proof.
  induction vars as [|v vars IH]; intros i; cbn [findVarIndex_from].
  - left. split; [reflexivity | intros v []].
  - destruct (iequals (name v) n) eqn:E.
    + right. exists 0%nat, v. rewrite Nat.add_0_r.
      repeat split; try assumption. intros j' v' Hj'. lia.
    + destruct (IH (S i)) as [[Hnone Hall] | (j & w & Hj & Hw & Hidx & Hfirst)].
      * left. split; [exact Hnone |]. intros w [<- | Hw]; auto.
      * right. exists (S j), w. split; [exact Hj |]. split; [exact Hw |].
        split; [rewrite Hidx; f_equal; lia |].
        intros [|j'] v' Hlt Hv'.
        -- injection Hv' as <-. exact E.
        -- apply (Hfirst j' v'); [lia | exact Hv'].
Qed.

Lemma findVarIndex_from_app vars v n : forall i,
  (forall w, In w vars -> iequals (name w) n = false) ->
  findVarIndex_from i (vars ++ [v]) n
  = if iequals (name v) n then int_of_size (i + List.length vars) else -1.
Proof.
  induction vars as [|w vars IH]; intros i Hall; cbn [app findVarIndex_from].
  - rewrite Nat.add_0_r. reflexivity.
  - rewrite (Hall w) by (left; reflexivity).
    rewrite IH by (intros u Hu; apply Hall; right; exact Hu).
    cbn [List.length]. replace (S i + List.length vars)%nat
      with (i + S (List.length vars))%nat by lia. reflexivity.
Qed.

Lemma findVarIndex_from_app_found vars v n : forall i,
  findVarIndex_from i vars n <> -1 ->
  Z.of_nat (i + List.length vars) <= INT_MAX ->
  findVarIndex_from i (vars ++ [v]) n = findVarIndex_from i vars n.
Proof.
  induction vars as [|w vars IH]; intros i Hfound Hlen;
    cbn [app findVarIndex_from] in *; [contradiction |].
  destruct (iequals (name w) n); [reflexivity |].
  apply IH; [exact Hfound |]. cbn [List.length] in Hlen. lia.
Qed.

(** X28.  After [addVariable], looking the name up in any letter case finds
    a variable of that name.  When the vector already had a variable of the
    name, [addVariable] changes nothing; otherwise the new variable is at
    the end, and its value is missing: minus infinity for a numeric
    variable, the empty text for a character variable. *)
Theorem pdv_add_then_find (v : PdvVar) (p : PDV) (n : string) :
  aligned p ->
  Z.of_nat (List.length (pdvVars p)) < INT_MAX ->
  iequals (name v) n = true ->
  let p' := addVariable v p in
  let idx := findVarIndex p' n in
  aligned p' /\
  0 <= idx < Z.of_nat (List.length (pdvVars p')) /\
  (exists v', pdvVars p' !! Z.to_nat idx = Some v' /\
              iequals (name v') n = true) /\
  (0 <= findVarIndex p (name v) -> p' = p) /\
  (findVarIndex p (name v) < 0 ->
   idx = Z.of_nat (List.length (pdvVars p)) /\
   pdvVars p' !! Z.to_nat idx = Some v /\
   getValue idx p' = missing (isNumeric v)).
Proof.
  intros Hal Hlen Hn p' idx. subst p' idx. unfold addVariable, findVarIndex.
  destruct (findVarIndex_from_spec (pdvVars p) (name v) 0)
    as [[Hnone Hall] | (j & w & Hj & Hw & Hidx & Hfirst)].
  - (* the name is new *)
    unfold findVarIndex. rewrite Hnone. cbn [Z.leb Z.compare].
    change (0 <=? -1) with false. cbv iota. cbn [pdvVars pdvValues].
    assert (Hall' : forall w, In w (pdvVars p) -> iequals (name w) n = false).
    { intros w Hin. destruct (iequals (name w) n) eqn:E; [| reflexivity].
      rewrite <- (Hall w Hin). symmetry.
      apply (iequals_trans _ n); [exact E |].
      rewrite iequals_sym. exact Hn. }
    rewrite findVarIndex_from_app by exact Hall'. rewrite Hn.
    cbn [Nat.add]. rewrite int_of_size_small by (unfold INT_MAX in *; lia).
    rewrite Nat2Z.id.
    assert (Hlast : (pdvVars p ++ [v]) !! List.length (pdvVars p) = Some v)
      by (apply list_lookup_middle; reflexivity).
    split; [unfold aligned in *; cbn [pdvVars pdvValues];
            rewrite !List.length_app, Hal; reflexivity |].
    split; [rewrite List.length_app; cbn [List.length]; lia |].
    split; [exists v; split; [exact Hlast | exact Hn] |].
    split; [lia |]. intros _. split; [reflexivity |]. split; [exact Hlast |].
    unfold getValue, inRange. cbn [pdvValues].
    rewrite List.length_app. cbn [List.length].
    rewrite int_of_size_small
      by (unfold aligned in Hal; unfold INT_MAX in *; lia).
    replace ((0 <=? Z.of_nat (List.length (pdvVars p)))
             && (Z.of_nat (List.length (pdvVars p))
                 <? Z.of_nat (List.length (pdvValues p) + 1)))
      with true
      by (symmetry; apply andb_true_intro; split;
          [apply Z.leb_le | apply Z.ltb_lt]; unfold aligned in Hal; lia).
    rewrite Nat2Z.id, Hal.
    rewrite list_lookup_middle by reflexivity. reflexivity.
  - (* a variable has the name already *)
    assert (Hjlt : (j < List.length (pdvVars p))%nat)
      by (apply lookup_lt_Some in Hj; exact Hj).
    assert (Hidx' : findVarIndex_from 0 (pdvVars p) (name v) = Z.of_nat j).
    { rewrite Hidx. cbn [Nat.add]. apply int_of_size_small.
      unfold INT_MAX in *. lia. }
    unfold findVarIndex. rewrite Hidx'.
    replace (0 <=? Z.of_nat j) with true by (symmetry; apply Z.leb_le; lia).
    destruct (findVarIndex_from_spec (pdvVars p) n 0)
      as [[Hnone Hall] | (k & u & Hk & Hu & Hkidx & _)].
    + exfalso. assert (E : iequals (name w) n = true)
        by (apply (iequals_trans _ (name v)); assumption).
      rewrite (Hall w) in E; [discriminate E |].
      apply list_elem_of_In. eapply list_elem_of_lookup_2. exact Hj.
    + assert (Hklt : (k < List.length (pdvVars p))%nat)
        by (apply lookup_lt_Some in Hk; exact Hk).
      rewrite Hkidx. cbn [Nat.add].
      rewrite int_of_size_small by (unfold INT_MAX in *; lia).
      rewrite Nat2Z.id.
      split; [exact Hal |]. split; [lia |].
      split; [exists u; split; assumption |].
      split; [reflexivity | lia].
Qed.


Lemma resetValues_spec vars : forall vals,
  List.length vars = List.length vals ->
  exists vals',
    resetValues vars vals = Some vals' /\
    List.length vals' = List.length vals /\
    forall i v, vars !! i = Some v ->
      vals' !! i = if retained v then vals !! i
                   else Some (missing (isNumeric v)).
Proof.
  induction vars as [|v vars IH]; intros [|c vals] Hlen;
    try discriminate Hlen; cbn [resetValues].
  - exists []. repeat split. intros i v Hv. destruct i; discriminate Hv.
  - injection Hlen as Hlen. destruct (IH vals Hlen) as (vals' & Hr & Hl & Hi).
    rewrite Hr. cbn [option_map]. eexists. split; [reflexivity |].
    split; [cbn [List.length]; rewrite Hl; reflexivity |].
    intros [|i] w Hw.
    + injection Hw as <-. destruct (retained v); reflexivity.
    + exact (Hi i w Hw).
Qed.

(** X29.  The operations of the program data vector keep its two vectors,
    the variables and their values, of the same length; on such a vector
    [resetNonRetained] stays within bounds and keeps the variables. *)
Theorem pdv_stays_aligned (p : PDV) :
  aligned p ->
  (forall v, aligned (addVariable v p)) /\
  (forall i c, aligned (setValue i c p)) /\
  (forall n flag, aligned (setRetainFlag n flag p)) /\
  exists p', resetNonRetained p = Some p' /\ aligned p' /\
             pdvVars p' = pdvVars p.
Proof.
  intros Hal. unfold aligned in *. repeat split.
  - intros v. unfold addVariable.
    destruct (0 <=? findVarIndex p (name v)); [exact Hal |].
    cbn [pdvVars pdvValues]. rewrite !List.length_app, Hal. reflexivity.
  - intros i c. unfold setValue. destruct (inRange i p); [| exact Hal].
    cbn [pdvVars pdvValues]. rewrite length_insert. exact Hal.
  - intros n flag. unfold setRetainFlag.
    destruct (0 <=? findVarIndex p n); [| exact Hal].
    cbn [pdvVars pdvValues]. rewrite length_alter. exact Hal.
  - destruct (resetValues_spec _ _ Hal) as (vals' & Hr & Hl & _).
    exists (mkPDV (pdvVars p) vals'). unfold resetNonRetained. rewrite Hr.
    split; [reflexivity |]. split; [| reflexivity].
    cbn [pdvVars pdvValues]. rewrite Hl. exact Hal.
Qed.

(** X30.  [resetNonRetained] keeps the value of every retained variable and
    sets every other variable to missing; doing it twice is doing it once;
    and a variable whose retain flag has been set by name, in any letter
    case, keeps its value over a reset. *)
Theorem pdv_reset_keeps_retained (p : PDV) (n : string) :
  aligned p ->
  Z.of_nat (List.length (pdvVars p)) <= INT_MAX ->
  exists p1 p2,
    resetNonRetained p = Some p1 /\
    resetNonRetained (setRetainFlag n true p) = Some p2 /\
    pdvVars p1 = pdvVars p /\
    (forall i v, pdvVars p !! i = Some v ->
       pdvValues p1 !! i = if retained v then pdvValues p !! i
                           else Some (missing (isNumeric v))) /\
    resetNonRetained p1 = Some p1 /\
    (0 <= findVarIndex p n ->
     getValue (findVarIndex p n) p2 = getValue (findVarIndex p n) p).
Proof.
  intros Hal Hlen.
  destruct (resetValues_spec _ _ Hal) as (vals1 & Hr1 & Hl1 & Hi1).
  set (p0 := setRetainFlag n true p).
  assert (Hal0 : aligned p0).
  { unfold p0, setRetainFlag, aligned.
    destruct (0 <=? findVarIndex p n); [| exact Hal].
    cbn [pdvVars pdvValues]. rewrite length_alter. exact Hal. }
  destruct (resetValues_spec _ _ Hal0) as (vals2 & Hr2 & Hl2 & Hi2).
  exists (mkPDV (pdvVars p) vals1), (mkPDV (pdvVars p0) vals2).
  unfold resetNonRetained. rewrite Hr1, Hr2. cbn [option_map pdvVars pdvValues].
  split; [reflexivity |]. split; [reflexivity |]. split; [reflexivity |].
  split; [exact Hi1 |]. split.
  - (* resetting twice changes nothing more *)
    assert (Hal1 : List.length (pdvVars p) = List.length vals1)
      by (rewrite Hl1; exact Hal).
    destruct (resetValues_spec _ _ Hal1) as (vals3 & Hr3 & Hl3 & Hi3).
    rewrite Hr3. cbn [option_map]. f_equal. f_equal.
    apply list_eq. intros i.
    destruct (pdvVars p !! i) as [v|] eqn:Ev.
    + rewrite (Hi3 i v Ev), (Hi1 i v Ev). destruct (retained v); reflexivity.
    + apply lookup_ge_None in Ev.
      rewrite !(proj2 (lookup_ge_None _ _)) by lia. reflexivity.
  - (* a variable marked as retained keeps its value *)
    intros Hfound.
    destruct (findVarIndex_from_spec (pdvVars p) n 0)
      as [[Hnone _] | (j & w & Hj & Hw & Hidx & _)].
    { unfold findVarIndex in Hfound. rewrite Hnone in Hfound. lia. }
    assert (Hjlt : (j < List.length (pdvVars p))%nat)
      by (apply lookup_lt_Some in Hj; exact Hj).
    assert (Hidx' : findVarIndex p n = Z.of_nat j).
    { unfold findVarIndex. rewrite Hidx. cbn [Nat.add].
      apply int_of_size_small. lia. }
    rewrite Hidx'. unfold getValue, inRange. cbn [pdvValues].
    rewrite Hl2.
    replace (pdvValues p0) with (pdvValues p)
      by (unfold p0, setRetainFlag; destruct (0 <=? findVarIndex p n);
          reflexivity).
    destruct ((0 <=? Z.of_nat j)
              && (Z.of_nat j <? int_of_size (List.length (pdvValues p))));
      [| reflexivity].
    rewrite Nat2Z.id.
    assert (Hv0 : pdvVars p0 !! j = Some (set_retained true w)).
    { unfold p0, setRetainFlag. rewrite Hidx'.
      replace (0 <=? Z.of_nat j) with true by (symmetry; apply Z.leb_le; lia).
      cbn [pdvVars]. rewrite Nat2Z.id, list_lookup_alter_eq, Hj. reflexivity. }
    rewrite (Hi2 j _ Hv0). cbn [set_retained retained].
    replace (pdvValues p0) with (pdvValues p)
      by (unfold p0, setRetainFlag; destruct (0 <=? findVarIndex p n);
          reflexivity).
    reflexivity.
Qed.

End PdvTheorems.

Lemma pdv_add_then_find_witness :
  Pdv.findVarIndex
    (Pdv.addVariable (Pdv.mkPdvVar "Age" true 8 "" "" "" 0 false) Pdv.empty)
    "AGE" = 0 /\
  Pdv.getValue 0
    (Pdv.addVariable (Pdv.mkPdvVar "Age" true 8 "" "" "" 0 false) Pdv.empty)
  = Pdv.CNum (S754_infinity true).
Proof.
  pose proof (pdv_add_then_find
                (Pdv.mkPdvVar "Age" true 8 "" "" "" 0 false) Pdv.empty "AGE"
                eq_refl eq_refl eq_refl) as Hadd.
  cbv zeta in Hadd. destruct Hadd as (_ & _ & _ & _ & Hnew).
  destruct (Hnew eq_refl) as (Hidx & _ & Hget).
  split; [exact Hidx |]. rewrite Hidx in Hget. exact Hget.
Defined.

Lemma pdv_stays_aligned_witness :
  Pdv.aligned
    (Pdv.setValue 0 (Pdv.CNum one)
       (Pdv.addVariable (Pdv.mkPdvVar "Age" true 8 "" "" "" 0 false)
                        Pdv.empty)).
Proof.
  apply (pdv_stays_aligned
           (Pdv.addVariable (Pdv.mkPdvVar "Age" true 8 "" "" "" 0 false)
                            Pdv.empty)).
  apply (pdv_stays_aligned Pdv.empty). reflexivity.
Defined.

Lemma pdv_reset_keeps_retained_witness :
  exists p2,
    Pdv.resetNonRetained
      (Pdv.setRetainFlag "AGE" true
         (Pdv.setValue 0 (Pdv.CNum one)
            (Pdv.addVariable (Pdv.mkPdvVar "Age" true 8 "" "" "" 0 false)
                             Pdv.empty))) = Some p2 /\
    Pdv.getValue 0 p2 = Pdv.CNum one.
Proof.
  destruct (pdv_reset_keeps_retained
              (Pdv.setValue 0 (Pdv.CNum one)
                 (Pdv.addVariable
                    (Pdv.mkPdvVar "Age" true 8 "" "" "" 0 false) Pdv.empty))
              "AGE" eq_refl)
    as (p1 & p2 & _ & Hreset & _ & _ & _ & Hkeep).
  - vm_compute. discriminate.
  - exists p2. split; [exact Hreset |]. exact (Hkeep ltac:(vm_compute; discriminate)).
Defined.

(** ** The order of sorted rows *)

Section Order.

(** The order of [double] on numbers that are not NaN. *)
Ltac order_cases :=
  repeat match goal with
         | |- context [Z.compare ?a ?b] =>
           destruct (Z.compare_spec a b); subst
         | |- context [Pos.compare ?a ?b] =>
           destruct (Pos.compare_spec a b); subst
         | H : context [Z.compare ?a ?b] |- _ =>
           destruct (Z.compare_spec a b); subst
         | H : context [Pos.compare ?a ?b] |- _ =>
           destruct (Pos.compare_spec a b); subst
         end;
  cbn in *; try congruence; try lia.

Ltac order_start :=
  unfold ltb, SFltb, SFcompare;
  repeat match goal with
         | x : double |- _ => destruct x as [[]|[]| |[] ? ?]
         end;
  cbn [is_nan]; intros; try discriminate; try reflexivity;
  change PosDef.Pos.compare_cont with Pos.compare_cont in *;
  repeat match goal with
         | H : context [Pos.compare_cont Eq ?a ?b] |- _ =>
           change (Pos.compare_cont Eq a b) with (Pos.compare a b) in H
         | |- context [Pos.compare_cont Eq ?a ?b] =>
           change (Pos.compare_cont Eq a b) with (Pos.compare a b)
         end.

Lemma ltb_trans (x y z : double) :
  ltb x y = true -> ltb y z = true -> ltb x z = true.
Proof. revert x y z. intros x y z. order_start; order_cases. Qed.

Lemma ltb_asym (x y : double) : ltb x y = true -> ltb y x = false.
Proof. order_start; order_cases. Qed.


Lemma ltb_eq_r (x y z : double) :
  is_nan z = false ->
  ltb x y = true -> ltb y z = false -> ltb z y = false -> ltb x z = true.
Proof. order_start; order_cases. Qed.

Lemma ltb_eq_l (x y z : double) :
  is_nan x = false ->
  ltb x y = false -> ltb y x = false -> ltb y z = true -> ltb x z = true.
Proof. order_start; order_cases. Qed.

Lemma ltb_eq_trans (x y z : double) :
  is_nan x = false -> is_nan y = false -> is_nan z = false ->
  ltb x y = false -> ltb y x = false ->
  ltb y z = false -> ltb z y = false ->
  ltb x z = false.
Proof. order_start; order_cases. Qed.

(** The order of rows on BY variables that hold numbers. *)
Lemma row_lt_trans byVars a b c :
  by_numeric byVars a -> by_numeric byVars b -> by_numeric byVars c ->
  row_lt byVars a b = true -> row_lt byVars b c = true ->
  row_lt byVars a c = true.
Proof.
  unfold by_numeric.
  induction byVars as [|v vars IH]; intros Ha Hb Hc Hab Hbc;
    [discriminate Hab |].
  inversion Ha as [|? ? (x & Hx & Nx) Ha']; subst.
  inversion Hb as [|? ? (y & Hy & Ny) Hb']; subst.
  inversion Hc as [|? ? (z & Hz & Nz) Hc']; subst.
  cbn [row_lt] in *. rewrite Hx, Hy, Hz in *. cbn [value_lt] in *.
  destruct (ltb x y) eqn:Exy.
  - destruct (ltb y z) eqn:Eyz.
    + rewrite (ltb_trans _ _ _ Exy Eyz). reflexivity.
    + destruct (ltb z y) eqn:Ezy; [discriminate Hbc |].
      rewrite (ltb_eq_r _ _ _ Nz Exy Eyz Ezy). reflexivity.
  - destruct (ltb y x) eqn:Eyx; [discriminate Hab |].
    destruct (ltb y z) eqn:Eyz.
    + rewrite (ltb_eq_l _ _ _ Nx Exy Eyx Eyz). reflexivity.
    + destruct (ltb z y) eqn:Ezy; [discriminate Hbc |].
      rewrite (ltb_eq_trans _ _ _ Nx Ny Nz Exy Eyx Eyz Ezy).
      rewrite (ltb_eq_trans _ _ _ Nz Ny Nx Ezy Eyz Eyx Exy).
      apply IH; assumption.
Qed.

Lemma row_lt_asym byVars a b :
  row_lt byVars a b = true -> row_lt byVars b a = false.
Proof.
  induction byVars as [|v vars IH]; intros Hab; [reflexivity |].
  cbn [row_lt] in *.
  destruct (value_lt (row_find v a) (row_find v b)) eqn:Eab.
  - assert (Eba : value_lt (row_find v b) (row_find v a) = false).
    { destruct (row_find v a) as [[x|x]|], (row_find v b) as [[y|y]|];
        cbn [value_lt] in *; try reflexivity; try discriminate Eab.
      - apply ltb_asym. exact Eab.
      - unfold String.ltb in *.
        rewrite String.compare_antisym.
        destruct (String.compare x y); cbn; congruence. }
    rewrite Eba. reflexivity.
  - destruct (value_lt (row_find v b) (row_find v a)); [discriminate Hab |].
    apply IH. exact Hab.
Qed.

Lemma insert_row_In byVars r x : forall rows,
  In x (insert_row byVars r rows) -> x = r \/ In x rows.
Proof.
  induction rows as [|r' t IH]; cbn [insert_row].
  - intros [<- | []]. left. reflexivity.
  - destruct (row_lt byVars r r').
    + intros [<- | Hx]; [left; reflexivity | right; exact Hx].
    + intros [<- | Hx]; [right; left; reflexivity |].
      destruct (IH Hx) as [-> | Hin]; [left; reflexivity | right; right; exact Hin].
Qed.

Lemma insert_row_ascending byVars r : forall rows,
  by_numeric byVars r ->
  Forall (by_numeric byVars) rows ->
  ascending byVars rows ->
  ascending byVars (insert_row byVars r rows).
Proof.
  induction rows as [|r' t IH]; intros Hr Hnum Hasc.
  - cbn. split; [constructor | exact I].
  - inversion Hnum as [|? ? Hr' Ht]; subst.
    destruct Hasc as [Hhead Htail].
    cbn [insert_row]. destruct (row_lt byVars r r') eqn:Elt.
    + cbn [ascending]. split; [| split; assumption].
      constructor; [apply row_lt_asym; exact Elt |].
      rewrite Forall_forall in *. intros x Hx.
      destruct (row_lt byVars x r) eqn:Exr; [| reflexivity].
      rewrite <- (Hhead x Hx). symmetry.
      apply (row_lt_trans byVars x r r'); try assumption.
      apply Ht. exact Hx.
    + cbn [ascending]. split; [| apply IH; assumption].
      apply Forall_forall. intros x Hx. apply list_elem_of_In in Hx.
      apply insert_row_In in Hx. destruct Hx as [-> | Hx]; [exact Elt |].
      rewrite Forall_forall in Hhead. apply Hhead.
      apply list_elem_of_In. exact Hx.
Qed.

(** The sort puts rows whose BY variables hold numbers in ascending order. *)
Lemma sortRows_ascending byVars rows :
  Forall (by_numeric byVars) rows ->
  ascending byVars (sortRows byVars rows).
Proof.
  unfold sortRows.
  enough (Hacc : forall acc,
             Forall (by_numeric byVars) acc -> ascending byVars acc ->
             Forall (by_numeric byVars) rows ->
             ascending byVars
               (fold_left (fun acc r => insert_row byVars r acc) rows acc)).
  { intros Hrows. apply Hacc; [constructor | exact I | exact Hrows]. }
  induction rows as [|r rows IH]; intros acc Hacc Hasc Hrows; [exact Hasc |].
  inversion Hrows as [|? ? Hr Hrest]; subst.
  cbn [fold_left]. apply IH; [| apply insert_row_ascending; assumption
                              | exact Hrest].
  apply Forall_forall. intros x Hx. apply list_elem_of_In in Hx.
  apply insert_row_In in Hx. destruct Hx as [-> | Hx]; [exact Hr |].
  rewrite Forall_forall in Hacc. apply Hacc. apply list_elem_of_In. exact Hx.
Qed.

End Order.

(** ** PROC SORT: order and keys *)

Section SortOrder.

Context `{Platform}.

(** X23.  PROC SORT without WHERE and NODUPKEY sorts the input dataset
    itself, also when OUT= names another dataset: afterwards the input
    dataset holds what [Sorter::sortDataset] makes of its rows, a
    permutation of them that is in ascending order of the BY variables when
    these hold numbers other than NaN in every row; the output dataset
    holds the same rows when it is another dataset than the input; and the
    rows of all other datasets are unchanged. *)
Theorem proc_sort_reorders_input
        inputDataSet outputDataSet byVars duplicates st :
  let kin := resolveLibref inputDataSet inputDataSet in
  let oname :=
    if String.eqb outputDataSet "" then inputDataSet else outputDataSet in
  let kout := resolveLibref oname oname in
  exists st',
    executeProcSort inputDataSet outputDataSet byVars None false duplicates st
    = Normal tt st' /\
    Permutation (rows_of kin st'.(env)) (rows_of kin st.(env)) /\
    (Forall (by_numeric byVars) (rows_of kin st.(env)) ->
     ascending byVars (rows_of kin st'.(env))) /\
    rows_of kin st'.(env) = sortRows byVars (rows_of kin st.(env)) /\
    (forall ds, st'.(env).(dataSets) !! kin = Some ds ->
                ds.(ds_name) <> oname ->
                rows_of kout st'.(env) = rows_of kin st'.(env)) /\
    (forall k, k <> kin -> k <> kout ->
               rows_of k st'.(env) = rows_of k st.(env)).
Proof.
  intros kin oname kout.
  destruct (executeProcSort_in_place inputDataSet outputDataSet byVars
              duplicates st) as (st' & Hrun & Hperm & Hin & Hout & Hother).
  fold kin oname kout in Hperm, Hin, Hout, Hother.
  exists st'. split; [exact Hrun |]. rewrite Hin.
  split; [exact Hperm |]. split; [apply sortRows_ascending |].
  split; [reflexivity |]. split; [exact Hout | exact Hother].
Qed.

Lemma keep_first_sublist byVars rows : forall seen,
  sublist (keep_first byVars seen rows) rows.
Proof.
  induction rows as [|r rows IH]; intros seen; cbn [keep_first].
  - constructor.
  - destruct (mem (dupKey byVars r) seen).
    + apply sublist_cons, IH.
    + apply sublist_skip, IH.
Qed.

Lemma keep_first_keeps_first byVars rows : forall seen i row,
  rows !! i = Some row ->
  ~ In (dupKey byVars row) seen ->
  (forall j row', (j < i)%nat -> rows !! j = Some row' ->
                  dupKey byVars row' <> dupKey byVars row) ->
  In row (keep_first byVars seen rows).
Proof.
  induction rows as [|r rows IH]; intros seen i row Hi Hseen Hfirst;
    [discriminate Hi |].
  cbn [keep_first]. destruct i as [|i].
  - injection Hi as ->.
    apply mem_false in Hseen. rewrite Hseen. left. reflexivity.
  - assert (Hr : dupKey byVars r <> dupKey byVars row)
      by (apply (Hfirst O r); [lia | reflexivity]).
    assert (Hlater : forall j row', (j < i)%nat -> rows !! j = Some row' ->
                       dupKey byVars row' <> dupKey byVars row)
      by (intros j row' Hj Hrow'; apply (Hfirst (S j) row'); [lia | exact Hrow']).
    destruct (mem (dupKey byVars r) seen).
    + apply (IH seen i row Hi Hseen Hlater).
    + right. apply (IH _ i row Hi); [| exact Hlater].
      intros [Heq | Hin]; [exact (Hr Heq) | exact (Hseen Hin)].
Qed.

(** X24.  PROC SORT with NODUPKEY keeps, of the sorted rows of the input
    (in ascending order when the BY variables hold numbers), the first row
    of each key, and writes them in their order to the output dataset.  The
    key of a row is the text of its BY values, numbers with six decimals,
    so that numbers that differ beyond the sixth decimal have one key.  No
    two rows of the output have the same key, every row of the output is a
    row of the input, and every row of the input has a row with its key in
    the output. *)
Theorem proc_sort_nodupkey inputDataSet outputDataSet byVars st :
  let kin := resolveLibref inputDataSet inputDataSet in
  let oname :=
    if String.eqb outputDataSet "" then inputDataSet else outputDataSet in
  let kout := resolveLibref oname oname in
  let ktemp := resolveLibref "TEMP_SORT_NODUPKEY" "TEMP_SORT_NODUPKEY" in
  let sorted := sortRows byVars (rows_of kin st.(env)) in
  Forall (by_not_nan byVars) (rows_of kin st.(env)) ->
  kin <> ktemp ->
  oname <> ktemp ->
  (forall ds, st.(env).(dataSets) !! ktemp = Some ds -> ds.(ds_name) = ktemp) ->
  exists st',
    executeProcSort inputDataSet outputDataSet byVars None true false st
    = Normal tt st' /\
    let kept := rows_of kout st'.(env) in
    (Forall (by_numeric byVars) (rows_of kin st.(env)) ->
     ascending byVars sorted) /\
    sublist kept sorted /\
    (forall i row,
       sorted !! i = Some row ->
       (forall j row', (j < i)%nat -> sorted !! j = Some row' ->
                       dupKey byVars row' <> dupKey byVars row) ->
       In row kept) /\
    List.NoDup (map (dupKey byVars) kept) /\
    (forall row, In row kept -> In row (rows_of kin st.(env))) /\
    (forall row, In row (rows_of kin st.(env)) ->
       exists row', In row' kept /\ dupKey byVars row' = dupKey byVars row).
Proof.
  intros kin oname kout ktemp sorted _ Hkin Honame Htemp.
  destruct (executeProcSort_keeps_first inputDataSet outputDataSet byVars st
              Hkin Honame Htemp)
    as (st' & Hrun & Hrows & Hnodup & Hsub & Hcover).
  fold kin oname kout in Hrows, Hnodup, Hsub, Hcover.
  exists st'. split; [exact Hrun |]. cbv zeta. rewrite Hrows.
  split; [apply sortRows_ascending |].
  split; [apply keep_first_sublist |].
  split; [| split; [exact Hnodup | split; [exact Hsub | exact Hcover]]].
  intros i row Hi Hfirst.
  apply (keep_first_keeps_first byVars _ [] i row Hi); [| exact Hfirst].
  intros [].
Qed.

End SortOrder.

Lemma proc_sort_reorders_input_witness :
  exists st',
    @executeProcSort bare_platform "ds1" "sorted" ["id"] None false false
                     (st_merge ["id"]) = Normal tt st' /\
    Permutation (rows_of "ds1.ds1" st'.(env))
                (rows_of "ds1.ds1" (st_merge ["id"]).(env)) /\
    ascending ["id"] (rows_of "ds1.ds1" st'.(env)).
Proof.
  destruct (@proc_sort_reorders_input bare_platform "ds1" "sorted" ["id"]
              false (st_merge ["id"]))
    as (st' & Hrun & Hperm & Hasc & _).
  exists st'. split; [exact Hrun |]. split; [exact Hperm |].
  apply Hasc. repeat constructor; eexists; split; reflexivity.
Defined.

Lemma proc_sort_nodupkey_witness :
  exists st',
    @executeProcSort bare_platform "ds1" "" ["id"] None true false
                     (st_merge ["id"]) = Normal tt st' /\
    sublist (rows_of "ds1.ds1" st'.(env))
            (sortRows ["id"] (rows_of "ds1.ds1" (st_merge ["id"]).(env))) /\
    List.NoDup (map (dupKey ["id"]) (rows_of "ds1.ds1" st'.(env))).
Proof.
  destruct (@proc_sort_nodupkey bare_platform "ds1" "" ["id"]
              (st_merge ["id"]))
    as (st' & Hrun & _ & Hsub & _ & Hnodup & _).
  - repeat constructor; discriminate.
  - discriminate.
  - discriminate.
  - intros ds Hds. vm_compute in Hds. discriminate Hds.
  - exists st'. split; [exact Hrun |]. split; [exact Hsub | exact Hnodup].
Defined.

(** ** PROC PRINT: the listing *)

Section PrintListing.

Context `{Platform}.

Lemma printDataset_lines ds st :
  printDataset ds st
  = Normal tt
      (add_lsts
         (rev (imap (fun i row =>
                 mkLog info "{}"
                   [AStr (to_string_int (Z.of_nat (S i)) +:+ tab
                          +:+ join tab
                                (map (fun col =>
                                        match row_find col row with
                                        | Some v => toString v
                                        | None => "."
                                        end) ds.(ds_columnOrder)))])
                    ds.(ds_rows))
          ++ [mkLog info "{}" [AStr (join tab ds.(ds_columnOrder))]]) st).
Proof.
  unfold printDataset, bind, lstM, modify.
  set (r := fun x : nat * Row =>
    mkLog info "{}"
      [AStr (to_string_int (Z.of_nat (S (fst x))) +:+ tab
             +:+ join tab (map (fun col => match row_find col (snd x) with
                                           | Some v => toString v
                                           | None => "."
                                           end) ds.(ds_columnOrder)))]).
  rewrite (forM_ext _ (fun x => lstM (fmt (r x)) (args (r x))))
    by (intros [i row] _; reflexivity).
  rewrite forM_lstM by reflexivity.
  change (map r (imap (fun i row => (i, row)) ds.(ds_rows)))
    with (r <$> imap (fun i row => (i, row)) ds.(ds_rows)).
  rewrite fmap_imap.
  destruct st. unfold add_lsts, lst. cbn. rewrite <- app_assoc. reflexivity.
Qed.

(** X22.  PROC PRINT always succeeds, also for a dataset that does not
    exist, which it creates empty, and it changes no row of any dataset.  To
    the listing it adds the line "PROC PRINT Results for Dataset" with the
    name of the dataset, the title line when a title is set, the names of
    the columns joined by tabs, and one line for each row: the number of the
    observation, from 1, a tab, and the values of the row in the order of
    the columns, joined by tabs, with "." for a variable the row does not
    have. *)
Theorem proc_print_listing datasetName st :
  let key := "WORK." +:+ datasetName in
  let ds := default (mkDataSet key [] []) (st.(env).(dataSets) !! key) in
  let cell (row : Row) (col : string) :=
    match row_find col row with
    | Some v => toString v
    | None => "."
    end in
  exists st',
    executeProc "print" datasetName st = Normal tt st' /\
    (forall k, rows_of k st'.(env) = rows_of k st.(env)) /\
    is_Some (st'.(env).(dataSets) !! key) /\
    st'.(logLogger)
    = mkLog info "Executing PROC PRINT on dataset '{}'." [AStr datasetName]
      :: st.(logLogger) /\
    length st'.(lstLogger)
    = (length ds.(ds_rows) + (if String.eqb st.(env).(title) "" then 2 else 3)
       + length st.(lstLogger))%nat /\
    (no_nan ds.(ds_rows) ->
     st'.(lstLogger)
     = rev (imap (fun i row =>
                    mkLog info "{}"
                      [AStr (to_string_int (Z.of_nat (S i)) +:+ tab
                             +:+ join tab (map (cell row)
                                               ds.(ds_columnOrder)))])
                 ds.(ds_rows))
       ++ mkLog info "{}" [AStr (join tab ds.(ds_columnOrder))]
       :: (if String.eqb st.(env).(title) "" then []
           else [mkLog info "Title: {}" [AStr st.(env).(title)]])
       ++ mkLog info "PROC PRINT Results for Dataset '{}':"
                [AStr ds.(ds_name)]
       :: st.(lstLogger)).
Proof.
  intros key ds cell.
  unfold executeProc. cbn [String.eqb Ascii.eqb Bool.eqb]. unfold bind.
  set (s1 := log info "Executing PROC PRINT on dataset '{}'."
                 [AStr datasetName] st).
  change (logM info "Executing PROC PRINT on dataset '{}'."
               [AStr datasetName] st) with (Normal tt s1).
  destruct (getOrCreateDatasetM_lookup "" datasetName s1)
    as (s2 & E2 & Hlook & Hlog2).
  destruct (getOrCreateDatasetM_normal "" datasetName s1)
    as (s2' & E2' & _ & Hlst2 & Htitle2).
  rewrite E2 in E2'. injection E2' as <-.
  rewrite E2. change (resolveLibref "" datasetName) with key in *.
  assert (Hds : dataSets (env s2) !! key = Some ds).
  { rewrite Hlook. change (dataSets (env s1)) with (dataSets (env st)).
    subst ds. destruct (dataSets (env st) !! key); [reflexivity |].
    destruct (decide (key = key)); [reflexivity | contradiction]. }
  assert (Hrows : forall k, rows_of k (env s2) = rows_of k (env st)).
  { intros k. unfold rows_of. rewrite Hlook.
    change (dataSets (env s1)) with (dataSets (env st)).
    destruct (dataSets (env st) !! k); [reflexivity |].
    destruct (decide (k = key)); reflexivity. }
  unfold deref, bind, getsEnv, gets. rewrite Hds.
  unfold ret at 1, lstM at 1, modify.
  set (s3 := lst "PROC PRINT Results for Dataset '{}':" [AStr (ds_name ds)] s2).
  assert (Ht3 : title (env s3) = title (env st))
    by (transitivity (title (env s2));
        [destruct s2; reflexivity | rewrite Htitle2; reflexivity]).
  rewrite Ht3.
  assert (Hadd : forall lines s,
             env (add_lsts lines s) = env s /\
             logLogger (add_lsts lines s) = logLogger s /\
             lstLogger (add_lsts lines s) = lines ++ lstLogger s)
    by (intros lines s; destruct s; repeat split).
  assert (Hlst : forall f a s,
             env (lst f a s) = env s /\ logLogger (lst f a s) = logLogger s /\
             lstLogger (lst f a s) = mkLog info f a :: lstLogger s)
    by (intros f a s; destruct s; repeat split).
  destruct (Hlst "PROC PRINT Results for Dataset '{}':" [AStr (ds_name ds)] s2)
    as (Henv3 & Hlog3 & Hlst3).
  fold s3 in Henv3, Hlog3, Hlst3.
  rewrite Hlst2 in Hlst3. rewrite Hlog2 in Hlog3.
  change (lstLogger s1) with (lstLogger st) in Hlst3.
  clearbody s3.
  destruct (String.eqb (title (env st)) "") eqn:Et;
    unfold ret, lstM, modify; rewrite printDataset_lines;
    (eexists; split; [reflexivity |]);
    match goal with
    | |- context [add_lsts ?lines ?s] =>
      destruct (Hadd lines s) as (-> & -> & ->)
    end;
    try match goal with
    | |- context [lst ?f ?a ?s] => destruct (Hlst f a s) as (-> & -> & ->)
    end;
    rewrite Henv3, Hlog3, Hlst3;
    (split; [exact Hrows |]);
    (split; [rewrite Hds; eexists; reflexivity |]);
    (split; [reflexivity |]);
    (split; [| intros _; rewrite <- app_assoc; reflexivity]);
    rewrite !List.length_app, List.length_rev, length_imap;
    cbn [length app]; lia.
Qed.

End PrintListing.

Lemma proc_print_listing_witness :
  exists st',
    executeProc "print" "in" (st_merge []) = Normal tt st' /\
    st'.(lstLogger)
    = [mkLog info "{}" [AStr ("3" +:+ tab +:+ "3")];
       mkLog info "{}" [AStr ("2" +:+ tab +:+ "2")];
       mkLog info "{}" [AStr ("1" +:+ tab +:+ "1")];
       mkLog info "{}" [AStr "x"];
       mkLog info "PROC PRINT Results for Dataset '{}':" [AStr "WORK.in"]].
Proof.
  destruct (proc_print_listing "in" (st_merge []))
    as (st' & Hrun & _ & _ & _ & _ & Hlines).
  exists st'. split; [exact Hrun |].
  rewrite Hlines; [reflexivity |].
  repeat constructor.
Defined.

(** ** Conditional DO loops: the cap *)

Section NoCap.

Context `{Platform}.

Lemma doLoopWhile_never_ends exec condition isWhile body :
  always_continues condition isWhile ->
  (forall s, exists s',
      exec body s = Normal tt s' /\ s'.(loopStack) = s.(loopStack)) ->
  forall fuel st rest,
    st.(loopStack) = (DoLoopNode condition isWhile body, O) :: rest ->
    exists st',
      doLoopWhile exec fuel st = OutOfFuel st' /\
      st'.(loopStack) = st.(loopStack).
Proof.
  intros Hcond Hbody. induction fuel as [|fuel IH]; intros st rest Hstack.
  - exists st. split; reflexivity.
  - cbn [doLoopWhile]. unfold bind at 1, gets. rewrite Hstack.
    change (MAX_ITERATIONS <=? 0)%nat with false. cbv iota.
    assert (Hmet : exists s1,
               (match condition with
                | Some c =>
                  let* condValue := evaluate c in
                  ret (if isWhile then loopCondition condValue
                       else negb (loopCondition condValue))
                | None => ret true
                end) st = Normal true s1 /\
               s1.(loopStack) = st.(loopStack)).
    { destruct condition as [c|].
      - destruct (Hcond st) as (v & s1 & Hv & Hmet).
        exists s1. unfold bind. rewrite Hv. unfold ret. rewrite Hmet.
        split; [reflexivity |].
        pose proof (stays_evaluate c st) as Hlog. rewrite Hv in Hlog.
        destruct Hlog as [recs ->]. reflexivity.
      - exists st. split; reflexivity. }
    destruct Hmet as (s1 & Hmet & Hs1).
    unfold bind at 1. rewrite Hmet.
    destruct (Hbody s1) as (s2 & Hexec & Hs2).
    unfold bind at 1. rewrite Hexec.
    destruct (IH s2 rest) as (st' & Hrun & Hst').
    { rewrite Hs2, Hs1. exact Hstack. }
    exists st'. split; [exact Hrun |]. rewrite Hst', Hs2, Hs1. exact Hstack.
Qed.

(** C3.  The conditional DO loop has no working cap.  [executeDoLoop]
    pushes the loop context with the iteration count 0, and nothing
    increments the count, so the test against [MAX_ITERATIONS] never
    succeeds: a loop whose condition always lets it continue, and whose
    body runs without touching the loop stack, is still running, with the
    count still 0, when the fuel is used up, however much fuel there is. *)
Theorem conditional_loop_never_capped exec condition isWhile body fuel st :
  always_continues condition isWhile ->
  (forall s, exists s',
      exec body s = Normal tt s' /\ s'.(loopStack) = s.(loopStack)) ->
  exists st',
    executeDoLoop exec fuel (DoLoopNode condition isWhile body) st
    = OutOfFuel st' /\
    st'.(loopStack)
    = (DoLoopNode condition isWhile body, O) :: st.(loopStack).
Proof.
  intros Hcond Hbody. unfold executeDoLoop, bind, logM, modify.
  set (s1 := with_loopStack _ _).
  destruct (doLoopWhile_never_ends exec condition isWhile body Hcond Hbody
              fuel s1 st.(loopStack)) as (st' & Hrun & Hst').
  { subst s1. destruct st. reflexivity. }
  exists st'. split; [exact Hrun |]. rewrite Hst'. subst s1.
  destruct st. reflexivity.
Qed.

End NoCap.

Lemma conditional_loop_never_capped_witness :
  exists st',
    @execute bare_platform (S (S (Z.to_nat 1000000))) loop_forever initial
    = OutOfFuel st' /\
    st'.(loopStack) = [(loop_forever, O)].
Proof.
  apply (@conditional_loop_never_capped bare_platform
           (@execute bare_platform (S (Z.to_nat 1000000)))
           (Some (NumberNode one)) true (TitleNode "t")
           (S (Z.to_nat 1000000)) initial).
  - intros s. exists (VNum one), s. split; reflexivity.
  - intros s. eexists. split; [reflexivity |]. destruct s. reflexivity.
Defined.

(** ** MERGE: the order of the datasets *)

Section MergeOrder.

Context `{Platform}.

Variable byVars : list string.
Variable keys : list string.
Variable out : string.
Hypothesis out_not_merged : ~ In out keys.

Lemma merge_writes_incl e1 e r :
  (forall key row, In key keys ->
                   In row (rows_of key e1) -> In row (rows_of key e)) ->
  merge_writes byVars keys e1 r -> merge_writes byVars keys e r.
Proof.
  intros Hincl [(key & Hkey & Hr) | (picked & [Hsub Hall] & Hrow)].
  - left. exists key. split; [exact Hkey |]. apply Hincl; assumption.
  - right. exists picked. split; [split; [exact Hsub |] | exact Hrow].
    rewrite Forall_forall in *. intros p Hin.
    specialize (Hall _ Hin).
    apply Hincl; [| exact Hall].
    apply list_elem_of_In. eapply elem_of_sublist; [| exact Hsub].
    apply list_elem_of_In. apply list_elem_of_In in Hin.
    apply (in_map fst) in Hin. exact Hin.
Qed.

Lemma merge_writes_ext e1 e r :
  (forall key, In key keys -> rows_of key e1 = rows_of key e) ->
  merge_writes byVars keys e1 r -> merge_writes byVars keys e r.
Proof.
  intros Hsame. apply merge_writes_incl. intros key row Hkey.
  rewrite (Hsame key Hkey). tauto.
Qed.

(** The rows that match are rows of the datasets, in their order. *)
Lemma matched_picked e (g : option Row -> option Row) :
  (forall cur r, g cur = Some r -> cur = Some r) ->
  forall ks its,
  exists picked,
    map snd picked
    = omap g (zip_with (fun key it => rows_of key e !! it) ks its) /\
    sublist (map fst picked) ks /\
    Forall (fun p => In (snd p) (rows_of (fst p) e)) picked.
Proof.
  intros Hg. induction ks as [|key ks IH]; intros its.
  - exists []. split; [reflexivity |]. split; constructor.
  - destruct its as [|it its].
    + exists []. split; [reflexivity |]. split; [apply sublist_nil_l | constructor].
    + destruct (IH its) as (picked & Hsnd & Hsub & Hall).
      cbn [zip_with omap list_omap].
      fold (@omap list _ _ _ g (zip_with (fun key it => rows_of key e !! it) ks its)).
      destruct (g (rows_of key e !! it)) as [r|] eqn:Eg.
      * exists ((key, r) :: picked). cbn [map fst snd]. rewrite Hsnd.
        split; [reflexivity |]. split; [apply sublist_skip; exact Hsub |].
        constructor; [| exact Hall]. cbn [fst snd].
        apply Hg in Eg. apply list_elem_of_In.
        eapply list_elem_of_lookup_2. exact Eg.
      * exists picked. split; [exact Hsnd |].
        split; [apply sublist_cons; exact Hsub | exact Hall].
Qed.


Lemma push_row_rows key row st :
  is_Some (st.(env).(dataSets) !! key) ->
  exists st',
    push_row key row st = Normal tt st' /\
    rows_of key st'.(env) = rows_of key st.(env) ++ [row] /\
    (forall k, k <> key -> rows_of k st'.(env) = rows_of k st.(env)) /\
    is_Some (st'.(env).(dataSets) !! key).
Proof.
  intros Hsome. eexists. split; [reflexivity |]. split; [| split].
  - rewrite rows_of_push by exact Hsome. rewrite String.eqb_refl. reflexivity.
  - intros k Hk. rewrite rows_of_push by exact Hsome.
    destruct (String.eqb_spec k key); [contradiction | reflexivity].
  - apply push_is_Some. exact Hsome.
Qed.

(** What draining a dataset appends are rows of that dataset. *)
Lemma drainRows_copies key : forall fuel it st st',
  key <> out ->
  is_Some (st.(env).(dataSets) !! out) ->
  drainRows fuel key it out st = Normal tt st' ->
  exists new,
    rows_of out st'.(env) = rows_of out st.(env) ++ new /\
    Forall (fun r => In r (rows_of key st.(env))) new /\
    (forall k, k <> out -> rows_of k st'.(env) = rows_of k st.(env)) /\
    is_Some (st'.(env).(dataSets) !! out).
Proof.
  induction fuel as [|fuel IH]; intros it st st' Hne Hsome Hrun;
    [discriminate Hrun |].
  cbn [drainRows] in Hrun. unfold bind, row_of, getsEnv, gets in Hrun.
  destruct (rows_of key (env st) !! it) as [row|] eqn:Erow.
  - destruct (push_row_rows out row st Hsome)
      as (s1 & Hpush & Hout1 & Hother1 & Hsome1).
    rewrite Hpush in Hrun.
    destruct (IH (S it) s1 st' Hne Hsome1 Hrun)
      as (new & Hout & Hall & Hother & Hsome').
    exists (row :: new). split; [| split; [| split]].
    + rewrite Hout, Hout1, <- app_assoc. reflexivity.
    + constructor.
      * apply list_elem_of_In. eapply list_elem_of_lookup_2. exact Erow.
      * rewrite (Hother1 key Hne) in Hall. exact Hall.
    + intros k Hk. rewrite (Hother k Hk). apply Hother1. exact Hk.
    + exact Hsome'.
  - injection Hrun as <-. exists []. rewrite app_nil_r.
    split; [reflexivity |]. split; [constructor |]. split; [reflexivity |].
    exact Hsome.
Qed.

Lemma drain_all_copies fuel : forall (l : list (string * nat)) st st',
  (forall p, In p l -> In (fst p) keys) ->
  is_Some (st.(env).(dataSets) !! out) ->
  forM_ l (fun '(key, it) => drainRows fuel key it out) st = Normal tt st' ->
  exists new,
    rows_of out st'.(env) = rows_of out st.(env) ++ new /\
    Forall (copied_row keys st.(env)) new /\
    (forall k, k <> out -> rows_of k st'.(env) = rows_of k st.(env)).
Proof.
  induction l as [|[key it] l IH]; intros st st' Hkeys Hsome Hrun.
  - injection Hrun as <-. exists []. rewrite app_nil_r.
    split; [reflexivity |]. split; [constructor | reflexivity].
  - cbn [forM_] in Hrun. unfold bind in Hrun.
    destruct (drainRows fuel key it out st) as [[] s1 | | |] eqn:Edrain;
      try discriminate Hrun.
    assert (Hkey : In key keys) by (apply (Hkeys (key, it)); left; reflexivity).
    assert (Hne : key <> out) by (intros ->; contradiction).
    destruct (drainRows_copies key fuel it st s1 Hne Hsome Edrain)
      as (new1 & Hout1 & Hall1 & Hother1 & Hsome1).
    destruct (IH s1 st') as (new2 & Hout2 & Hall2 & Hother2).
    { intros p Hp. apply Hkeys. right. exact Hp. }
    { exact Hsome1. }
    { exact Hrun. }
    exists (new1 ++ new2). split; [| split].
    + rewrite Hout2, Hout1, <- app_assoc. reflexivity.
    + apply Forall_app. split.
      * eapply Forall_impl; [exact Hall1 |]. intros r Hr. exists key.
        split; assumption.
      * eapply Forall_impl; [exact Hall2 |].
        intros r (k & Hk & Hr). exists k. split; [exact Hk |].
        rewrite <- (Hother1 k); [exact Hr |]. intros ->. contradiction.
    + intros k Hk. rewrite (Hother2 k Hk). apply Hother1. exact Hk.
Qed.


Lemma forM_same_state {A} (f : A -> M unit) : forall (l : list A) st st',
  (forall x s s', f x s = Normal tt s' -> s' = s) ->
  forM_ l f st = Normal tt st' -> st' = st.
Proof.
  induction l as [|x l IH]; intros st st' Hf Hrun.
  - injection Hrun as <-. reflexivity.
  - cbn [forM_] in Hrun. unfold bind in Hrun.
    destruct (f x st) as [[] s1 | | |] eqn:Ex; try discriminate Hrun.
    apply Hf in Ex. subst s1. exact (IH st st' Hf Hrun).
Qed.

Lemma checkByValues_same_state cur st st' :
  checkByValues byVars cur st = Normal tt st' -> st' = st.
Proof.
  unfold checkByValues. destruct cur as [|first others].
  - intros [= <-]. reflexivity.
  - apply forM_same_state. intros [j var] s s'.
    destruct (first ≫= (.!! j)) as [referenceVal|]; [| discriminate].
    apply forM_same_state. intros cur s1 s1'.
    destruct (cur ≫= (.!! j)) as [x|]; [| discriminate].
    destruct (neb x referenceVal); [discriminate |].
    intros [= <-]. reflexivity.
Qed.

Lemma zip_fst_In {A B} (l1 : list A) : forall (l2 : list B) p,
  In p (zip l1 l2) -> In (fst p) l1.
Proof.
  induction l1 as [|a l1 IH]; intros [|b l2] p Hp; try destruct Hp.
  - subst p. left. reflexivity.
  - right. eapply IH. eassumption.
Qed.

(** Every row the loop appends to the output is a copy of an input row or
    the combination of rows of the datasets in their order. *)
Lemma mergeLoop_writes : forall fuel its st st',
  is_Some (st.(env).(dataSets) !! out) ->
  mergeLoop fuel byVars keys its out st = Normal tt st' ->
  exists new,
    rows_of out st'.(env) = rows_of out st.(env) ++ new /\
    Forall (merge_writes byVars keys st.(env)) new /\
    (forall k, k <> out -> rows_of k st'.(env) = rows_of k st.(env)).
Proof.
  induction fuel as [|fuel IH]; intros its st st' Hsome Hrun;
    [discriminate Hrun |].
  cbn [mergeLoop] in Hrun. unfold bind at 1 in Hrun.
  unfold getsEnv at 1, gets at 1 in Hrun.
  destruct (forallb _ _) in Hrun.
  { injection Hrun as <-. exists []. rewrite app_nil_r.
    split; [reflexivity |]. split; [constructor | reflexivity]. }
  unfold bind at 1 in Hrun.
  destruct (checkByValues _ _ st) as [[] s1 | | |] eqn:Echk;
    try discriminate Hrun.
  apply checkByValues_same_state in Echk. subst s1.
  unfold bind at 1 in Hrun. unfold getsEnv at 1, gets at 1 in Hrun.
  destruct (negb _) in Hrun.
  - match type of Hrun with
    | forM_ ?l _ _ = _ =>
      destruct (drain_all_copies fuel l st st')
        as (new & Hout & Hall & Hother);
        [| exact Hsome | exact Hrun |]
    end.
    { intros p Hp. apply zip_fst_In in Hp. exact Hp. }
    exists new. split; [exact Hout |]. split; [| exact Hother].
    eapply Forall_impl; [exact Hall |]. intros r Hr. left. exact Hr.
  - unfold bind at 1 in Hrun.
    match type of Hrun with
    | context [push_row out (mergeMatchedRows byVars (omap ?g _))] =>
      destruct (matched_picked (env st) g) with (ks := keys) (its := its)
        as (picked & Hsnd & Hsub & Hpicked)
    end.
    { intros [row|] r; [| discriminate].
      destruct (forallb _ _); [intros [= ->]; reflexivity | discriminate]. }
    rewrite <- Hsnd in Hrun.
    destruct (push_row_rows out (mergeMatchedRows byVars (map snd picked))
                            st Hsome)
      as (s1 & Hpush & Hout1 & Hother1 & Hsome1).
    rewrite Hpush in Hrun.
    destruct (IH _ s1 st' Hsome1 Hrun) as (new & Hout & Hall & Hother).
    assert (Hsame : forall key, In key keys ->
                      rows_of key (env s1) = rows_of key (env st)).
    { intros key Hkey. apply Hother1. intros ->. contradiction. }
    exists (mergeMatchedRows byVars (map snd picked) :: new).
    split; [| split].
    + rewrite Hout, Hout1, <- app_assoc. reflexivity.
    + constructor.
      * right. exists picked. split; [split; assumption | reflexivity].
      * eapply Forall_impl; [exact Hall |]. intros r.
        apply merge_writes_ext. exact Hsame.
    + intros k Hk. rewrite (Hother k Hk). apply Hother1. exact Hk.
Qed.

End MergeOrder.

Section MergeRun.

Context `{Platform}.

Lemma resolveDatasets_keys names : forall st keys st',
  resolveDatasets names st = Normal keys st' ->
  keys = map (fun d => resolveLibref d d) names /\
  (forall k, rows_of k st'.(env) = rows_of k st.(env)) /\
  st'.(byVariables) = st.(byVariables) /\
  st'.(env).(currentDataSet) = st.(env).(currentDataSet).
Proof.
  induction names as [|n names IH]; intros st keys st' Hrun.
  - injection Hrun as <- <-. repeat split.
  - cbn [resolveDatasets] in Hrun. unfold bind at 1 in Hrun.
    destruct (getOrCreateDatasetM n n st) as [key s1 | | |] eqn:E1;
      try discriminate Hrun.
    unfold bind at 1 in Hrun.
    destruct (resolveDatasets names s1) as [keys1 s2 | | |] eqn:E2;
      try discriminate Hrun.
    injection Hrun as <- <-.
    destruct (IH _ _ _ E2) as (-> & Hrows & Hby & Hcur).
    destruct (getOrCreateDatasetM_key _ _ _ _ _ E1) as (-> & _ & _).
    pose proof (keeps_rows_getOrCreate n n st _ s1 E1) as Hrows1.
    split; [reflexivity |]. split; [| split].
    + intros k. rewrite Hrows. apply Hrows1.
    + rewrite Hby. unfold getOrCreateDatasetM in E1.
      destruct (getOrCreateDataset n n (env st)). injection E1 as _ <-.
      destruct st. reflexivity.
    + rewrite Hcur. unfold getOrCreateDatasetM, getOrCreateDataset in E1.
      destruct (dataSets (env st) !! resolveLibref n n);
        injection E1 as <-; destruct st as [e ? ? ? ? ? ?]; destruct e;
        reflexivity.
Qed.

Lemma rows_of_update key f st k :
  rows_of k (env (with_env (update_dataset key f) st))
  = if decide (k = key)
    then match st.(env).(dataSets) !! key with
         | Some ds => ds_rows (f ds)
         | None => []
         end
    else rows_of k st.(env).
Proof.
  unfold rows_of. rewrite lookup_update.
  destruct (decide (k = key)) as [-> | Hne]; [| reflexivity].
  destruct (dataSets (env st) !! key); reflexivity.
Qed.

Lemma update_dataset_current key f st :
  currentDataSet (env (with_env (update_dataset key f) st))
  = currentDataSet (env st).
Proof. destruct st as [e ? ? ? ? ? ?]. destruct e. reflexivity. Qed.

(** Sorting the datasets to merge permutes the rows of each. *)
Lemma sort_all_perm byVars : forall keys st st',
  forM_ keys (fun key =>
    let* _ := sortDataset key byVars in
    let* ds := deref key in
    logM info "Dataset '{}' sorted by BY variables." [AStr ds.(ds_name)])
    st = Normal tt st' ->
  (forall k, Permutation (rows_of k st'.(env)) (rows_of k st.(env))) /\
  st'.(env).(currentDataSet) = st.(env).(currentDataSet).
Proof.
  induction keys as [|key keys IH]; intros st st' Hrun.
  - injection Hrun as <-. split; reflexivity.
  - cbn [forM_] in Hrun. unfold bind at 1 in Hrun.
    unfold bind at 1, sortDataset, modifyEnv, modify in Hrun.
    set (s1 := with_env _ st) in Hrun.
    unfold bind at 1 in Hrun.
    destruct (deref key s1) as [ds s2 | | |] eqn:Ederef;
      try discriminate Hrun.
    apply deref_rows in Ederef. destruct Ederef as [-> _].
    unfold logM, modify in Hrun.
    destruct (IH _ _ Hrun) as [Hperm Hcur].
    split.
    + intros k. rewrite (Hperm k).
      change (rows_of k (env (log info "Dataset '{}' sorted by BY variables."
                                  [AStr (ds_name ds)] s1)))
        with (rows_of k (env s1)).
      subst s1. rewrite rows_of_update.
      destruct (decide (k = key)) as [-> | Hne]; [| reflexivity].
      unfold rows_of. destruct (dataSets (env st) !! key); [| reflexivity].
      apply sortRows_perm.
    + rewrite Hcur. subst s1.
      rewrite <- (update_dataset_current key
                    (fun ds0 => set_rows (sortRows byVars (ds_rows ds0)) ds0) st).
      destruct (with_env _ st). reflexivity.
Qed.


(** C2 (as amended).  Every row a MERGE with BY writes to its output is a
    copy of a row of one of the merged datasets, or the combination of rows
    picked from the merged datasets in the order of the MERGE list.  In such
    a row a non-BY variable has, under its own name, the value of the first
    of the picked rows that has the variable: the value that a dataset later
    in the MERGE list contributes never replaces it.  (The side condition
    asks that the variable is not itself one of the prefixed names under
    which conflicting columns are stored.) *)
Theorem merge_conflict_keeps_earlier fuel datasets st st' :
  executeMerge fuel datasets st = Normal tt st' ->
  let byVars := st.(byVariables) in
  let keys := map (fun d => resolveLibref d d) datasets in
  let out := st.(env).(currentDataSet) in
  ~ In out keys ->
  forall r,
    In r (rows_of out st'.(env)) ->
    copied_row keys st.(env) r \/
    exists picked,
      picked_in_order keys st.(env) picked /\
      r = mergeMatchedRows byVars (map snd picked) /\
      forall v earlier p1 later x,
        picked = earlier ++ p1 :: later ->
        mem v byVars = false ->
        Forall (fun p => rename_free v (snd p)) picked ->
        Forall (fun p => row_find v (snd p) = None) earlier ->
        row_find v (snd p1) = Some x ->
        row_find v r = Some x.
Proof.
  intros Hrun byVars keys out Hout r Hr.
  assert (Hwrites : merge_writes byVars keys st.(env) r).
  { unfold executeMerge in Hrun. unfold bind at 1, logM at 1, modify in Hrun.
    unfold bind at 1 in Hrun. rewrite forM_logM in Hrun.
    unfold bind at 1 in Hrun.
    match type of Hrun with
    | match resolveDatasets _ ?s with _ => _ end = _ =>
      set (s0 := s) in Hrun;
      destruct (resolveDatasets datasets s0) as [ks s1 | | |] eqn:Eres;
        try discriminate Hrun
    end.
    destruct (resolveDatasets_keys _ _ _ _ Eres) as (-> & Hrows1 & Hby1 & Hcur1).
    fold keys in Hrun.
    unfold bind at 1, gets at 1 in Hrun. rewrite Hby1 in Hrun.
    change (byVariables s0) with byVars in Hrun.
    destruct byVars as [|var vars] eqn:Eby; [discriminate Hrun |].
    rewrite <- Eby in *. clear Eby var vars.
    unfold bind at 1 in Hrun.
    match type of Hrun with
    | match forM_ keys ?f s1 with _ => _ end = _ =>
      destruct (forM_ keys f s1) as [[] s2 | | |] eqn:Esort;
        try discriminate Hrun
    end.
    destruct (sort_all_perm _ _ _ _ Esort) as [Hperm2 Hcur2].
    unfold bind at 1, getsEnv at 1, gets at 1 in Hrun.
    assert (Hout2 : currentDataSet (env s2) = out)
      by (rewrite Hcur2, Hcur1; reflexivity).
    rewrite Hout2 in Hrun.
    unfold bind at 1 in Hrun.
    destruct (deref out s2) as [ds s2' | | |] eqn:Ederef;
      try discriminate Hrun.
    assert (Hsome2 : is_Some (dataSets (env s2) !! out)).
    { unfold deref, bind, getsEnv, gets in Ederef.
      destruct (dataSets (env s2) !! out); [eexists; reflexivity |
                                            discriminate Ederef]. }
    apply deref_rows in Ederef. destruct Ederef as [-> _].
    unfold bind at 1, modifyEnv at 1, modify at 1 in Hrun.
    set (s3 := with_env (update_dataset out (set_rows [])) s2) in Hrun.
    unfold bind at 1 in Hrun.
    destruct (mergeLoop fuel byVars keys _ out s3) as [[] s4 | | |] eqn:Eloop;
      try discriminate Hrun.
    unfold bind at 1 in Hrun.
    destruct (deref out s4) as [ds4 s4' | | |] eqn:Ederef4;
      try discriminate Hrun.
    apply deref_rows in Ederef4. destruct Ederef4 as [-> _].
    injection Hrun as <-.
    change (rows_of out (env (log info
              "MERGE statement executed successfully. Output dataset '{}' has {} observations."
              [AStr (ds_name ds4); AInt (Z.of_nat (length (ds_rows ds4)))] s4)))
      with (rows_of out (env s4)) in Hr.
    destruct (mergeLoop_writes byVars keys out Hout fuel
                (map (fun _ : string => O) keys) s3 s4)
      as (new & Hrows4 & Hall & _); [| exact Eloop |].
    { subst s3. apply update_dataset_is_Some. exact Hsome2. }
    assert (Hempty : rows_of out (env s3) = []).
    { subst s3. rewrite rows_of_update.
      destruct (decide (out = out)); [| contradiction].
      destruct (dataSets (env s2) !! out); reflexivity. }
    rewrite Hrows4, Hempty in Hr. cbn [app] in Hr.
    rewrite Forall_forall in Hall.
    apply list_elem_of_In in Hr. specialize (Hall _ Hr).
    revert Hall. apply merge_writes_incl.
    intros key row Hkey Hrow.
    assert (Hne : key <> out) by (intros ->; contradiction).
    subst s3. rewrite rows_of_update in Hrow.
    destruct (decide (key = out)); [contradiction |].
    rewrite (Hperm2 key), Hrows1 in Hrow. exact Hrow. }
  destruct Hwrites as [Hcopy | (picked & Hpicked & ->)]; [left; exact Hcopy |].
  right. exists picked. split; [exact Hpicked |]. split; [reflexivity |].
  intros v earlier p1 later x -> Hv Hfree Hnone Hx.
  rewrite map_app. cbn [map]. unfold mergeMatchedRows.
  apply fold_mergeRow_first; try assumption.
  - pose proof (proj1 (Forall_forall _ _) Hfree) as Hf.
    apply Forall_forall. intros row Hrow.
    apply list_elem_of_In in Hrow.
    change (snd p1 :: map snd later) with (map snd (p1 :: later)) in Hrow.
    rewrite <- map_app in Hrow. apply in_map_iff in Hrow.
    destruct Hrow as (p & <- & Hp). apply Hf. apply list_elem_of_In.
    exact Hp.
  - pose proof (proj1 (Forall_forall _ _) Hnone) as Hf.
    apply Forall_forall. intros row Hrow.
    apply list_elem_of_In in Hrow. apply in_map_iff in Hrow.
    destruct Hrow as (p & <- & Hp). apply Hf. apply list_elem_of_In.
    exact Hp.
  - reflexivity.
Qed.

End MergeRun.
Lemma merge_conflict_keeps_earlier_witness :
  exists st',
    executeMerge 10 ["ds1"; "ds2"] (st_merge ["id"]) = Normal tt st' /\
    rows_of "WORK.out" st'.(env)
    = [[("id", num 1); ("id_v", num 20); ("v", num 10)]] /\
    forall r,
      In r (rows_of "WORK.out" st'.(env)) ->
      copied_row ["ds1.ds1"; "ds2.ds2"] (st_merge ["id"]).(env) r \/
      exists picked,
        picked_in_order ["ds1.ds1"; "ds2.ds2"] (st_merge ["id"]).(env) picked /\
        r = mergeMatchedRows ["id"] (map snd picked) /\
        forall v earlier p1 later x,
          picked = earlier ++ p1 :: later ->
          mem v ["id"] = false ->
          Forall (fun p => rename_free v (snd p)) picked ->
          Forall (fun p => row_find v (snd p) = None) earlier ->
          row_find v (snd p1) = Some x ->
          row_find v r = Some x.
Proof.
  destruct (executeMerge 10 ["ds1"; "ds2"] (st_merge ["id"]))
    as [[] st' | e st' | | st'] eqn:Hrun;
    try (vm_compute in Hrun; discriminate Hrun).
  exists st'. split; [reflexivity |]. split.
  - vm_compute in Hrun. injection Hrun as <-. reflexivity.
  - apply (merge_conflict_keeps_earlier 10 ["ds1"; "ds2"] (st_merge ["id"])
             st' Hrun).
    cbn. intros [Heq | [Heq | []]]; discriminate Heq.
Defined.
